(** * shelld: the shell session engine and the session controller

    A shallow embedding of [internal/shell/shell.go], the hook runner of
    package [lifecycle], the loading of the configuration in
    [internal/config/config.go] and the request handlers, the idle watchdog
    and the shutdown of [cmd/shelld/main.go].

    Go strings are byte sequences: they are modelled by [string] (a list of
    8-bit [ascii]).  Integers of type [int], [int64] and [time.Duration] are
    modelled by [Z].  What the operating system answers (a spawn that fails,
    a read that returns bytes, end of file or an error, the clock) is an
    argument of the function that asks; the calls that leave the process
    (spawn, write, close, signal, hook) are returned as a list of events.
    Calls of the logger are left out.

    All reads and writes of the engine's fields happen under [shell.mu].
    Every critical section (the code between [shell.mu.Lock()] and
    [shell.mu.Unlock()]) is one function on the [Shell] record, and the
    goroutines of the program are interleaved at that grain in module
    [Engine]: a reader, whose [Read] happens outside the mutex, takes two
    steps for a turn of its loop.  In module [Server] a request is served in
    one step, from its key gate to its response, except that a call of
    [Execute] that waits is resumed by a later step; requests that arrive at
    once are served one after the other there, while the program can
    interleave their handlers.  The goroutine that shuts the process down
    takes three steps, and requests are served between them.

    The file has the definitions first (the byte-string functions of Go's
    library, base64, the engine, the engine with its goroutines, the hook
    runner, the configuration, the controller, the words of the
    specification), then the facts about them in the same order. *)

From Stdlib Require Import List ZArith NArith Lia Bool Arith.
From Stdlib Require Import DecimalString Ascii String.
Import ListNotations.

Open Scope string_scope.

(** ** Byte strings and the functions of Go's [strings] and [bytes] used *)

Module GoStrings.

Definition LF : string := String "010" "".
Definition CR : string := String "013" "".
Definition CRLF : string := String "013" (String "010" "").

(** [s[:n]] and [s[n:]].  Go panics when [n] exceeds [len(s)]; every slice
    the program takes is at an index [Index] returned, hence in range. *)
Fixpoint take (n : nat) (s : string) : string :=
  match n, s with
  | S n', String c s' => String c (take n' s')
  | _, _ => ""
  end.

Fixpoint drop (n : nat) (s : string) : string :=
  match n, s with
  | S n', String _ s' => drop n' s'
  | _, _ => s
  end.

(** [strings.HasPrefix] is [String.prefix]. *)
Definition HasPrefix (s pre : string) : bool := prefix pre s.

(** The position of the first occurrence of [substr] in [s]. *)
Fixpoint indexNat (s substr : string) : option nat :=
  if prefix substr s then Some 0
  else match s with
       | "" => None
       | String _ s' => option_map S (indexNat s' substr)
       end.

(** [strings.Index] and [bytes.Index]: the index of the first instance of
    [substr] in [s], or -1. *)
Definition Index (s substr : string) : Z :=
  match indexNat s substr with
  | Some i => Z.of_nat i
  | None => (-1)%Z
  end.

(** [bytes.Contains]. *)
Definition Contains (b subslice : string) : bool :=
  negb (Index b subslice =? -1)%Z.

(** [strings.Split] for a non-empty separator, as Go's [genSplit] computes
    it: cut at the first instance of [sep], continue after it.  (For the
    empty separator Go explodes [s] into UTF-8 sequences; the program never
    splits on it.) *)
Fixpoint genSplit (fuel : nat) (s sep : string) : list string :=
  match fuel with
  | O => [s]
  | S fuel' =>
      match indexNat s sep with
      | None => [s]
      | Some m => take m s :: genSplit fuel' (drop (m + length sep) s) sep
      end
  end.

Definition Split (s sep : string) : list string := genSplit (length s) s sep.

(** [strings.HasSuffix] and [strings.TrimSuffix]. *)
Definition HasSuffix (s suffix : string) : bool :=
  (length suffix <=? length s)%nat
  && (drop (length s - length suffix) s =? suffix).

Definition TrimSuffix (s suffix : string) : string :=
  if HasSuffix s suffix then take (length s - length suffix) s else s.

(** [strings.Join]. *)
Definition Join (elems : list string) (sep : string) : string :=
  String.concat sep elems.

(** *** Occurrences *)

Definition occurs (sub s : string) : Prop :=
  exists pre post, s = pre ++ sub ++ post.

(** [sub] occurs in [s] right after [pre], and nowhere earlier. *)
Definition first_at (sub s pre : string) : Prop :=
  (exists post, s = pre ++ sub ++ post) /\
  forall pre' post', s = pre' ++ sub ++ post' -> length pre <= length pre'.

(** *** What [Split], [TrimSuffix] and [Join] compute *)

(** [l] is a splitting of [s] at [sep]: the pieces joined by [sep] give [s]
    back, and no piece contains [sep]. *)
Definition is_split (s sep : string) (l : list string) : Prop :=
  l <> [] /\ Join l sep = s /\ Forall (fun x => ~ occurs sep x) l.

(** [out] is [line] without one trailing carriage return. *)
Definition strip_cr (line out : string) : Prop :=
  line = out ++ CR \/ (out = line /\ forall t, line <> t ++ CR).

End GoStrings.

(** ** [encoding/base64]: [StdEncoding.EncodeToString] *)

Module Base64.

(** The standard alphabet of RFC 4648. *)
Definition encodeStd : string :=
  "ABCDEFGHIJKLMNOPQRSTUVWXYZabcdefghijklmnopqrstuvwxyz0123456789+/".

Definition padChar : ascii := "="%char.

(** [enc.encode[i]] for a 6-bit [i]. *)
Definition encode (i : N) : ascii :=
  match String.get (N.to_nat i) encodeStd with
  | Some c => c
  | None => padChar
  end.

(** Three source bytes give four characters; a rest of one or two bytes is
    padded, as in [Encoding.Encode]. *)
Fixpoint EncodeToString (src : string) : string :=
  match src with
  | "" => ""
  | String a "" =>
      let val := N.shiftl (N_of_ascii a) 16 in
      String (encode (N.land (N.shiftr val 18) 63))
        (String (encode (N.land (N.shiftr val 12) 63))
           (String padChar (String padChar "")))
  | String a (String b "") =>
      let val := N.lor (N.shiftl (N_of_ascii a) 16) (N.shiftl (N_of_ascii b) 8) in
      String (encode (N.land (N.shiftr val 18) 63))
        (String (encode (N.land (N.shiftr val 12) 63))
           (String (encode (N.land (N.shiftr val 6) 63))
              (String padChar "")))
  | String a (String b (String c rest)) =>
      let val := N.lor (N.lor (N.shiftl (N_of_ascii a) 16)
                              (N.shiftl (N_of_ascii b) 8)) (N_of_ascii c) in
      String (encode (N.land (N.shiftr val 18) 63))
        (String (encode (N.land (N.shiftr val 12) 63))
           (String (encode (N.land (N.shiftr val 6) 63))
              (String (encode (N.land val 63)) (EncodeToString rest))))
  end.

(** [StdEncoding.DecodeString], to state that the encoding can be undone:
    the value of a character of the alphabet, the byte of a 24-bit group,
    the group of four 6-bit values. *)
Fixpoint position (c : ascii) (alphabet : string) (i : N) : option N :=
  match alphabet with
  | "" => None
  | String d rest => if Ascii.eqb c d then Some i else position c rest (N.succ i)
  end.

Definition decodeChar (c : ascii) : option N := position c encodeStd 0.

Definition byteOf (val : N) (shift : N) : ascii :=
  ascii_of_N (N.land (N.shiftr val shift) 255).

Definition quantum (n1 n2 n3 n4 : N) : N :=
  N.lor (N.lor (N.lor (N.shiftl n1 18) (N.shiftl n2 12)) (N.shiftl n3 6)) n4.

Fixpoint DecodeString (s : string) : option string :=
  match s with
  | "" => Some ""
  | String c1 (String c2 (String c3 (String c4 rest))) =>
      match decodeChar c1, decodeChar c2 with
      | Some n1, Some n2 =>
          if Ascii.eqb c3 padChar && Ascii.eqb c4 padChar then
            match rest with
            | "" => Some (String (byteOf (quantum n1 n2 0 0) 16) "")
            | _ => None
            end
          else
            match decodeChar c3 with
            | Some n3 =>
                if Ascii.eqb c4 padChar then
                  match rest with
                  | "" =>
                      Some (String (byteOf (quantum n1 n2 n3 0) 16)
                              (String (byteOf (quantum n1 n2 n3 0) 8) ""))
                  | _ => None
                  end
                else
                  match decodeChar c4, DecodeString rest with
                  | Some n4, Some out =>
                      Some (String (byteOf (quantum n1 n2 n3 n4) 16)
                              (String (byteOf (quantum n1 n2 n3 n4) 8)
                                 (String (byteOf (quantum n1 n2 n3 n4) 0) out)))
                  | _, _ => None
                  end
            | None => None
            end
      | _, _ => None
      end
  | _ => None
  end.

(** The 6 bits of [val] from bit [shift] on, and three bytes as one
    24-bit group. *)
Definition sextet (val shift : N) : N := N.land (N.shiftr val shift) 63%N.

Definition pack (a b c : N) : N :=
  N.lor (N.lor (N.shiftl a 16) (N.shiftl b 8)) c.

End Base64.

(** ** The shell session engine ([internal/shell/shell.go]) *)

Module Shell.
Import GoStrings.

Inductive State : Set :=
| StateAvailable
| StateLocked
| StateExecuting
| StateUnrecoverable.

(** The value of the Go constant (the type [State] is a [string]). *)
Definition State_text (s : State) : string :=
  match s with
  | StateAvailable => "available"
  | StateLocked => "locked"
  | StateExecuting => "executing"
  | StateUnrecoverable => "unrecoverable"
  end.

Definition State_eqb (a b : State) : bool :=
  match a, b with
  | StateAvailable, StateAvailable | StateLocked, StateLocked
  | StateExecuting, StateExecuting | StateUnrecoverable, StateUnrecoverable => true
  | _, _ => false
  end.

(** The errors the engine returns.  [cause] is the text of the operating
    system's error wrapped by [%w]. *)
Inductive error : Set :=
| ErrTimeout
| ErrCannotStart (st : State)
| ErrPtyAlloc (cause : string)
| ErrInitialize (cause : error)
| ErrNotReady (st : State)
| ErrWrite (cause : string)
| ErrClosed
| ErrTerminated
| ErrReadFailed (cause : string)
| ErrInterrupt (cause : string).

(** What one [Read] of the pseudo-terminal master returns. *)
Inductive ReadResult : Set :=
| ReadBytes (data : string)
| ReadEOF
| ReadError (cause : string).

(** What [pty.Start] returns: an error, or the child (its process id) and the
    master side (its descriptor), together with the reads of the master that
    complete before the 30 s readiness deadline. *)
Inductive SpawnResult : Set :=
| SpawnFailed (cause : string)
| Spawned (pid fd : nat) (reads : list ReadResult).

(** Calls that leave the process. *)
Inductive Event : Set :=
| EvSpawn (command dir : string)
| EvPtyWrite (fd : option nat) (data : string)
| EvPtyClose (fd : nat)
| EvWait (pid : nat)
| EvSigkill (pid : nat)
| EvHook (shellCommand hookName command key : string)
| EvSigterm.

(** Channel identifiers: [make( chan error, 1 )] allocates a fresh one. *)
Definition chan : Set := nat.

Record Shell : Set := mkShell {
  state : State;
  cmd : option nat;            (* [*exec.Cmd]: the child's pid, [None] for nil *)
  ptyFile : option nat;        (* [*os.File]: the master side, [None] for nil *)
  outputBuffer : string;
  killGracePeriod : Z;
  shellCommand : string;
  workingDirectory : string;
  lastOutput : string;
  commandDone : option chan;
  currentCommand : string;
  startMarker : string;
  endMarker : string
}.

(** The assignments to the fields. *)
Definition set_state (v : State) (s : Shell) : Shell :=
  match s with
  | mkShell _ c p b g sc wd lo cd cc sm em =>
      mkShell v c p b g sc wd lo cd cc sm em
  end.

Definition set_cmd (v : option nat) (s : Shell) : Shell :=
  match s with
  | mkShell st _ p b g sc wd lo cd cc sm em =>
      mkShell st v p b g sc wd lo cd cc sm em
  end.

Definition set_ptyFile (v : option nat) (s : Shell) : Shell :=
  match s with
  | mkShell st c _ b g sc wd lo cd cc sm em =>
      mkShell st c v b g sc wd lo cd cc sm em
  end.

Definition set_outputBuffer (v : string) (s : Shell) : Shell :=
  match s with
  | mkShell st c p _ g sc wd lo cd cc sm em =>
      mkShell st c p v g sc wd lo cd cc sm em
  end.

Definition set_lastOutput (v : string) (s : Shell) : Shell :=
  match s with
  | mkShell st c p b g sc wd _ cd cc sm em =>
      mkShell st c p b g sc wd v cd cc sm em
  end.

Definition set_commandDone (v : option chan) (s : Shell) : Shell :=
  match s with
  | mkShell st c p b g sc wd lo _ cc sm em =>
      mkShell st c p b g sc wd lo v cc sm em
  end.

Definition set_currentCommand (v : string) (s : Shell) : Shell :=
  match s with
  | mkShell st c p b g sc wd lo cd _ sm em =>
      mkShell st c p b g sc wd lo cd v sm em
  end.

Definition set_startMarker (v : string) (s : Shell) : Shell :=
  match s with
  | mkShell st c p b g sc wd lo cd cc _ em =>
      mkShell st c p b g sc wd lo cd cc v em
  end.

Definition set_endMarker (v : string) (s : Shell) : Shell :=
  match s with
  | mkShell st c p b g sc wd lo cd cc sm _ =>
      mkShell st c p b g sc wd lo cd cc sm v
  end.

(** [NewShell]. *)
Definition NewShell (shellCommand workingDirectory : string)
    (killGracePeriod : Z) : Shell :=
  mkShell StateAvailable None None "" killGracePeriod shellCommand
    workingDirectory "" None "" "" "".

(** [fmt.Sprintf( "%d", n )]. *)
Definition itoa (n : Z) : string := NilZero.string_of_int (Z.to_int n).

(** The double quote, U+0022. *)
Definition dquote : string := String (ascii_of_nat 34) "".

(** The byte ETX, 0x03. *)
Definition ETX : string := String (ascii_of_nat 3) "".

(** [State]. *)
Definition State_ (shell : Shell) : State := state shell.

(** [Output]. *)
Definition Output (shell : Shell) : string := lastOutput shell.

(** The loop of [extractOutput] over the lines. *)
Fixpoint cleanLoop (lines cleanLines : list string) : list string :=
  match lines with
  | [] => cleanLines
  | line :: rest =>
      let line := TrimSuffix line CR in
      if negb (line =? "") then cleanLoop rest (cleanLines ++ [line])%list
      else cleanLoop rest cleanLines
  end.

(** [extractOutput].  [command] is not used by the function. *)
Definition extractOutput (shell : Shell) (command : string) : string :=
  let output := outputBuffer shell in
  let startMarkerOutput := startMarker shell ++ CRLF in
  let startIdx := Index output startMarkerOutput in
  if (startIdx =? -1)%Z then ""
  else
    let output :=
      drop (Z.to_nat (startIdx + Z.of_nat (length startMarkerOutput))) output in
    let endIdx := Index output (endMarker shell) in
    if (endIdx =? -1)%Z then ""
    else
      let output := take (Z.to_nat endIdx) output in
      let lines := Split output LF in
      let cleanLines := cleanLoop lines [] in
      Join cleanLines LF.

(** [cleanup]. *)
Definition cleanup (shell : Shell) : Shell * list Event :=
  let (shell, ev) :=
    match ptyFile shell with
    | Some fd => (set_ptyFile None shell, [EvPtyClose fd])
    | None => (shell, [])
    end in
  let shell := set_cmd None shell in
  let shell := set_outputBuffer "" shell in
  (shell, ev).

(** [waitForOutput]: the reader appends what it reads until the buffer
    contains [marker]; a read that fails, or end of file, is the result;
    when the reads that arrive before the deadline are used up, the result
    is [ErrTimeout]. *)
Fixpoint waitForOutput (marker : string) (reads : list ReadResult)
    (shell : Shell) : Shell * option error :=
  match reads with
  | [] => (shell, Some ErrTimeout)
  | ReadEOF :: _ => (shell, Some ErrTerminated)
  | ReadError cause :: _ => (shell, Some (ErrReadFailed cause))
  | ReadBytes data :: rest =>
      let shell := set_outputBuffer (outputBuffer shell ++ data) shell in
      if Contains (outputBuffer shell) marker then (shell, None)
      else waitForOutput marker rest shell
  end.

(** [Start].  [now] is [time.Now().UnixNano()]. *)
Definition Start (now : Z) (spawn : SpawnResult) (shell : Shell)
    : Shell * option error * list Event :=
  if negb (State_eqb (state shell) StateAvailable) then
    (shell, Some (ErrCannotStart (state shell)), [])
  else
    let ev := [EvSpawn (shellCommand shell) (workingDirectory shell)] in
    match spawn with
    | SpawnFailed cause =>
        (set_state StateUnrecoverable shell, Some (ErrPtyAlloc cause), ev)
    | Spawned pid fd reads =>
        let shell := set_cmd (Some pid) shell in
        let shell := set_ptyFile (Some fd) shell in
        let shell := set_outputBuffer "" shell in
        let readyMarker := "<<<SHELLD_READY_" ++ itoa now ++ ">>>" in
        let ev := (ev ++ [EvPtyWrite (ptyFile shell)
                            ("echo '" ++ readyMarker ++ "'" ++ LF)%string])%list in
        match waitForOutput readyMarker reads shell with
        | (shell, Some err) =>
            let (shell, ev') := cleanup shell in
            (set_state StateUnrecoverable shell, Some (ErrInitialize err),
             (ev ++ ev')%list)
        | (shell, None) =>
            let shell := set_outputBuffer "" shell in
            (set_state StateLocked shell, None, ev)
        end
    end.

(** What the first critical section of [Execute] hands on: the call has
    returned, or it waits on the completion channel with a reader started
    (which holds the end marker sequence it looks for). *)
Inductive ExecuteStep : Set :=
| Returned (output : string) (err : option error)
| Waiting (done : chan) (endMarkerOutput : string).

(** The command line written to the shell. *)
Definition wrappedCmd (startMarker encodedCmd endMarker : string) : string :=
  "echo '" ++ startMarker ++ "';eval " ++ dquote ++ "$(echo '" ++ encodedCmd
  ++ "'|base64 -d)" ++ dquote ++ ";echo;echo '" ++ endMarker ++ "'" ++ LF.

(** [Execute], from [shell.mu.Lock()] to the [shell.mu.Unlock()] before the
    [select].  [now] is [time.Now().UnixNano()], [done] the channel
    [make] returns and [werr] the error of the write, if it fails. *)
Definition Execute_begin (command : string) (timeout now : Z) (done : chan)
    (werr : option string) (shell : Shell)
    : Shell * ExecuteStep * list Event :=
  if negb (State_eqb (state shell) StateLocked) then
    (shell, Returned "" (Some (ErrNotReady (state shell))), [])
  else
    let shell := set_state StateExecuting shell in
    let shell := set_outputBuffer "" shell in
    let shell := set_lastOutput "" shell in
    let shell := set_currentCommand command shell in
    let shell := set_commandDone (Some done) shell in
    let markerID := now in
    let shell :=
      set_startMarker ("<<<SHELLD_START_" ++ itoa markerID ++ ">>>") shell in
    let shell :=
      set_endMarker ("<<<SHELLD_END_" ++ itoa markerID ++ ">>>") shell in
    let encodedCmd := Base64.EncodeToString command in
    let wrapped := wrappedCmd (startMarker shell) encodedCmd (endMarker shell) in
    let ev := [EvPtyWrite (ptyFile shell) wrapped] in
    let err :=
      match ptyFile shell with
      | None => Some "invalid argument"
      | Some _ => werr
      end in
    match err with
    | Some cause =>
        (set_state StateUnrecoverable shell,
         Returned "" (Some (ErrWrite cause)), ev)
    | None => (shell, Waiting done (LF ++ endMarker shell ++ CRLF), ev)
    end.

(** The [select] of [Execute]: the case that receives [err] from the
    completion channel, and the case of the timer. *)
Definition Execute_receive (err : option error) (shell : Shell)
    : Shell * (string * option error) :=
  match err with
  | Some e => (set_state StateUnrecoverable shell, ("", Some e))
  | None =>
      let output := lastOutput shell in
      (set_state StateLocked shell, (output, None))
  end.

Definition Execute_timeout (shell : Shell) : Shell * (string * option error) :=
  (shell, ("", Some ErrTimeout)).

(** A turn of the loop of [readUntilMarker] has two critical sections, with
    the [Read] between them, outside the mutex.

    The first one, from [shell.mu.Lock()] to the [shell.mu.Unlock()] before
    [ptyFile.Read]: the error the reader sends on [shell.commandDone] before
    it returns, or [None] when it goes on to read. *)
Definition readUntilMarker_begin (shell : Shell) : option error :=
  match ptyFile shell with
  | None => Some ErrClosed
  | Some _ => None
  end.

(** The rest of the turn, from the return [res] of [ptyFile.Read]: the
    second critical section, which does not look at [shell.ptyFile] again.
    The second component is [Some v] when the reader sends [v] on
    [shell.commandDone] and returns, [None] when it loops. *)
Definition readUntilMarker_read (endMarkerOutput : string) (res : ReadResult)
    (shell : Shell) : Shell * option (option error) :=
  match res with
  | ReadEOF => (shell, Some (Some ErrTerminated))
  | ReadError cause => (shell, Some (Some (ErrReadFailed cause)))
  | ReadBytes data =>
      let shell := set_outputBuffer (outputBuffer shell ++ data) shell in
      let bufferBytes := outputBuffer shell in
      if Contains bufferBytes endMarkerOutput then
        let shell :=
          set_lastOutput (extractOutput shell (currentCommand shell)) shell in
        let shell := set_state StateLocked shell in
        (shell, Some None)
      else (shell, None)
  end.

(** A whole turn whose [Read] returns [res] before any other goroutine takes
    the mutex. *)
Definition readUntilMarker_turn (endMarkerOutput : string) (res : ReadResult)
    (shell : Shell) : Shell * option (option error) :=
  match readUntilMarker_begin shell with
  | Some err => (shell, Some (Some err))
  | None => readUntilMarker_read endMarkerOutput res shell
  end.

(** [Kill]. *)
Definition Kill (werr : option string) (shell : Shell)
    : Shell * option error * list Event :=
  match ptyFile shell with
  | None => (shell, None, [])
  | Some fd =>
      let ev := [EvPtyWrite (Some fd) ETX] in
      match werr with
      | Some cause => (shell, Some (ErrInterrupt cause), ev)
      | None => (shell, None, ev)
      end
  end.

(** [Unlock].  [exited] tells whether the child exits within the kill grace
    period. *)
Definition Unlock (exited : bool) (shell : Shell)
    : Shell * option error * list Event :=
  match cmd shell with
  | None => (set_state StateAvailable shell, None, [])
  | Some pid =>
      let (shell, ev) :=
        match ptyFile shell with
        | Some fd =>
            (set_ptyFile None shell,
             [EvPtyWrite (Some fd) ("exit" ++ LF); EvPtyClose fd])
        | None => (shell, [])
        end in
      let ev := (ev ++ (if exited then [EvWait pid]
                        else [EvSigkill pid; EvWait pid]))%list in
      let shell := set_cmd None shell in
      let shell := set_outputBuffer "" shell in
      let shell := set_state StateAvailable shell in
      (shell, None, ev)
  end.

End Shell.

(** ** The engine with its goroutines

    The callers of [Execute] that wait in the [select], the readers started
    by [go shell.readUntilMarker()] and the completion channels live next to
    the [Shell] record.  A step is one of:
    - a whole call of [Start], [Kill], [Unlock], [State] or [Output] (one
      critical section each);
    - the first critical section of [Execute], which either returns or
      leaves the call waiting on the channel it made, with a reader started;
    - the receive case or the timer case of the [select] of a waiting call
      ([time.After] is not modelled: the timer case can be taken at any
      time);
    - the first critical section of a turn of a reader (the check of
      [shell.ptyFile]), after which the reader is inside [ptyFile.Read];
    - the return of the [Read] of a reader with the critical section after
      it and the send that ends the reader.  For a reader that is not inside
      [Read] this step is the whole turn, check included: the [Read] returns
      before another goroutine takes the mutex.
    The channel a waiting call receives from is the one the call made (the
    program reads [shell.commandDone] again right after the unlock); the
    channel a reader sends on is [shell.commandDone] at the time of the send,
    as in the program. *)

Module Engine.
Import GoStrings Shell.

Record World : Set := mkWorld {
  shell : Shell.Shell;
  (* the buffer (capacity 1) of every channel made so far, by identifier *)
  chans : list (option (option error));
  (* the calls of Execute waiting in the select, by their channel *)
  waiters : list chan;
  (* the readers started so far: [Some (m, reading)] runs and looks for [m],
     and [reading] tells whether it is inside [ptyFile.Read], past the check
     of [shell.ptyFile]; [None] has returned *)
  readers : list (option (string * bool))
}.

Definition init (shellCommand workingDirectory : string) (killGracePeriod : Z)
    : World :=
  mkWorld (NewShell shellCommand workingDirectory killGracePeriod) [] [] [].

Definition set_shell (sh : Shell.Shell) (w : World) : World :=
  match w with
  | mkWorld _ cs ws rs => mkWorld sh cs ws rs
  end.

Fixpoint update {A : Type} (n : nat) (v : A) (l : list A) : list A :=
  match n, l with
  | O, _ :: t => v :: t
  | S n', x :: t => x :: update n' v t
  | _, [] => []
  end.

(** [ch <- v] on a channel of capacity 1.  On a full channel, and on the nil
    channel, the sender blocks: nothing is delivered. *)
Definition send (ch : option chan) (v : option error)
    (cs : list (option (option error))) : list (option (option error)) :=
  match ch with
  | None => cs
  | Some c =>
      match nth_error cs c with
      | Some None => update c (Some v) cs
      | _ => cs
      end
  end.

Definition remove_waiter (c : chan) (l : list chan) : list chan :=
  filter (fun x => negb (Nat.eqb x c)) l.

Definition is_waiter (c : chan) (l : list chan) : bool :=
  existsb (Nat.eqb c) l.

Inductive Op : Set :=
| OpStart (now : Z) (spawn : SpawnResult)
| OpExecute (command : string) (timeout now : Z) (werr : option string)
| OpReceive (done : chan)
| OpTimeout (done : chan)
| OpReadBegin (reader : nat)
| OpRead (reader : nat) (res : ReadResult)
| OpKill (werr : option string)
| OpUnlock (exited : bool)
| OpState
| OpOutput.

(** What the step gives back to the code that made the call. *)
Inductive Ret : Set :=
| RetError (err : option error)
| RetExecute (output : string) (err : option error)
| RetWaiting (done : chan)
| RetReader (sent : option (option error))
| RetState (st : State)
| RetOutput (out : string).

(** One step.  [None]: the step cannot be taken in [w] (no such waiter, no
    such reader, nothing to receive). *)
Definition step (op : Op) (w : World) : option (World * Ret * list Event) :=
  match op with
  | OpStart now spawn =>
      let '(sh, err, ev) := Start now spawn (shell w) in
      Some (set_shell sh w, RetError err, ev)
  | OpExecute command timeout now werr =>
      let done := List.length (chans w) in
      match Execute_begin command timeout now done werr (shell w) with
      | (sh, Returned output err, ev) =>
          let cs := if State_eqb (state (shell w)) StateLocked
                    then (chans w ++ [None])%list else chans w in
          Some (mkWorld sh cs (waiters w) (readers w), RetExecute output err, ev)
      | (sh, Waiting c m, ev) =>
          Some (mkWorld sh (chans w ++ [None])%list (waiters w ++ [c])%list
                  (readers w ++ [Some (m, false)])%list, RetWaiting c, ev)
      end
  | OpReceive done =>
      if is_waiter done (waiters w) then
        match nth_error (chans w) done with
        | Some (Some err) =>
            let '(sh, (output, e)) := Execute_receive err (shell w) in
            Some (mkWorld sh (update done None (chans w))
                    (remove_waiter done (waiters w)) (readers w),
                  RetExecute output e, [])
        | _ => None
        end
      else None
  | OpTimeout done =>
      if is_waiter done (waiters w) then
        let '(sh, (output, e)) := Execute_timeout (shell w) in
        Some (mkWorld sh (chans w) (remove_waiter done (waiters w)) (readers w),
              RetExecute output e, [])
      else None
  | OpReadBegin r =>
      match nth_error (readers w) r with
      | Some (Some (m, false)) =>
          match readUntilMarker_begin (shell w) with
          | Some err =>
              Some (mkWorld (shell w)
                      (send (commandDone (shell w)) (Some err) (chans w))
                      (waiters w) (update r None (readers w)),
                    RetReader (Some (Some err)), [])
          | None =>
              Some (mkWorld (shell w) (chans w) (waiters w)
                      (update r (Some (m, true)) (readers w)),
                    RetReader None, [])
          end
      | _ => None
      end
  | OpRead r res =>
      match nth_error (readers w) r with
      | Some (Some (m, false)) =>
          match readUntilMarker_turn m res (shell w) with
          | (sh, None) => Some (set_shell sh w, RetReader None, [])
          | (sh, Some v) =>
              Some (mkWorld sh (send (commandDone sh) v (chans w)) (waiters w)
                      (update r None (readers w)), RetReader (Some v), [])
          end
      | Some (Some (m, true)) =>
          match readUntilMarker_read m res (shell w) with
          | (sh, None) =>
              Some (mkWorld sh (chans w) (waiters w)
                      (update r (Some (m, false)) (readers w)),
                    RetReader None, [])
          | (sh, Some v) =>
              Some (mkWorld sh (send (commandDone sh) v (chans w)) (waiters w)
                      (update r None (readers w)), RetReader (Some v), [])
          end
      | _ => None
      end
  | OpKill werr =>
      let '(sh, err, ev) := Kill werr (shell w) in
      Some (set_shell sh w, RetError err, ev)
  | OpUnlock exited =>
      let '(sh, err, ev) := Unlock exited (shell w) in
      Some (set_shell sh w, RetError err, ev)
  | OpState => Some (w, RetState (State_ (shell w)), [])
  | OpOutput => Some (w, RetOutput (Output (shell w)), [])
  end.

(** A run: the worlds after each step, the returns of the steps. *)
Fixpoint run (ops : list Op) (w : World) : option (list World * list Ret) :=
  match ops with
  | [] => Some ([], [])
  | op :: rest =>
      match step op w with
      | None => None
      | Some (w', r, _) =>
          match run rest w' with
          | None => None
          | Some (ws, rs) => Some (w' :: ws, r :: rs)
          end
      end
  end.

(** The states the shell goes through in a run, the first one included. *)
Definition states (ops : list Op) (w : World) : option (list State) :=
  match run ops w with
  | None => None
  | Some (ws, _) => Some (state (shell w) :: map (fun x => state (shell x)) ws)
  end.

(** The world at the end of a run. *)
Fixpoint final (ops : list Op) (w : World) : option World :=
  match ops with
  | [] => Some w
  | op :: rest =>
      match step op w with
      | None => None
      | Some (w', _, _) => final rest w'
      end
  end.

(** The turns of reader [r] that read the chunks [datas], in order. *)
Definition reads (r : nat) (datas : list string) : list Op :=
  map (fun data => OpRead r (ReadBytes data)) datas.

(** The bytes of the chunks, one after the other. *)
Definition joinAll (datas : list string) : string :=
  fold_right append "" datas.

(** The state graph of the specification's data model. *)
Definition edge (a b : State) : bool :=
  match a, b with
  | StateAvailable, StateLocked
  | StateLocked, StateExecuting
  | StateExecuting, StateLocked
  | StateLocked, StateAvailable
  | StateExecuting, StateAvailable
  | StateLocked, StateUnrecoverable
  | StateExecuting, StateUnrecoverable
  | StateAvailable, StateUnrecoverable
  | StateUnrecoverable, StateAvailable => true
  | _, _ => false
  end.

(** Every change of state in the list is an edge of the graph. *)
Fixpoint path (l : list State) : bool :=
  match l with
  | a :: ((b :: _) as t) => (State_eqb a b || edge a b) && path t
  | _ => true
  end.

(** A change of state that the graph allows, or the one it does not. *)
Definition allowed_or_late (a b : State) : bool :=
  State_eqb a b || edge a b
  || (State_eqb a StateUnrecoverable && State_eqb b StateLocked).

(** Two requests at once.  [/execute echo hi] is accepted; its reader sees
    the end marker, sets the state to [locked] and signals; before the first
    call takes that signal, [/execute exit] is accepted, its reader meets
    the end of file, and the second call sets the state to [unrecoverable]. *)
Definition two_executes : list Op :=
  [ OpStart 0 (Spawned 7 3 [ReadBytes "<<<SHELLD_READY_0>>>"]);
    OpExecute "echo hi" 300000000000 1 None;
    OpRead 0 (ReadBytes ("<<<SHELLD_START_1>>>" ++ CRLF ++ "hi" ++ CRLF ++ CRLF
                         ++ "<<<SHELLD_END_1>>>" ++ CRLF));
    OpExecute "exit" 300000000000 2 None;
    OpRead 1 ReadEOF;
    OpReceive 1;
    OpReceive 0 ].

(** The variant of [two_executes] in which the write of the second call
    fails (the shell is gone): the second call does not get as far as its
    reader. *)
Definition execute_write_fails : list Op :=
  [ OpStart 0 (Spawned 7 3 [ReadBytes "<<<SHELLD_READY_0>>>"]);
    OpExecute "echo hi" 300000000000 1 None;
    OpRead 0 (ReadBytes ("<<<SHELLD_START_1>>>" ++ CRLF ++ "hi" ++ CRLF ++ CRLF
                         ++ "<<<SHELLD_END_1>>>" ++ CRLF));
    OpExecute "echo again" 300000000000 2 (Some "input/output error");
    OpReceive 0 ].

(** A command that outlives its deadline and then ends the shell. *)
Definition timeout_then_eof : list Op :=
  [ OpStart 0 (Spawned 7 3 [ReadBytes "<<<SHELLD_READY_0>>>"]);
    OpExecute "sleep 1; exit" 100000000 1 None;
    OpTimeout 0;
    OpRead 0 ReadEOF;
    OpState ].

(** A reader that appends after [Unlock].  [sleep 30] is accepted and its
    reader is inside [Read] when [Unlock] ends the shell; the [Read] then
    returns the bytes it has got, the echo of the line [exit] that [Unlock]
    wrote, and the reader appends them.  A second [Unlock] (the one of the
    shutdown, after an unlock in recycle mode) finds no child. *)
Definition read_after_unlock : list Op :=
  [ OpStart 0 (Spawned 7 3 [ReadBytes "<<<SHELLD_READY_0>>>"]);
    OpExecute "sleep 30" 300000000000 1 None;
    OpReadBegin 0;
    OpUnlock true;
    OpRead 0 (ReadBytes ("exit" ++ CRLF));
    OpUnlock true ].

(** The bytes a terminal sends for the lines [lines]: every line is ended
    by CRLF (the pseudo-terminal turns the LF of the child into CRLF). *)
Definition crlf_lines (lines : list string) : string :=
  fold_right (fun line rest => line ++ CRLF ++ rest) "" lines.

(** Every change of state in the list is an edge of the graph, or the one
    change outside it. *)
Fixpoint walk (l : list State) : bool :=
  match l with
  | a :: ((b :: _) as t) => allowed_or_late a b && walk t
  | _ => true
  end.

(** What the fields of the engine say about each other: the master side is
    recorded only with a child, no child is recorded in state [available],
    and the master side is open in state [executing]. *)
Definition coherent (sh : Shell.Shell) : Prop :=
  (ptyFile sh <> None -> cmd sh <> None)
  /\ (state sh = StateAvailable -> cmd sh = None)
  /\ (state sh = StateExecuting -> ptyFile sh <> None).

(** The steps other than a call of [Unlock]. *)
Definition keeps_session (op : Op) : bool :=
  match op with
  | OpUnlock _ => false
  | _ => true
  end.

End Engine.

(** ** The hook runner (package [lifecycle]) *)

Module Lifecycle.
Import Shell.

Record Hooks : Set := mkHooks {
  shellCommand : string;
  lock : string;
  unlock : string
}.

Definition NewHooks (shellCommand lock unlock : string) : Hooks :=
  mkHooks shellCommand lock unlock.

(** A [context.Context], as [exec.CommandContext] looks at it when the
    command is to be started: done (cancelled, or past its deadline) or not. *)
Inductive Context : Set :=
| Active
| Done.

(** [run]: nothing for the empty command; otherwise the helper shell runs
    [command] with [SHELLD_KEY=key] in its environment, unless the context
    is done: [cmd.Run()] then returns the error of the context and starts no
    process.  (A process that is started is killed when the context becomes
    done.)  The error and the exit status are logged and dropped. *)
Definition run (ctx : Context) (hooks : Hooks) (hookName command key : string)
    : list Event :=
  if command =? "" then []
  else
    match ctx with
    | Done => []
    | Active => [EvHook (shellCommand hooks) hookName command key]
    end.

Definition RunLock (ctx : Context) (hooks : Hooks) (key : string) : list Event :=
  run ctx hooks "lock" (lock hooks) key.

Definition RunUnlock (ctx : Context) (hooks : Hooks) (key : string)
    : list Event :=
  run ctx hooks "unlock" (unlock hooks) key.

End Lifecycle.

(** ** The configuration ([internal/config/config.go]) *)

Module Config.

Definition defaultPort : Z := 8080.
Definition defaultShell : string := "/bin/bash".
Definition defaultHookShell : string := "/bin/sh".
Definition defaultCommandTimeout : string := "5m".
Definition defaultCommandMaxTimeout : string := "30m".
Definition defaultIdleTimeout : string := "30m".
Definition defaultShutdownTimeout : string := "30s".
Definition defaultKillTimeout : string := "5s".

Record ServerConfig : Set := mkServerConfig {
  Port : Z;
  DieOnUnlock : option bool    (* [*bool]: [None] for nil *)
}.

Record ShellConfig : Set := mkShellConfig {
  Command : string;
  WorkingDirectory : string
}.

(** The texts of the file and the durations parsed from them, in
    nanoseconds.  The two fields named [Command] and [Shell] of the Go
    structs carry the name of their struct here. *)
Record TimeoutConfig : Set := mkTimeoutConfig {
  TimeoutCommand : string;
  CommandMaximum : string;
  Idle : string;
  Shutdown : string;
  Kill : string;
  CommandDuration : Z;
  CommandMaximumDuration : Z;
  IdleDuration : Z;
  ShutdownDuration : Z;
  KillDuration : Z
}.

Record HooksConfig : Set := mkHooksConfig {
  HooksShell : string;
  Lock : string;
  Unlock : string
}.

Record Config : Set := mkConfig {
  Server : ServerConfig;
  Shell : ShellConfig;
  Timeout : TimeoutConfig;
  Hooks : HooksConfig
}.

(** [&Config{}]: every field has the zero value of its type. *)
Definition zero : Config :=
  mkConfig (mkServerConfig 0 None) (mkShellConfig "" "")
    (mkTimeoutConfig "" "" "" "" "" 0 0 0 0 0) (mkHooksConfig "" "" "").

(** The errors of [Load].  [field] is the name the message gives. *)
Inductive error : Set :=
| ErrRead (cause : string)
| ErrParse (cause : string)
| ErrDuration (field : string)
| ErrPort (port : Z).

(** [applyDefaults]. *)
Definition applyDefaults (cfg : Config) : Config :=
  let server := Server cfg in
  let shell := Shell cfg in
  let timeout := Timeout cfg in
  let hooks := Hooks cfg in
  let server :=
    if (Port server =? 0)%Z then mkServerConfig defaultPort (DieOnUnlock server)
    else server in
  let shell :=
    if Command shell =? "" then mkShellConfig defaultShell (WorkingDirectory shell)
    else shell in
  let timeout :=
    if TimeoutCommand timeout =? "" then
      mkTimeoutConfig defaultCommandTimeout (CommandMaximum timeout)
        (Idle timeout) (Shutdown timeout) (Kill timeout)
        (CommandDuration timeout) (CommandMaximumDuration timeout)
        (IdleDuration timeout) (ShutdownDuration timeout) (KillDuration timeout)
    else timeout in
  let timeout :=
    if CommandMaximum timeout =? "" then
      mkTimeoutConfig (TimeoutCommand timeout) defaultCommandMaxTimeout
        (Idle timeout) (Shutdown timeout) (Kill timeout)
        (CommandDuration timeout) (CommandMaximumDuration timeout)
        (IdleDuration timeout) (ShutdownDuration timeout) (KillDuration timeout)
    else timeout in
  let timeout :=
    if Idle timeout =? "" then
      mkTimeoutConfig (TimeoutCommand timeout) (CommandMaximum timeout)
        defaultIdleTimeout (Shutdown timeout) (Kill timeout)
        (CommandDuration timeout) (CommandMaximumDuration timeout)
        (IdleDuration timeout) (ShutdownDuration timeout) (KillDuration timeout)
    else timeout in
  let timeout :=
    if Shutdown timeout =? "" then
      mkTimeoutConfig (TimeoutCommand timeout) (CommandMaximum timeout)
        (Idle timeout) defaultShutdownTimeout (Kill timeout)
        (CommandDuration timeout) (CommandMaximumDuration timeout)
        (IdleDuration timeout) (ShutdownDuration timeout) (KillDuration timeout)
    else timeout in
  let timeout :=
    if Kill timeout =? "" then
      mkTimeoutConfig (TimeoutCommand timeout) (CommandMaximum timeout)
        (Idle timeout) (Shutdown timeout) defaultKillTimeout
        (CommandDuration timeout) (CommandMaximumDuration timeout)
        (IdleDuration timeout) (ShutdownDuration timeout) (KillDuration timeout)
    else timeout in
  let hooks :=
    if HooksShell hooks =? "" then
      mkHooksConfig defaultHookShell (Lock hooks) (Unlock hooks)
    else hooks in
  let server :=
    match DieOnUnlock server with
    | None =>
        let defaultDieOnUnlock := true in
        mkServerConfig (Port server) (Some defaultDieOnUnlock)
    | Some _ => server
    end in
  mkConfig server shell timeout hooks.

(** [validate]. *)
Definition validate (cfg : Config) : option error :=
  if ((Port (Server cfg) <? 1) || (Port (Server cfg) >? 65535))%Z
  then Some (ErrPort (Port (Server cfg)))
  else None.

Section Load.

(** [time.ParseDuration] and [toml.Unmarshal] into [&Config{}], of the
    libraries: the value, or [None] for an error ([time.ParseDuration] then
    returns the duration 0 with it). *)
Variable ParseDuration : string -> option Z.
Variable Unmarshal : string -> Config + string.

(** The duration and the error of one call of [time.ParseDuration]. *)
Definition parsed (s : string) : Z * bool :=
  match ParseDuration s with
  | Some d => (d, false)
  | None => (0%Z, true)
  end.

(** The assignments of [parseDurations] to the five parsed fields. *)
Definition set_durations (d1 d2 d3 d4 d5 : Z) (cfg : Config) : Config :=
  let t := Timeout cfg in
  mkConfig (Server cfg) (Shell cfg)
    (mkTimeoutConfig (TimeoutCommand t) (CommandMaximum t) (Idle t)
       (Shutdown t) (Kill t) d1 d2 d3 d4 d5)
    (Hooks cfg).

(** [parseDurations]: the fields are parsed in order; the first text that
    does not parse ends the function, with its field set to 0 and the later
    ones left as they were. *)
Definition parseDurations (cfg : Config) : Config * option error :=
  let t := Timeout cfg in
  let (d1, err) := parsed (TimeoutCommand t) in
  if err then
    (set_durations d1 (CommandMaximumDuration t) (IdleDuration t)
       (ShutdownDuration t) (KillDuration t) cfg,
     Some (ErrDuration "timeout.command"))
  else
    let (d2, err) := parsed (CommandMaximum t) in
    if err then
      (set_durations d1 d2 (IdleDuration t) (ShutdownDuration t)
         (KillDuration t) cfg,
       Some (ErrDuration "timeout.command_maximum"))
    else
      let (d3, err) := parsed (Idle t) in
      if err then
        (set_durations d1 d2 d3 (ShutdownDuration t) (KillDuration t) cfg,
         Some (ErrDuration "timeout.idle"))
      else
        let (d4, err) := parsed (Shutdown t) in
        if err then
          (set_durations d1 d2 d3 d4 (KillDuration t) cfg,
           Some (ErrDuration "timeout.shutdown"))
        else
          let (d5, err) := parsed (Kill t) in
          if err then
            (set_durations d1 d2 d3 d4 d5 cfg, Some (ErrDuration "timeout.kill"))
          else (set_durations d1 d2 d3 d4 d5 cfg, None).

(** [Load].  [file] is what [os.ReadFile( path )] returns: the bytes, or
    the cause of the error. *)
Definition Load (file : string + string) : Config + error :=
  match file with
  | inr cause => inr (ErrRead cause)
  | inl data =>
      match Unmarshal data with
      | inr cause => inr (ErrParse cause)
      | inl cfg =>
          let cfg := applyDefaults cfg in
          match parseDurations cfg with
          | (_, Some err) => inr err
          | (cfg, None) =>
              match validate cfg with
              | Some err => inr err
              | None => inl cfg
              end
          end
      end
  end.

End Load.

(** The texts [parseDurations] parses, with the names of their fields, in
    the order it parses them. *)
Definition duration_fields (cfg : Config) : list (string * string) :=
  [ ("timeout.command", TimeoutCommand (Timeout cfg));
    ("timeout.command_maximum", CommandMaximum (Timeout cfg));
    ("timeout.idle", Idle (Timeout cfg));
    ("timeout.shutdown", Shutdown (Timeout cfg));
    ("timeout.kill", Kill (Timeout cfg)) ].

(** No field that [applyDefaults] fills is left at its zero value. *)
Definition complete (cfg : Config) : Prop :=
  Port (Server cfg) <> 0%Z
  /\ DieOnUnlock (Server cfg) <> None
  /\ Command (Shell cfg) <> ""
  /\ TimeoutCommand (Timeout cfg) <> ""
  /\ CommandMaximum (Timeout cfg) <> ""
  /\ Idle (Timeout cfg) <> ""
  /\ Shutdown (Timeout cfg) <> ""
  /\ Kill (Timeout cfg) <> ""
  /\ HooksShell (Hooks cfg) <> "".

End Config.

(** ** The session controller ([cmd/shelld/main.go]) *)

Module Server.
Import GoStrings Shell Lifecycle.

(** The fields of [config.Config] the handlers read; durations in
    nanoseconds, as [time.Duration]. *)
Record Config : Set := mkConfig {
  Port : Z;
  DieOnUnlock : bool;
  CommandDuration : Z;
  CommandMaximumDuration : Z;
  IdleDuration : Z;
  ShutdownDuration : Z;
  KillDuration : Z
}.

Record Request : Set := mkRequest {
  Method : string;
  Path : string;
  Header : list (string * string);
  (* what [io.ReadAll( request.Body )] returns: the bytes, or [None] for an
     error *)
  Body : option string
}.

Record Response : Set := mkResponse {
  status : Z;
  text : string
}.

Definition StatusOK : Z := 200.
Definition StatusAccepted : Z := 202.
Definition StatusBadRequest : Z := 400.
Definition StatusUnauthorized : Z := 401.
Definition StatusNotFound : Z := 404.
Definition StatusMethodNotAllowed : Z := 405.
Definition StatusConflict : Z := 409.
Definition StatusInternalServerError : Z := 500.

(** [http.Error]: the message, a newline, the code. *)
Definition Error (error : string) (code : Z) : Response :=
  mkResponse code (error ++ LF).

(** [Header.Get]: the first value of the key, or the empty string. *)
Fixpoint Get (h : list (string * string)) (key : string) : string :=
  match h with
  | [] => ""
  | (k, v) :: t => if k =? key then v else Get t key
  end.

(** What the operating system answers while one request is served. *)
Record Env : Set := mkEnv {
  clock : Z;                    (* [time.Now()] of [updateActivity] *)
  unixNano : Z;                 (* [time.Now().UnixNano()] of the engine *)
  spawn : SpawnResult;          (* [pty.Start] and the readiness reads *)
  writeError : option string;   (* the error of a write to the master *)
  exited : bool                 (* the child exits within the grace period *)
}.

(** How far the goroutine of [main] that waits for SIGINT or SIGTERM has
    got: it waits for the signal; it has run the unlock hook; it has called
    [server.shell.Unlock()]. *)
Inductive Phase : Set :=
| Serving
| Signalled
| Unlocked.

Record serverInstance : Set := mkServer {
  cfg : Config;
  engine : Engine.World;        (* [shell], with the goroutines it started *)
  hooks : Hooks;
  lastActivity : Z;
  key : string;
  phase : Phase;
  (* the process has left [main] *)
  stopped : bool
}.

Definition shell (server : serverInstance) : Shell.Shell :=
  Engine.shell (engine server).

Definition set_engine (w : Engine.World) (server : serverInstance)
    : serverInstance :=
  match server with
  | mkServer c _ h a k p s => mkServer c w h a k p s
  end.

Definition set_shell (sh : Shell.Shell) (server : serverInstance)
    : serverInstance :=
  set_engine (Engine.set_shell sh (engine server)) server.

Definition set_key (v : string) (server : serverInstance) : serverInstance :=
  match server with
  | mkServer c w h a _ p s => mkServer c w h a v p s
  end.

Definition set_stopped (v : bool) (server : serverInstance) : serverInstance :=
  match server with
  | mkServer c w h a k p _ => mkServer c w h a k p v
  end.

Definition set_phase (v : Phase) (server : serverInstance) : serverInstance :=
  match server with
  | mkServer c w h a k _ s => mkServer c w h a k v s
  end.

(** [updateActivity]. *)
Definition updateActivity (now : Z) (server : serverInstance)
    : serverInstance :=
  match server with
  | mkServer c w h _ k p s => mkServer c w h now k p s
  end.

(** What a handler leaves behind: the server, the response when it has
    written one ([None] while [Execute] waits), the calls made. *)
Definition Result : Set := serverInstance * option Response * list Event.

Definition HandlerFunc : Set := Env -> Request -> serverInstance -> Result.

(** [request.Context()].  The context of a request is done when the client
    closes the connection; the client is taken to keep it open while its
    request is served. *)
Definition RequestContext (request : Request) : Context := Active.

(** [setKeyMiddleware]. *)
Definition setKeyMiddleware (next : HandlerFunc) : HandlerFunc :=
  fun env request server =>
    let providedKey := Get (Header request) "X-Shell-Key" in
    if providedKey =? "" then
      (server,
       Some (Error "The X-Shell-Key header is required." StatusUnauthorized), [])
    else
      let server :=
        if key server =? "" then set_key providedKey server else server in
      let key := key server in
      if negb (providedKey =? key) then
        (server,
         Some (Error "The provided key does not match the locked key."
                 StatusUnauthorized), [])
      else
        let server := updateActivity (clock env) server in
        next env request server.

(** [verifyKeyMiddleware]. *)
Definition verifyKeyMiddleware (next : HandlerFunc) : HandlerFunc :=
  fun env request server =>
    let providedKey := Get (Header request) "X-Shell-Key" in
    if providedKey =? "" then
      (server,
       Some (Error "The X-Shell-Key header is required." StatusUnauthorized), [])
    else
      let key := key server in
      if key =? "" then
        (server, Some (Error "The shell has not been locked." StatusConflict), [])
      else if negb (providedKey =? key) then
        (server,
         Some (Error "The provided key does not match the locked key."
                 StatusUnauthorized), [])
      else
        let server := updateActivity (clock env) server in
        next env request server.

(** [handleLock]. *)
Definition handleLock : HandlerFunc :=
  fun env request server =>
    let ev := RunLock (RequestContext request) (hooks server) (key server) in
    let '(sh, err, ev') := Start (unixNano env) (spawn env) (shell server) in
    let server := set_shell sh server in
    match err with
    | Some _ =>
        let state := State_ (shell server) in
        let response :=
          if State_eqb state StateLocked || State_eqb state StateExecuting then
            Error "The shell is already locked." StatusConflict
          else if State_eqb state StateUnrecoverable then
            Error "The shell is in an unrecoverable state." StatusConflict
          else
            Error "The shell could not be started." StatusInternalServerError in
        (server, Some response, (ev ++ ev')%list)
    | None => (server, Some (mkResponse StatusOK ""), (ev ++ ev')%list)
    end.

Section Execute.

(** [time.ParseDuration], of Go's library: the duration in nanoseconds, or
    [None] for an error. *)
Variable ParseDuration : string -> option Z.

(** [handleExecute] up to the call of [server.shell.Execute]: the response
    of an early return, or the command and the timeout of the call. *)
Definition handleExecute_call (request : Request) (server : serverInstance)
    : Response + string * Z :=
  match Body request with
  | None => inl (Error "The request body could not be read." StatusBadRequest)
  | Some body =>
      let command := body in
      if command =? "" then
        inl (Error "The command cannot be empty." StatusBadRequest)
      else
        let timeout := CommandDuration (cfg server) in
        let timeoutHeader := Get (Header request) "X-Command-Timeout" in
        if negb (timeoutHeader =? "") then
          match ParseDuration timeoutHeader with
          | None =>
              inl (Error "The X-Command-Timeout header is invalid."
                     StatusBadRequest)
          | Some parsedTimeout =>
              let parsedTimeout :=
                if (parsedTimeout >? CommandMaximumDuration (cfg server))%Z
                then CommandMaximumDuration (cfg server) else parsedTimeout in
              let timeout :=
                if (parsedTimeout >? 0)%Z then parsedTimeout else timeout in
              inr (command, timeout)
          end
        else inr (command, timeout)
  end.

(** [handleExecute] from the return of [server.shell.Execute]. *)
Definition handleExecute_reply (output : string) (err : option error)
    (server : serverInstance) : Response :=
  match err with
  | Some ErrTimeout =>
      Error "The command timed out. The shell is busy and the command is still running."
        StatusAccepted
  | Some _ =>
      let state := State_ (shell server) in
      if State_eqb state StateAvailable then
        Error "The shell has not been locked." StatusConflict
      else if State_eqb state StateExecuting then
        Error "The shell is busy executing another command." StatusConflict
      else if State_eqb state StateUnrecoverable then
        Error "The shell is in an unrecoverable state." StatusConflict
      else
        Error "The command could not be executed." StatusInternalServerError
  | None => mkResponse StatusOK output
  end.

(** [handleExecute]: the call of [Execute] runs its first critical section;
    when the call then waits, the response is written by [resume]. *)
Definition handleExecute : HandlerFunc :=
  fun env request server =>
    match handleExecute_call request server with
    | inl response => (server, Some response, [])
    | inr (command, timeout) =>
        match Engine.step (Engine.OpExecute command timeout (unixNano env)
                             (writeError env)) (engine server) with
        | Some (w, Engine.RetExecute output err, ev) =>
            let server := set_engine w server in
            (server, Some (handleExecute_reply output err server), ev)
        | Some (w, _, ev) => (set_engine w server, None, ev)
        | None => (server, None, [])
        end
    end.

(** [handleKill]. *)
Definition handleKill : HandlerFunc :=
  fun env request server =>
    let '(sh, err, ev) := Kill (writeError env) (shell server) in
    let server := set_shell sh server in
    match err with
    | Some _ =>
        (server,
         Some (Error "The shell could not be killed." StatusInternalServerError),
         ev)
    | None => (server, Some (mkResponse StatusOK ""), ev)
    end.

(** [handleUnlock]. *)
Definition handleUnlock : HandlerFunc :=
  fun env request server =>
    if DieOnUnlock (cfg server) then
      (* the goroutine sleeps 100 ms, then signals the process *)
      (server, Some (mkResponse StatusOK ""), [EvSigterm])
    else
      let ev := RunUnlock (RequestContext request) (hooks server) (key server) in
      let '(sh, _, ev') := Unlock (exited env) (shell server) in
      let server := set_shell sh server in
      let server := set_key "" server in
      (server, Some (mkResponse StatusOK ""), (ev ++ ev')%list).

(** [handleOutput]. *)
Definition handleOutput : HandlerFunc :=
  fun env request server =>
    (server, Some (mkResponse StatusOK (Output (shell server))), []).

(** [handleState]. *)
Definition handleState : HandlerFunc :=
  fun env request server =>
    (server, Some (mkResponse StatusOK (State_text (State_ (shell server)))), []).

(** [handleHealth]. *)
Definition handleHealth : HandlerFunc :=
  fun env request server => (server, Some (mkResponse StatusOK ""), []).

(** The routes registered on the multiplexer in [main]: a pattern matches
    the method and the path of the request. *)
Definition routed (request : Request) (method path : string) : bool :=
  (Method request =? method) && (Path request =? path).

(** The paths of the patterns. *)
Definition registered (path : string) : bool :=
  (path =? "/lock") || (path =? "/execute") || (path =? "/kill")
  || (path =? "/unlock") || (path =? "/output") || (path =? "/state")
  || (path =? "/health").

(** What the server sends for a request whose method is HEAD: the status,
    without the body the handler wrote. *)
Definition withoutBody (result : Result) : Result :=
  match result with
  | (server, Some response, ev) =>
      (server, Some (mkResponse (status response) ""), ev)
  | (server, None, ev) => (server, None, ev)
  end.

(** The multiplexer of Go's library, for the patterns of [main] and a
    request whose path is clean (a path with [//], [.] or [..] is answered
    by a redirect, which is left out).  A pattern with the method GET
    matches HEAD too; a path that is registered with other methods only is
    answered 405, any other path 404. *)
Definition ServeHTTP : HandlerFunc :=
  fun env request server =>
    if routed request "POST" "/lock" then
      setKeyMiddleware handleLock env request server
    else if routed request "POST" "/execute" then
      verifyKeyMiddleware handleExecute env request server
    else if routed request "POST" "/kill" then
      verifyKeyMiddleware handleKill env request server
    else if routed request "POST" "/unlock" then
      verifyKeyMiddleware handleUnlock env request server
    else if routed request "GET" "/output" then
      verifyKeyMiddleware handleOutput env request server
    else if routed request "GET" "/state" then
      verifyKeyMiddleware handleState env request server
    else if routed request "GET" "/health" then handleHealth env request server
    else if routed request "HEAD" "/output" then
      withoutBody (verifyKeyMiddleware handleOutput env request server)
    else if routed request "HEAD" "/state" then
      withoutBody (verifyKeyMiddleware handleState env request server)
    else if routed request "HEAD" "/health" then
      withoutBody (handleHealth env request server)
    else
      let response :=
        if registered (Path request) then
          Error "Method Not Allowed" StatusMethodNotAllowed
        else Error "404 page not found" StatusNotFound in
      if Method request =? "HEAD" then
        withoutBody (server, Some response, [])
      else (server, Some response, []).

(** The goroutine of [main] that waits for SIGINT or SIGTERM, in three
    steps; the handlers and the other goroutines run between them.

    It takes the signal, cancels the context of the watchdog and runs the
    unlock hook under [shutdownCtx], whose deadline is
    [cfg.Timeout.ShutdownDuration] from now: the context is done from the
    start when that duration is not positive, and [expired] tells whether
    the deadline has passed when the hook is to be started. *)
Definition shutdown_hook (expired : bool) (server : serverInstance) : Result :=
  match phase server with
  | Serving =>
      let shutdownCtx :=
        if (ShutdownDuration (cfg server) <=? 0)%Z || expired then Done
        else Active in
      (set_phase Signalled server, None,
       RunUnlock shutdownCtx (hooks server) (key server))
  | _ => (server, None, [])
  end.

(** It calls [server.shell.Unlock()]. *)
Definition shutdown_unlock (exited : bool) (server : serverInstance) : Result :=
  match phase server with
  | Signalled =>
      let '(sh, _, ev) := Unlock exited (shell server) in
      (set_phase Unlocked (set_shell sh server), None, ev)
  | _ => (server, None, [])
  end.

(** It calls [httpServer.Shutdown]: [httpServer.Serve] returns at once, and
    [main] with it. *)
Definition shutdown_exit (server : serverInstance) : Result :=
  match phase server with
  | Unlocked => (set_stopped true server, None, [])
  | _ => (server, None, [])
  end.

(** One turn of [monitorIdleTimeout] at a tick of its ticker.  The watchdog
    can tick at any time here; in the program it returns once its context
    is cancelled, after at most the tick that is due at that moment. *)
Definition monitorIdleTimeout_tick (now : Z) (server : serverInstance) : Result :=
  let idleDuration := (now - lastActivity server)%Z in
  if (idleDuration >? IdleDuration (cfg server))%Z then (server, None, [EvSigterm])
  else (server, None, []).

(** What happens in the process: a request is served; a call of [Execute]
    that waits receives from its channel or times out; a reader passes its
    check of [shell.ptyFile], or its [Read] returns; the watchdog ticks; the
    goroutine that waits for a signal takes one of its three steps. *)
Inductive Op : Set :=
| Serve (request : Request) (env : Env)
| Receive (done : chan)
| Timeout (done : chan)
| ReadBegin (reader : nat)
| Read (reader : nat) (res : ReadResult)
| Tick (now : Z)
| Signal (expired : bool)
| SignalUnlock (exited : bool)
| SignalShutdown.

(** The rest of [handleExecute] once the engine's step [op] has returned. *)
Definition resume (op : Engine.Op) (server : serverInstance) : Result :=
  match Engine.step op (engine server) with
  | Some (w, Engine.RetExecute output err, ev) =>
      let server := set_engine w server in
      (server, Some (handleExecute_reply output err server), ev)
  | Some (w, _, ev) => (set_engine w server, None, ev)
  | None => (server, None, [])
  end.

(** A stopped process does nothing. *)
Definition step (op : Op) (server : serverInstance) : Result :=
  if stopped server then (server, None, [])
  else
    match op with
    | Serve request env => ServeHTTP env request server
    | Receive done => resume (Engine.OpReceive done) server
    | Timeout done => resume (Engine.OpTimeout done) server
    | ReadBegin reader => resume (Engine.OpReadBegin reader) server
    | Read reader res => resume (Engine.OpRead reader res) server
    | Tick now => monitorIdleTimeout_tick now server
    | Signal expired => shutdown_hook expired server
    | SignalUnlock exited => shutdown_unlock exited server
    | SignalShutdown => shutdown_exit server
    end.

Fixpoint run (ops : list Op) (server : serverInstance) : serverInstance :=
  match ops with
  | [] => server
  | op :: rest => run rest (fst (fst (step op server)))
  end.

(** The responses written during a run, in order. *)
Fixpoint responses (ops : list Op) (server : serverInstance)
    : list (option Response) :=
  match ops with
  | [] => []
  | op :: rest =>
      let '(server', r, _) := step op server in r :: responses rest server'
  end.

(** The steps of the goroutines in the background: no request is served
    and the goroutine that waits for a signal takes no step. *)
Definition background (op : Op) : bool :=
  match op with
  | Serve _ _ | Signal _ | SignalUnlock _ | SignalShutdown => false
  | _ => true
  end.

End Execute.

(** The endpoints behind a key gate. *)
Definition keyed (request : Request) : bool :=
  routed request "POST" "/lock" || routed request "POST" "/execute"
  || routed request "POST" "/kill" || routed request "POST" "/unlock"
  || routed request "GET" "/output" || routed request "GET" "/state".

(** The response of a key gate that refuses a request. *)
Definition refusal (request : Request) (server : serverInstance) : Response :=
  if Get (Header request) "X-Shell-Key" =? "" then
    Error "The X-Shell-Key header is required." StatusUnauthorized
  else if key server =? "" then
    Error "The shell has not been locked." StatusConflict
  else
    Error "The provided key does not match the locked key." StatusUnauthorized.

(** The server [main] builds from a configuration. *)
Definition NewServer (cfg : Config) (shellCommand workingDirectory : string)
    (hookShell hookLock hookUnlock : string) (now : Z) : serverInstance :=
  mkServer cfg (Engine.init shellCommand workingDirectory (KillDuration cfg))
    (NewHooks hookShell hookLock hookUnlock) now "" Serving false.

(** A reading of durations for the examples: a whole number followed by one
    of the units [ms], [s], [m], [h] (Go's [time.ParseDuration] accepts more). *)
Fixpoint digits (s : string) (acc : Z) : option (Z * string) :=
  match s with
  | String c rest =>
      let n := Z.of_nat (nat_of_ascii c) in
      if ((48 <=? n) && (n <=? 57))%Z then
        match digits rest (acc * 10 + (n - 48))%Z with
        | Some r => Some r
        | None => Some ((acc * 10 + (n - 48))%Z, rest)
        end
      else None
  | "" => None
  end.

Definition parseWholeDuration (s : string) : option Z :=
  match digits s 0 with
  | Some (n, unit) =>
      if unit =? "ms" then Some (n * 1000000)%Z
      else if unit =? "s" then Some (n * 1000000000)%Z
      else if unit =? "m" then Some (n * 60000000000)%Z
      else if unit =? "h" then Some (n * 3600000000000)%Z
      else None
  | None => None
  end.

End Server.

(** ** The specification's words *)

Module Spec.
Import GoStrings.

(** Output extraction (section 4.1): discard everything up to and including
    the first occurrence of the start marker followed by CRLF; discard the
    next occurrence of the end marker and everything after it; split the
    remainder on LF, strip a trailing CR from each line, drop the empty
    lines, rejoin with LF.  The empty string if either marker is missing. *)
Inductive extract (buffer startMarker endMarker : string) : string -> Prop :=
| extract_no_start :
    ~ occurs (startMarker ++ CRLF) buffer ->
    extract buffer startMarker endMarker ""
| extract_no_end (pre rest : string) :
    first_at (startMarker ++ CRLF) buffer pre ->
    buffer = pre ++ (startMarker ++ CRLF) ++ rest ->
    ~ occurs endMarker rest ->
    extract buffer startMarker endMarker ""
| extract_between (pre mid post : string) (lines stripped : list string) :
    first_at (startMarker ++ CRLF) buffer pre ->
    buffer = pre ++ (startMarker ++ CRLF) ++ mid ++ endMarker ++ post ->
    first_at endMarker (mid ++ endMarker ++ post) mid ->
    is_split mid LF lines ->
    Forall2 strip_cr lines stripped ->
    extract buffer startMarker endMarker
      (Join (filter (fun line => negb (line =? "")) stripped) LF).

End Spec.

(** * Facts about the byte-string functions *)

Module StringFacts.
Import GoStrings.

Lemma append_nil_r (s : string) : s ++ "" = s.
Proof. induction s as [|c s IH]; simpl; [reflexivity | now rewrite IH]. Qed.

Lemma append_assoc (a b c : string) : (a ++ b) ++ c = a ++ b ++ c.
Proof. induction a as [|x a IH]; simpl; [reflexivity | now rewrite IH]. Qed.

Lemma length_append (a b : string) : length (a ++ b) = length a + length b.
Proof. induction a as [|x a IH]; simpl; [reflexivity | now rewrite IH]. Qed.

Lemma take_append (a b : string) : take (length a) (a ++ b) = a.
Proof. induction a as [|x a IH]; simpl; [now destruct b | now rewrite IH]. Qed.

Lemma drop_append (a b : string) : drop (length a) (a ++ b) = b.
Proof. induction a as [|x a IH]; simpl; [reflexivity | exact IH]. Qed.

Lemma take_drop (n : nat) (s : string) : take n s ++ drop n s = s.
Proof.
  revert s; induction n as [|n IH]; intros [|c s]; simpl; try reflexivity.
  now rewrite IH.
Qed.

Lemma length_take (n : nat) (s : string) :
  n <= length s -> length (take n s) = n.
Proof.
  revert s; induction n as [|n IH]; intros [|c s] H; simpl in *; try lia.
  rewrite IH; lia.
Qed.

Lemma length_drop (n : nat) (s : string) : length (drop n s) = length s - n.
Proof.
  revert s; induction n as [|n IH]; intros [|c s]; simpl; try lia.
  apply IH.
Qed.

Lemma drop_drop (n m : nat) (s : string) : drop m (drop n s) = drop (n + m) s.
Proof.
  revert s; induction n as [|n IH]; intros s; simpl; [reflexivity|].
  destruct s as [|c s]; simpl; [now destruct m | apply IH].
Qed.

Lemma append_inv_length (a b c d : string) :
  a ++ b = c ++ d -> length a = length c -> a = c /\ b = d.
Proof.
  revert c; induction a as [|x a IH]; intros [|y c] H L; simpl in *;
    try discriminate; [now split|].
  injection H as -> H. destruct (IH c H) as [-> ->]; [lia | now split].
Qed.

Lemma prefix_iff (p s : string) :
  prefix p s = true <-> exists post, s = p ++ post.
Proof.
  revert s; induction p as [|a p IH]; intros s; simpl.
  - destruct s; split; eauto.
  - destruct s as [|b s]; simpl.
    + split; [discriminate | intros [post H]; discriminate].
    + destruct (ascii_dec a b) as [->|N].
      * rewrite IH. split; intros [post H]; exists post;
          [now rewrite H | now injection H].
      * split; [discriminate | intros [post H]; injection H; congruence].
Qed.

Lemma prefix_append (p post : string) : prefix p (p ++ post) = true.
Proof. apply prefix_iff; eauto. Qed.

(** [indexNat] finds the first occurrence. *)
Lemma indexNat_Some (s sub : string) (i : nat) :
  indexNat s sub = Some i -> first_at sub s (take i s) /\ i <= length s.
Proof.
  revert i; induction s as [|c s IH]; intros i; cbn [indexNat].
  - destruct (prefix sub "") eqn:P; [|intros ?; discriminate].
    intros [= <-]. apply prefix_iff in P as [post P]. split; [|lia].
    split; [exists post; exact P | simpl; lia].
  - destruct (prefix sub (String c s)) eqn:P.
    + intros [= <-]. apply prefix_iff in P as [post P]. split; [|lia].
      split; [exists post; exact P | simpl; lia].
    + destruct (indexNat s sub) as [j|] eqn:E; [|intros ?; discriminate].
      intros [= <-]. destruct (IH j eq_refl) as [[[post Hp] Hmin] Hl].
      split; [|simpl; lia]. split.
      * exists post. simpl. now rewrite <- Hp.
      * intros pre' post' H. destruct pre' as [|d pre'].
        -- simpl in H. rewrite H, prefix_append in P. discriminate.
        -- simpl in H. injection H as _ H. simpl.
           specialize (Hmin _ _ H). lia.
Qed.

Lemma indexNat_None (s sub : string) :
  indexNat s sub = None -> ~ occurs sub s.
Proof.
  induction s as [|c s IH]; cbn [indexNat].
  - destruct (prefix sub "") eqn:P; [intros ?; discriminate|]. intros _ [pre [post H]].
    destruct pre; simpl in H.
    + rewrite H, prefix_append in P. discriminate.
    + discriminate.
  - destruct (prefix sub (String c s)) eqn:P; [intros ?; discriminate|].
    destruct (indexNat s sub) eqn:E; [intros ?; discriminate|]. intros _ [pre [post H]].
    destruct pre as [|d pre]; simpl in H.
    + rewrite H, prefix_append in P. discriminate.
    + injection H as _ H. apply IH; [reflexivity | now exists pre, post].
Qed.

(** The first occurrence is unique. *)
Lemma first_at_unique (sub s p q : string) :
  first_at sub s p -> first_at sub s q -> p = q.
Proof.
  intros [[x Hx] Hp] [[y Hy] Hq].
  pose proof (Hp _ _ Hy). pose proof (Hq _ _ Hx).
  rewrite Hx in Hy. now apply append_inv_length in Hy as [? _]; [|lia].
Qed.

Lemma indexNat_first_at (s sub pre : string) :
  first_at sub s pre -> indexNat s sub = Some (length pre).
Proof.
  intros F. destruct (indexNat s sub) as [i|] eqn:E.
  - destruct (indexNat_Some _ _ _ E) as [F' L].
    rewrite <- (first_at_unique _ _ _ _ F' F), length_take; auto.
  - exfalso. apply (indexNat_None _ _ E). destruct F as [[post H] _].
    now exists pre, post.
Qed.

Lemma Contains_iff (b sub : string) : Contains b sub = true <-> occurs sub b.
Proof.
  unfold Contains, Index. destruct (indexNat b sub) as [i|] eqn:E.
  - split; [intros _ | intros _; apply negb_true_iff, Z.eqb_neq; lia].
    destruct (indexNat_Some _ _ _ E) as [[[post H] _] _]. now exists (take i b), post.
  - split; [discriminate | intros O; now apply indexNat_None in E].
Qed.

Lemma Join_cons (x : string) (l : list string) (sep : string) :
  l <> [] -> Join (x :: l) sep = x ++ sep ++ Join l sep.
Proof. destruct l; [congruence | reflexivity]. Qed.

Lemma genSplit_nonempty (fuel : nat) (s sep : string) : genSplit fuel s sep <> [].
Proof. destruct fuel; simpl; [|destruct (indexNat s sep)]; discriminate. Qed.

Lemma first_at_prefix_free (sub s pre : string) :
  sub <> "" -> first_at sub s pre -> ~ occurs sub pre.
Proof.
  intros N [[post H] Hmin] [a [b Hab]].
  assert (L : length pre <= length a).
  { apply (Hmin a (b ++ sub ++ post)).
    rewrite H, Hab, !append_assoc. reflexivity. }
  rewrite Hab, !length_append in L. destruct sub; [congruence | simpl in L; lia].
Qed.

Lemma occurs_length (sub s : string) : occurs sub s -> length sub <= length s.
Proof. intros [pre [post ->]]. rewrite !length_append. lia. Qed.

Lemma length_zero (s : string) : length s = 0 -> s = "".
Proof. destruct s; [reflexivity | discriminate]. Qed.

Lemma genSplit_is_split (sep : string) :
  sep <> "" ->
  forall fuel s, length s <= fuel -> is_split s sep (genSplit fuel s sep).
Proof.
  intros N. induction fuel as [|fuel IH]; intros s L; cbn [genSplit].
  - assert (s = "") as -> by (apply length_zero; lia).
    repeat split; [discriminate|]. constructor; [|constructor].
    intros O%occurs_length. apply N, length_zero. simpl in O. lia.
  - destruct (indexNat s sep) as [m|] eqn:E.
    + destruct (indexNat_Some _ _ _ E) as [F Lm].
      pose proof F as [[post Hpost] _].
      assert (D : drop (m + length sep) s = post).
      { rewrite <- drop_drop. rewrite Hpost at 1.
        rewrite <- (length_take m s Lm) at 1.
        now rewrite drop_append, drop_append. }
      rewrite D.
      assert (Lp : length post <= fuel).
      { rewrite Hpost, !length_append in L. destruct sep; [congruence|].
        simpl in L. lia. }
      destruct (IH post Lp) as [Hne [Hj Hf]].
      repeat split; [discriminate | | ].
      * rewrite Join_cons, Hj by exact Hne. now rewrite <- Hpost.
      * constructor; [now apply first_at_prefix_free with s | exact Hf].
    + repeat split; [discriminate|]. constructor; [|constructor].
      now apply indexNat_None.
Qed.

(** [strings.Split] splits. *)
Lemma Split_is_split (s sep : string) :
  sep <> "" -> is_split s sep (Split s sep).
Proof. intros N. now apply genSplit_is_split. Qed.

Lemma occurs_char_cons (c d : ascii) (s : string) :
  occurs (String c "") (String d s) <-> c = d \/ occurs (String c "") s.
Proof.
  split.
  - intros [[|e pre] [post H]]; simpl in H; injection H as -> H.
    + now left.
    + right. now exists pre, post.
  - intros [->|[pre [post ->]]].
    + now exists "", s.
    + now exists (String d pre), post.
Qed.

(** At a one-byte separator the splitting is unique. *)
Lemma is_split_unique (c : ascii) (s : string) (l1 l2 : list string) :
  is_split s (String c "") l1 -> is_split s (String c "") l2 -> l1 = l2.
Proof.
  revert l1 l2. induction s as [|d s IH]; intros l1 l2.
  - intros [N1 [J1 F1]] [N2 [J2 F2]].
    assert (K : forall l, l <> [] -> Join l (String c "") = "" -> l = [""]).
    { intros [|x [|y l]] Hn Hj; [congruence | simpl in Hj; now subst |].
      rewrite Join_cons in Hj by discriminate.
      apply (f_equal length) in Hj. rewrite !length_append in Hj.
      simpl in Hj. lia. }
    now rewrite (K l1), (K l2).
  - assert (K : forall l, is_split (String d s) (String c "") l ->
        (c = d /\ exists t, l = "" :: t /\ is_split s (String c "") t) \/
        (c <> d /\ exists x t, l = String d x :: t /\
                               is_split s (String c "") (x :: t))).
    { intros [|x t] [Hn [Hj Hf]]; [congruence|]. inversion Hf as [|? ? Hx Ht]; subst.
      destruct x as [|e x].
      - left. destruct t as [|y t]; [discriminate|].
        rewrite Join_cons in Hj by discriminate. simpl in Hj.
        injection Hj as -> Hj. split; [reflexivity|]. exists (y :: t).
        repeat split; [discriminate | exact Hj | exact Ht].
      - right. assert (e = d) as ->.
        { destruct t; simpl in Hj; now injection Hj. }
        assert (c <> d) by (intros ->; apply Hx; now exists "", x).
        split; [assumption|]. exists x, t. repeat split; [discriminate | |].
        + destruct t as [|y t]; [simpl in *; now injection Hj|].
          rewrite Join_cons in * by discriminate. simpl in Hj. now injection Hj.
        + constructor; [|exact Ht]. intros O. apply Hx.
          apply occurs_char_cons. now right. }
    intros S1 S2. destruct (K _ S1) as [[E1 [t1 [-> T1]]]|[E1 [x1 [t1 [-> T1]]]]];
      destruct (K _ S2) as [[E2 [t2 [-> T2]]]|[E2 [x2 [t2 [-> T2]]]]];
      try congruence.
    + now rewrite (IH _ _ T1 T2).
    + pose proof (IH _ _ T1 T2) as E. now injection E as -> ->.
Qed.

Lemma HasSuffix_iff (s suffix : string) :
  HasSuffix s suffix = true <-> exists t, s = t ++ suffix.
Proof.
  unfold HasSuffix. rewrite andb_true_iff, Nat.leb_le, String.eqb_eq. split.
  - intros [L D]. exists (take (length s - length suffix) s).
    rewrite <- D at 2. now rewrite take_drop.
  - intros [t ->]. rewrite length_append. split; [lia|].
    replace (length t + length suffix - length suffix) with (length t) by lia.
    apply drop_append.
Qed.

(** [strings.TrimSuffix s CR] removes one trailing carriage return. *)
Lemma TrimSuffix_strip_cr (line : string) : strip_cr line (TrimSuffix line CR).
Proof.
  unfold TrimSuffix, strip_cr. destruct (HasSuffix line CR) eqn:H.
  - left. apply HasSuffix_iff in H as [t ->]. rewrite length_append.
    replace (length t + length CR - length CR) with (length t) by lia.
    now rewrite take_append.
  - right. split; [reflexivity|]. intros t E.
    assert (HasSuffix line CR = true) by (apply HasSuffix_iff; eauto). congruence.
Qed.

Lemma strip_cr_unique (line a b : string) :
  strip_cr line a -> strip_cr line b -> a = b.
Proof.
  intros [Ha|[Ha Na]] [Hb|[Hb Nb]]; subst.
  - apply append_inv_length in Hb as [? _]; [assumption|].
    apply (f_equal length) in Hb. rewrite !length_append in Hb. lia.
  - now destruct (Nb a).
  - now destruct (Na b).
  - reflexivity.
Qed.

(** ** Single bytes *)

Lemma occurs_char_app (c : ascii) (a b : string) :
  occurs (String c "") (a ++ b)
  <-> occurs (String c "") a \/ occurs (String c "") b.
Proof.
  induction a as [|d a IH]; simpl.
  - split; [now right | intros [[[|e pre] [post H]]|H]; [discriminate.. | exact H]].
  - rewrite !occurs_char_cons, IH. tauto.
Qed.

Lemma occurs_nil (c : ascii) : ~ occurs (String c "") "".
Proof. intros [[|e pre] [post H]]; discriminate. Qed.

Lemma occurs_app_none (c : ascii) (a b : string) :
  ~ occurs (String c "") a -> ~ occurs (String c "") b ->
  ~ occurs (String c "") (a ++ b).
Proof. rewrite occurs_char_app. tauto. Qed.

Lemma occurs_char_In (c : ascii) (s : string) :
  occurs (String c "") s -> In c (list_ascii_of_string s).
Proof.
  induction s as [|d s IH]; intros O.
  - destruct O as [[|e pre] [post H]]; discriminate.
  - apply occurs_char_cons in O as [->|O]; simpl; auto.
Qed.

Lemma In_occurs_char (c : ascii) (s : string) :
  In c (list_ascii_of_string s) -> occurs (String c "") s.
Proof.
  induction s as [|d s IH]; simpl; [tauto|].
  intros H. apply occurs_char_cons. destruct H; auto.
Qed.

(** A check that decides that a byte does not occur. *)
Lemma Contains_false (sub s : string) : Contains s sub = false -> ~ occurs sub s.
Proof. intros H O%Contains_iff. congruence. Qed.

(** A line and its carriage return, trimmed. *)
Lemma TrimSuffix_CR (line : string) : TrimSuffix (line ++ CR) CR = line.
Proof.
  apply (strip_cr_unique (line ++ CR)); [apply TrimSuffix_strip_cr | now left].
Qed.

Lemma occurs_take (c : ascii) (n : nat) (s : string) :
  occurs (String c "") (take n s) -> occurs (String c "") s.
Proof.
  rewrite <- (take_drop n s) at 2. rewrite occurs_char_app. tauto.
Qed.

Lemma occurs_TrimSuffix (c : ascii) (s suffix : string) :
  occurs (String c "") (TrimSuffix s suffix) -> occurs (String c "") s.
Proof.
  unfold TrimSuffix. destruct (HasSuffix s suffix); [apply occurs_take | auto].
Qed.

(** A first occurrence found by computation. *)
Lemma first_at_computed (sub s pre : string) :
  indexNat s sub = Some (length pre) -> take (length pre) s = pre ->
  first_at sub s pre.
Proof. intros H T. rewrite <- T. apply (indexNat_Some _ _ _ H). Qed.

End StringFacts.

Module Base64Facts.
Import Base64.

(** The test vectors of RFC 4648, section 10. *)
Example rfc4648_f : EncodeToString "f" = "Zg==".
Proof. reflexivity. Qed.
Example rfc4648_fo : EncodeToString "fo" = "Zm8=".
Proof. reflexivity. Qed.
Example rfc4648_foo : EncodeToString "foo" = "Zm9v".
Proof. reflexivity. Qed.
Example rfc4648_foob : EncodeToString "foob" = "Zm9vYg==".
Proof. reflexivity. Qed.
Example rfc4648_fooba : EncodeToString "fooba" = "Zm9vYmE=".
Proof. reflexivity. Qed.
Example rfc4648_foobar : EncodeToString "foobar" = "Zm9vYmFy".
Proof. reflexivity. Qed.
Example encode_echo_hello : EncodeToString "echo hello" = "ZWNobyBoZWxsbw==".
Proof. reflexivity. Qed.


Open Scope N_scope.

Lemma testbit_63 (m : N) : N.testbit 63 m = (m <? 6).
Proof.
  change 63 with (N.ones 6). destruct (N.ltb_spec m 6).
  - now apply N.ones_spec_low.
  - now apply N.ones_spec_high.
Qed.

Lemma testbit_255 (m : N) : N.testbit 255 m = (m <? 8).
Proof.
  change 255 with (N.ones 8). destruct (N.ltb_spec m 8).
  - now apply N.ones_spec_low.
  - now apply N.ones_spec_high.
Qed.

Lemma testbit_small (x k m : N) : x < 2 ^ k -> k <= m -> N.testbit x m = false.
Proof.
  intros B H. rewrite <- (N.mod_small x (2 ^ k) B).
  now apply N.mod_pow2_bits_high.
Qed.

Lemma testbit_ascii (a : ascii) (m : N) : 8 <= m -> N.testbit (N_of_ascii a) m = false.
Proof. apply (testbit_small _ 8). apply N_ascii_bounded. Qed.


Lemma sextet_lt (val shift : N) : sextet val shift < 64.
Proof.
  unfold sextet. change 63 with (N.ones 6). rewrite N.land_ones.
  apply N.mod_lt. discriminate.
Qed.

Lemma quantum_sextets (val : N) :
  (forall m, 24 <= m -> N.testbit val m = false) ->
  quantum (sextet val 18) (sextet val 12) (sextet val 6) (sextet val 0) = val.
Proof.
  intros B. apply N.bits_inj. intros m. unfold quantum, sextet.
  rewrite !N.lor_spec, N.land_spec, N.shiftr_spec', testbit_63, N.add_0_r.
  destruct (N.ltb_spec m 6) as [H6|H6].
  { rewrite !N.shiftl_spec_low by lia. now rewrite andb_true_r. }
  rewrite andb_false_r, orb_false_r.
  destruct (N.ltb_spec m 12) as [H12|H12].
  { rewrite !(N.shiftl_spec_low _ 18), !(N.shiftl_spec_low _ 12) by lia.
    rewrite N.shiftl_spec_high', N.land_spec, N.shiftr_spec', testbit_63 by lia.
    replace (m - 6 + 6) with m by lia.
    destruct (N.ltb_spec (m - 6) 6); [now rewrite andb_true_r | lia]. }
  destruct (N.ltb_spec m 18) as [H18|H18].
  { rewrite !(N.shiftl_spec_low _ 18) by lia.
    rewrite !N.shiftl_spec_high', !N.land_spec, !N.shiftr_spec', !testbit_63 by lia.
    replace (m - 12 + 12) with m by lia. replace (m - 6 + 6) with m by lia.
    destruct (N.ltb_spec (m - 12) 6); [|lia].
    destruct (N.ltb_spec (m - 6) 6); [lia|].
    now rewrite andb_true_r, andb_false_r, orb_false_r. }
  rewrite !N.shiftl_spec_high', !N.land_spec, !N.shiftr_spec', !testbit_63 by lia.
  replace (m - 18 + 18) with m by lia. replace (m - 12 + 12) with m by lia.
  replace (m - 6 + 6) with m by lia.
  destruct (N.ltb_spec (m - 12) 6); [lia|].
  destruct (N.ltb_spec (m - 6) 6); [lia|].
  rewrite !andb_false_r, !orb_false_r.
  destruct (N.ltb_spec (m - 18) 6).
  - now rewrite andb_true_r.
  - rewrite andb_false_r. symmetry. apply B. lia.
Qed.


Lemma pack_high (a b c : ascii) (m : N) :
  24 <= m ->
  N.testbit (pack (N_of_ascii a) (N_of_ascii b) (N_of_ascii c)) m = false.
Proof.
  intros H. unfold pack.
  rewrite !N.lor_spec, !N.shiftl_spec_high', !testbit_ascii by lia.
  reflexivity.
Qed.

Lemma byte_16 (a b c : ascii) :
  byteOf (pack (N_of_ascii a) (N_of_ascii b) (N_of_ascii c)) 16 = a.
Proof.
  unfold byteOf. rewrite <- (ascii_N_embedding a) at 2. f_equal.
  apply N.bits_inj. intros m. unfold pack.
  rewrite N.land_spec, N.shiftr_spec', !N.lor_spec, testbit_255.
  rewrite !N.shiftl_spec_high' by lia.
  replace (m + 16 - 16) with m by lia.
  destruct (N.ltb_spec m 8).
  - rewrite (testbit_ascii b), (testbit_ascii c) by lia.
    now rewrite !orb_false_r, andb_true_r.
  - rewrite andb_false_r. symmetry. now apply testbit_ascii.
Qed.

Lemma byte_8 (a b c : ascii) :
  byteOf (pack (N_of_ascii a) (N_of_ascii b) (N_of_ascii c)) 8 = b.
Proof.
  unfold byteOf. rewrite <- (ascii_N_embedding b) at 2. f_equal.
  apply N.bits_inj. intros m. unfold pack.
  rewrite N.land_spec, N.shiftr_spec', !N.lor_spec, testbit_255.
  destruct (N.ltb_spec m 8).
  - rewrite (N.shiftl_spec_low _ 16), (N.shiftl_spec_high' _ 8),
      (testbit_ascii c) by lia.
    replace (m + 8 - 8) with m by lia.
    now rewrite orb_false_r, andb_true_r.
  - rewrite andb_false_r. symmetry. now apply testbit_ascii.
Qed.

Lemma byte_0 (a b c : ascii) :
  byteOf (pack (N_of_ascii a) (N_of_ascii b) (N_of_ascii c)) 0 = c.
Proof.
  unfold byteOf. rewrite <- (ascii_N_embedding c) at 2. f_equal.
  apply N.bits_inj. intros m. unfold pack.
  rewrite N.land_spec, N.shiftr_spec', !N.lor_spec, testbit_255, N.add_0_r.
  destruct (N.ltb_spec m 8).
  - rewrite !N.shiftl_spec_low by lia. now rewrite andb_true_r.
  - rewrite andb_false_r. symmetry. now apply testbit_ascii.
Qed.

Lemma below_64 (P : N -> Prop) :
  (forall k : nat, (k < 64)%nat -> P (N.of_nat k)) -> forall n, n < 64 -> P n.
Proof. intros H n L. rewrite <- (N2Nat.id n). apply H. lia. Qed.

Lemma decodeChar_encode (n : N) : n < 64 -> decodeChar (encode n) = Some n.
Proof.
  revert n. apply below_64. intros k H.
  do 64 (destruct k as [|k]; [reflexivity|]). lia.
Qed.

Lemma encode_not_pad (n : N) : n < 64 -> Ascii.eqb (encode n) padChar = false.
Proof.
  revert n. apply below_64. intros k H.
  do 64 (destruct k as [|k]; [reflexivity|]). lia.
Qed.

Lemma sextet_low_zero (val shift k : N) :
  (forall m, m < k -> N.testbit val m = false) ->
  shift + 6 <= k -> sextet val shift = 0.
Proof.
  intros Z H. apply N.bits_inj. intros m. unfold sextet.
  rewrite N.land_spec, N.shiftr_spec', testbit_63, N.bits_0.
  destruct (N.ltb_spec m 6); [|apply andb_false_r].
  rewrite Z by lia. reflexivity.
Qed.

Lemma pack_low_c (a b : ascii) (m : N) :
  m < 8 -> N.testbit (pack (N_of_ascii a) (N_of_ascii b) 0) m = false.
Proof.
  intros H. unfold pack. rewrite !N.lor_spec, !N.shiftl_spec_low by lia.
  reflexivity.
Qed.

Lemma pack_low_bc (a : ascii) (m : N) :
  m < 16 -> N.testbit (pack (N_of_ascii a) 0 0) m = false.
Proof.
  intros H. unfold pack.
  rewrite !N.lor_spec, N.shiftl_spec_low, N.shiftl_0_l by lia. reflexivity.
Qed.

Close Scope N_scope.

Lemma EncodeToString_1 (a : ascii) :
  EncodeToString (String a "")
  = let val := pack (N_of_ascii a) 0 0 in
    String (encode (sextet val 18)) (String (encode (sextet val 12))
      (String padChar (String padChar ""))).
Proof. unfold pack. cbn [EncodeToString]. rewrite N.shiftl_0_l, !N.lor_0_r. reflexivity. Qed.

Lemma EncodeToString_2 (a b : ascii) :
  EncodeToString (String a (String b ""))
  = let val := pack (N_of_ascii a) (N_of_ascii b) 0 in
    String (encode (sextet val 18)) (String (encode (sextet val 12))
      (String (encode (sextet val 6)) (String padChar ""))).
Proof. unfold pack. cbn [EncodeToString]. rewrite !N.lor_0_r. reflexivity. Qed.

Lemma EncodeToString_3 (a b c : ascii) (rest : string) :
  EncodeToString (String a (String b (String c rest)))
  = let val := pack (N_of_ascii a) (N_of_ascii b) (N_of_ascii c) in
    String (encode (sextet val 18)) (String (encode (sextet val 12))
      (String (encode (sextet val 6))
         (String (encode (sextet val 0)) (EncodeToString rest)))).
Proof. unfold pack, sextet. cbn [EncodeToString]. rewrite N.shiftr_0_r. reflexivity. Qed.

(** What [base64 -d] reads is the command: decoding undoes the encoding. *)
Theorem DecodeString_EncodeToString (src : string) :
  DecodeString (EncodeToString src) = Some src.
Proof.
  assert (H : forall n s, String.length s <= n ->
                DecodeString (EncodeToString s) = Some s).
  { induction n as [|n IH]; intros s L.
    - destruct s; [reflexivity | simpl in L; lia].
    - destruct s as [|a [|b [|c rest]]]; [reflexivity | | |].
      + rewrite EncodeToString_1. cbv zeta. cbn [DecodeString].
        rewrite !decodeChar_encode by apply sextet_lt.
        change (Ascii.eqb padChar padChar) with true. cbn [andb].
        pose proof (quantum_sextets (pack (N_of_ascii a) 0 0)) as Q.
        rewrite (sextet_low_zero _ 6 16), (sextet_low_zero _ 0 16) in Q;
          try lia; try apply pack_low_bc.
        rewrite Q.
        * change 0%N with (N_of_ascii zero) at 1 2.
          now rewrite byte_16.
        * intros m Hm. change 0%N with (N_of_ascii zero). now apply pack_high.
      + rewrite EncodeToString_2. cbv zeta. cbn [DecodeString].
        rewrite !decodeChar_encode by apply sextet_lt.
        rewrite encode_not_pad by apply sextet_lt. cbn [andb].
        change (Ascii.eqb padChar padChar) with true. cbn iota.
        pose proof (quantum_sextets (pack (N_of_ascii a) (N_of_ascii b) 0)) as Q.
        rewrite (sextet_low_zero _ 0 8) in Q; try lia; try apply pack_low_c.
        rewrite Q.
        * change 0%N with (N_of_ascii zero).
          now rewrite byte_16, byte_8.
        * intros m Hm. change 0%N with (N_of_ascii zero). now apply pack_high.
      + rewrite EncodeToString_3. cbv zeta. cbn [DecodeString].
        rewrite !decodeChar_encode by apply sextet_lt.
        rewrite !encode_not_pad by apply sextet_lt. cbn [andb]. cbn iota.
        rewrite IH by (simpl in L; lia).
        rewrite quantum_sextets by apply pack_high.
        now rewrite byte_16, byte_8, byte_0. }
  apply (H (String.length src)). lia.
Qed.

(** ** The characters of an encoding *)

Import GoStrings StringFacts.

Lemma get_In (s : string) (n : nat) (c : ascii) :
  String.get n s = Some c -> In c (list_ascii_of_string s).
Proof.
  revert n. induction s as [|d s IH]; intros [|n] H; simpl in *;
    try discriminate.
  - injection H as ->. now left.
  - right. now apply (IH n).
Qed.

(** Every value of [encode] is a character of the alphabet or the padding. *)
Lemma encode_alphabet (i : N) :
  In (encode i) (list_ascii_of_string encodeStd) \/ encode i = padChar.
Proof.
  unfold encode. destruct (String.get (N.to_nat i) encodeStd) as [c|] eqn:E.
  - left. exact (get_In _ _ _ E).
  - now right.
Qed.

Lemma EncodeToString_chars (src : string) :
  Forall (fun c => In c (list_ascii_of_string encodeStd) \/ c = padChar)
    (list_ascii_of_string (EncodeToString src)).
Proof.
  assert (H : forall n s, String.length s <= n ->
            Forall (fun c => In c (list_ascii_of_string encodeStd) \/ c = padChar)
              (list_ascii_of_string (EncodeToString s))).
  { induction n as [|n IH]; intros s L.
    - destruct s; [constructor | simpl in L; lia].
    - destruct s as [|a [|b [|c rest]]]; cbn [EncodeToString list_ascii_of_string];
        repeat (constructor; [try apply encode_alphabet; now right|]);
        [constructor.. | apply IH; simpl in L; lia]. }
  exact (H (String.length src) src (le_n _)).
Qed.

Lemma EncodeToString_length (src : string) :
  String.length (EncodeToString src) = 4 * ((String.length src + 2) / 3).
Proof.
  assert (H : forall n s, String.length s <= n ->
            String.length (EncodeToString s) = 4 * ((String.length s + 2) / 3)).
  { induction n as [|n IH]; intros s L.
    - destruct s; [reflexivity | simpl in L; lia].
    - destruct s as [|a [|b [|c rest]]]; try reflexivity.
      cbn [EncodeToString String.length]. rewrite IH by (simpl in L; lia).
      replace (S (S (S (String.length rest))) + 2)
        with (String.length rest + 2 + 1 * 3) by lia.
      rewrite Nat.div_add by discriminate. lia. }
  exact (H (String.length src) src (le_n _)).
Qed.

(** A byte outside the alphabet, other than the padding, does not occur in
    an encoding. *)
Lemma EncodeToString_without (src : string) (c : ascii) :
  Contains encodeStd (String c "") = false -> c <> padChar ->
  ~ occurs (String c "") (EncodeToString src).
Proof.
  intros N1 N2 O%occurs_char_In.
  pose proof (EncodeToString_chars src) as F. rewrite Forall_forall in F.
  destruct (F c O) as [I|E]; [|contradiction].
  now apply (Contains_false _ _ N1), In_occurs_char.
Qed.

(** X1.  The shape of the encoding: four characters for every three bytes
    begun, each one of the alphabet or the padding; hence no quote, no space
    and no line end, whatever the command. *)
Theorem EncodeToString_alphabet (src : string) :
  String.length (EncodeToString src) = 4 * ((String.length src + 2) / 3)
  /\ Forall (fun c => In c (list_ascii_of_string encodeStd) \/ c = padChar)
       (list_ascii_of_string (EncodeToString src))
  /\ ~ occurs "'" (EncodeToString src)
  /\ ~ occurs LF (EncodeToString src)
  /\ ~ occurs " " (EncodeToString src).
Proof.
  split; [apply EncodeToString_length|]. split; [apply EncodeToString_chars|].
  split; [|split]; apply EncodeToString_without; (reflexivity || discriminate).
Qed.

(** X2.  Two commands with one encoding are one command. *)
Theorem EncodeToString_injective (a b : string) :
  EncodeToString a = EncodeToString b <-> a = b.
Proof.
  split; [|now intros ->]. intros H.
  pose proof (DecodeString_EncodeToString a) as Ha.
  rewrite H, DecodeString_EncodeToString in Ha. now injection Ha.
Qed.

End Base64Facts.

(** * The session engine *)

Module ShellFacts.
Import GoStrings StringFacts Shell.

(** Compute the assignments to the fields of a shell given by its fields. *)
Ltac shell_fields :=
  cbn [set_state set_cmd set_ptyFile set_outputBuffer set_lastOutput
       set_commandDone set_currentCommand set_startMarker set_endMarker
       state cmd ptyFile outputBuffer killGracePeriod shellCommand
       workingDirectory lastOutput commandDone currentCommand startMarker
       endMarker] in *.

Lemma State_eqb_eq (a b : State) : State_eqb a b = true <-> a = b.
Proof. destruct a, b; simpl; split; congruence. Qed.

Lemma cleanLoop_filter (lines acc : list string) :
  cleanLoop lines acc =
  (acc ++ filter (fun line => negb (line =? ""))
            (map (fun line => TrimSuffix line CR) lines))%list.
Proof.
  revert acc. induction lines as [|line rest IH]; intros acc; simpl.
  - now rewrite app_nil_r.
  - destruct (TrimSuffix line CR =? "") eqn:E; simpl; rewrite IH.
    + reflexivity.
    + now rewrite <- app_assoc.
Qed.

Lemma Index_Some (s sub : string) (i : nat) :
  indexNat s sub = Some i -> Index s sub = Z.of_nat i /\ (Index s sub =? -1)%Z = false.
Proof. unfold Index. intros ->. split; [reflexivity | apply Z.eqb_neq; lia]. Qed.

Lemma LF_nonempty : LF <> "".
Proof. discriminate. Qed.

(** Two extractions of one buffer agree. *)
Lemma extract_deterministic (buffer sm em o1 o2 : string) :
  Spec.extract buffer sm em o1 -> Spec.extract buffer sm em o2 -> o1 = o2.
Proof.
  intros H1 H2.
  destruct H1 as [N1|p1 r1 F1 E1 N1|p1 m1 q1 l1 t1 F1 E1 G1 S1 T1];
    destruct H2 as [N2|p2 r2 F2 E2 N2|p2 m2 q2 l2 t2 F2 E2 G2 S2 T2];
    try reflexivity.
  - destruct N1. now exists p2, (m2 ++ em ++ q2).
  - assert (p1 = p2) as -> by exact (first_at_unique _ _ _ _ F1 F2).
    rewrite E1 in E2. apply append_inv_length in E2 as [_ E2]; [|reflexivity].
    apply append_inv_length in E2 as [_ E2]; [|reflexivity].
    destruct N1. now exists m2, q2.
  - destruct N2. now exists p1, (m1 ++ em ++ q1).
  - assert (p1 = p2) as -> by exact (first_at_unique _ _ _ _ F1 F2).
    rewrite E1 in E2. apply append_inv_length in E2 as [_ E2]; [|reflexivity].
    apply append_inv_length in E2 as [_ E2]; [|reflexivity].
    destruct N2. now exists m1, q1.
  - assert (p1 = p2) as -> by exact (first_at_unique _ _ _ _ F1 F2).
    rewrite E1 in E2. apply append_inv_length in E2 as [_ E2]; [|reflexivity].
    apply append_inv_length in E2 as [_ E2]; [|reflexivity].
    rewrite E2 in G1.
    assert (m1 = m2) as -> by exact (first_at_unique _ _ _ _ G1 G2).
    assert (l1 = l2) as -> by exact (is_split_unique _ _ _ _ S1 S2).
    assert (t1 = t2) as ->; [|reflexivity].
    clear - T1 T2. revert t2 T2.
    induction T1 as [|x y l t Hxy _ IH]; intros t2 T2; inversion T2; subst.
    + reflexivity.
    + f_equal; [eapply strip_cr_unique; eassumption | now apply IH].
Qed.

(** C2.  For every accumulated buffer, start marker and end marker,
    [extractOutput] returns what the specification's output extraction
    describes: the empty string when the buffer has no occurrence of the
    start marker followed by CRLF, or no occurrence of the end marker after
    it; otherwise the text strictly between the first occurrence of the
    start marker with its CRLF and the next occurrence of the end marker,
    split on LF, one trailing CR stripped from each line, the empty lines
    dropped, rejoined with LF.  [extract_deterministic] shows that this
    describes one string. *)
Theorem extractOutput_extract (shell : Shell.Shell) (command : string) :
  Spec.extract (outputBuffer shell) (startMarker shell) (endMarker shell)
    (extractOutput shell command).
Proof.
  unfold extractOutput.
  destruct (indexNat (outputBuffer shell) (startMarker shell ++ CRLF))
    as [i|] eqn:Ei.
  - destruct (Index_Some _ _ _ Ei) as [-> ->].
    destruct (indexNat_Some _ _ _ Ei) as [F Li].
    pose proof F as [[rest Hrest] _].
    replace (Z.to_nat (Z.of_nat i + Z.of_nat (length (startMarker shell ++ CRLF))))
      with (i + length (startMarker shell ++ CRLF)) by lia.
    assert (D : drop (i + length (startMarker shell ++ CRLF)) (outputBuffer shell)
                = rest).
    { rewrite <- drop_drop. rewrite Hrest at 1.
      rewrite <- (length_take i _ Li) at 1.
      now rewrite drop_append, drop_append. }
    rewrite D.
    destruct (indexNat rest (endMarker shell)) as [j|] eqn:Ej.
    + destruct (Index_Some _ _ _ Ej) as [-> ->].
      destruct (indexNat_Some _ _ _ Ej) as [G Lj].
      pose proof G as [[post Hpost] _].
      rewrite Nat2Z.id, cleanLoop_filter. simpl app.
      apply Spec.extract_between
        with (pre := take i (outputBuffer shell)) (mid := take j rest)
             (post := post) (lines := Split (take j rest) LF).
      * exact F.
      * rewrite <- Hpost. exact Hrest.
      * now rewrite <- Hpost.
      * apply Split_is_split, LF_nonempty.
      * induction (Split (take j rest) LF); simpl; constructor;
          [apply TrimSuffix_strip_cr | assumption].
    + unfold Index. rewrite Ej. simpl.
      apply Spec.extract_no_end with (pre := take i (outputBuffer shell)) (rest := rest).
      * exact F.
      * exact Hrest.
      * now apply indexNat_None.
  - unfold Index. rewrite Ei. simpl. apply Spec.extract_no_start.
    now apply indexNat_None.
Qed.

(** The buffer of the pseudo-terminal after [echo hello]: the echoed command
    line, then the output between the markers. *)
Example extractOutput_echo_hello :
  extractOutput
    (mkShell StateExecuting (Some 7) (Some 3)
       ("echo '<<<SHELLD_START_1>>>';eval ...;echo;echo '<<<SHELLD_END_1>>>'"
        ++ CRLF ++ "<<<SHELLD_START_1>>>" ++ CRLF ++ "hello" ++ CRLF ++ CRLF
        ++ "<<<SHELLD_END_1>>>" ++ CRLF)
       5 "/bin/bash" "" "" (Some 0) "echo hello"
       "<<<SHELLD_START_1>>>" "<<<SHELLD_END_1>>>")
    "echo hello" = "hello".
Proof. reflexivity. Qed.

(** Output without a final newline: the bare [echo] of the wrapping supplies
    the line end, and the result has no newline. *)
Example extractOutput_printf :
  extractOutput
    (mkShell StateExecuting (Some 7) (Some 3)
       ("<<<SHELLD_START_1>>>" ++ CRLF ++ "no_newline" ++ CRLF
        ++ "<<<SHELLD_END_1>>>" ++ CRLF)
       5 "/bin/bash" "" "" (Some 0) "printf 'no_newline'"
       "<<<SHELLD_START_1>>>" "<<<SHELLD_END_1>>>")
    "printf 'no_newline'" = "no_newline".
Proof. reflexivity. Qed.

Example extractOutput_lines :
  extractOutput
    (mkShell StateExecuting (Some 7) (Some 3)
       ("<<<SHELLD_START_1>>>" ++ CRLF ++ "line1" ++ CRLF ++ CRLF ++ "line2"
        ++ CR ++ CRLF ++ "<<<SHELLD_END_1>>>" ++ CRLF)
       5 "/bin/bash" "" "" (Some 0) ""
       "<<<SHELLD_START_1>>>" "<<<SHELLD_END_1>>>")
    "" = "line1" ++ LF ++ "line2" ++ CR.
Proof. reflexivity. Qed.

Example extractOutput_no_end_marker :
  extractOutput
    (mkShell StateExecuting (Some 7) (Some 3)
       ("<<<SHELLD_START_1>>>" ++ CRLF ++ "hello" ++ CRLF)
       5 "/bin/bash" "" "" (Some 0) ""
       "<<<SHELLD_START_1>>>" "<<<SHELLD_END_1>>>")
    "" = "".
Proof. reflexivity. Qed.

(** The two markers of one command differ, whatever the clock reads. *)
Lemma markers_distinct (markerID : Z) :
  "<<<SHELLD_START_" ++ itoa markerID ++ ">>>"
  <> "<<<SHELLD_END_" ++ itoa markerID ++ ">>>".
Proof. simpl. intros H. discriminate H. Qed.

(** C3.  For every command that [Execute] accepts (the state is [locked]),
    the call makes exactly one write to the pseudo-terminal master, and the
    bytes written are
    [echo '<startMarker>';eval "$(echo '<b64(command)>'|base64 -d)";echo;echo '<endMarker>']
    followed by a newline, where [b64] is the standard base64 encoding of
    the command and the two generated markers are distinct strings. *)
Theorem Execute_writes_wrapped_command (shell : Shell.Shell)
    (command : string) (timeout now : Z) (done : chan) (werr : option string) :
  state shell = StateLocked ->
  exists shell' next,
    Execute_begin command timeout now done werr shell
    = (shell', next,
       [EvPtyWrite (ptyFile shell)
          ("echo '" ++ startMarker shell' ++ "';eval " ++ dquote ++ "$(echo '"
           ++ Base64.EncodeToString command ++ "'|base64 -d)" ++ dquote
           ++ ";echo;echo '" ++ endMarker shell' ++ "'" ++ LF)])
    /\ startMarker shell' = "<<<SHELLD_START_" ++ itoa now ++ ">>>"
    /\ endMarker shell' = "<<<SHELLD_END_" ++ itoa now ++ ">>>"
    /\ startMarker shell' <> endMarker shell'.
Proof.
  intros L. destruct shell as [st c p b g sc wd lo cd cc sm em].
  cbn [state] in L. subst st.
  destruct (Execute_begin command timeout now done werr _)
    as [[shell' next] ev] eqn:E.
  exists shell', next. unfold Execute_begin in E.
  cbn [State_eqb negb state] in E. cbv zeta in E. shell_fields.
  destruct p as [fd|]; [destruct werr as [cause|]|];
    injection E as <- <- <-; shell_fields;
    (split; [reflexivity|]); (split; [reflexivity|]); (split; [reflexivity|]);
    apply markers_distinct.
Qed.

(** A command accepted in a locked shell, at clock reading 1. *)
Lemma Execute_writes_wrapped_command_witness :
  exists shell' next,
    Execute_begin "echo hello" 100 1 0 None
      (mkShell StateLocked (Some 7) (Some 3) "" 5 "/bin/bash" "" "" None "" "" "")
    = (shell', next,
       [EvPtyWrite (Some 3)
          ("echo '" ++ startMarker shell' ++ "';eval " ++ dquote ++ "$(echo '"
           ++ Base64.EncodeToString "echo hello" ++ "'|base64 -d)" ++ dquote
           ++ ";echo;echo '" ++ endMarker shell' ++ "'" ++ LF)])
    /\ startMarker shell' = "<<<SHELLD_START_" ++ itoa 1 ++ ">>>"
    /\ endMarker shell' = "<<<SHELLD_END_" ++ itoa 1 ++ ">>>"
    /\ startMarker shell' <> endMarker shell'.
Proof.
  exact (Execute_writes_wrapped_command
           (mkShell StateLocked (Some 7) (Some 3) "" 5 "/bin/bash" "" "" None
              "" "" "")
           "echo hello" 100 1 0 None eq_refl).
Defined.

(** ** The line written to the shell *)

(** The decimal digits of a number hold no line end. *)
Lemma string_of_uint_chars (d : Decimal.uint) (c : ascii) :
  In c (list_ascii_of_string (NilEmpty.string_of_uint d)) ->
  In c (list_ascii_of_string "0123456789").
Proof.
  induction d; cbn [NilEmpty.string_of_uint list_ascii_of_string In];
    intros H; [destruct H | destruct H as [<-|H]; [simpl; tauto | now apply IHd] ..].
Qed.

Lemma itoa_chars (n : Z) (c : ascii) :
  In c (list_ascii_of_string (itoa n)) ->
  In c (list_ascii_of_string "-0123456789").
Proof.
  assert (U : forall d, In c (list_ascii_of_string (NilZero.string_of_uint d)) ->
                        In c (list_ascii_of_string "0123456789")).
  { intros d. destruct d; cbn [NilZero.string_of_uint];
      [simpl; tauto | exact (string_of_uint_chars _ c) ..]. }
  unfold itoa. destruct (Z.to_int n) as [d|d]; cbn [NilZero.string_of_int].
  - intros H. right. exact (U _ H).
  - cbn [list_ascii_of_string In]. intros [<-|H]; [now left | right; exact (U _ H)].
Qed.

Lemma itoa_without (c : ascii) (n : Z) :
  Contains "-0123456789" (String c "") = false -> ~ occurs (String c "") (itoa n).
Proof.
  intros N O%occurs_char_In. apply (Contains_false _ _ N), In_occurs_char.
  exact (itoa_chars n c O).
Qed.

(** A byte does not occur in a text put together from pieces. *)
Ltac without_byte :=
  lazymatch goal with
  | |- ~ occurs _ (?a ++ ?b) =>
      apply (occurs_app_none _ a b); [without_byte | without_byte]
  | |- ~ occurs _ (itoa _) => apply itoa_without; reflexivity
  | |- ~ occurs _ (Base64.EncodeToString _) =>
      apply Base64Facts.EncodeToString_without; [reflexivity | discriminate]
  | |- _ => apply Contains_false; reflexivity
  end.

(** The line: the bytes of [wrappedCmd] without the last one. *)
Lemma wrappedCmd_line (startMarker encodedCmd endMarker : string) :
  wrappedCmd startMarker encodedCmd endMarker
  = ("echo '" ++ startMarker ++ "';eval " ++ dquote ++ "$(echo '" ++ encodedCmd
     ++ "'|base64 -d)" ++ dquote ++ ";echo;echo '" ++ endMarker ++ "'") ++ LF.
Proof. unfold wrappedCmd. now rewrite !append_assoc. Qed.

(** X3.  The bytes [Execute] writes are one line: the only line end is the
    last byte, whatever the command holds. *)
Theorem Execute_writes_one_line (shell : Shell.Shell) (command : string)
    (timeout now : Z) (done : chan) (werr : option string) :
  state shell = StateLocked ->
  exists line,
    snd (Execute_begin command timeout now done werr shell)
    = [EvPtyWrite (ptyFile shell) (line ++ LF)]
    /\ ~ occurs LF line /\ ~ occurs CR line.
Proof.
  intros L. destruct shell as [st c p b g sc wd lo cd cc sm em].
  cbn [state] in L. subst st.
  eexists. split.
  - unfold Execute_begin. cbn [State_eqb negb state]. cbv zeta. shell_fields.
    rewrite wrappedCmd_line.
    destruct p as [fd|]; [destruct werr as [cause|]|]; reflexivity.
  - split; without_byte.
Qed.

(** A here-document: three lines of command, one line written. *)
Lemma Execute_writes_one_line_witness :
  exists line,
    snd (Execute_begin ("cat <<EOF" ++ LF ++ "hi" ++ LF ++ "EOF") 100 1 0 None
           (mkShell StateLocked (Some 7) (Some 3) "" 5 "/bin/bash" "" "" None
              "" "" ""))
    = [EvPtyWrite (Some 3) (line ++ LF)]
    /\ ~ occurs LF line /\ ~ occurs CR line.
Proof.
  exact (Execute_writes_one_line
           (mkShell StateLocked (Some 7) (Some 3) "" 5 "/bin/bash" "" "" None
              "" "" "")
           ("cat <<EOF" ++ LF ++ "hi" ++ LF ++ "EOF") 100 1 0 None eq_refl).
Defined.

End ShellFacts.


(** * The engine with its goroutines *)

Module EngineFacts.
Import GoStrings StringFacts Shell ShellFacts Engine.

(** Compute the fields of a world given by its fields. *)
Ltac fields :=
  cbn [set_shell shell chans waiters readers
       set_state set_cmd set_ptyFile set_outputBuffer set_lastOutput
       set_commandDone set_currentCommand set_startMarker set_endMarker
       state cmd ptyFile outputBuffer killGracePeriod shellCommand
       workingDirectory lastOutput commandDone currentCommand startMarker
       endMarker fst snd] in *.

(** Replace a world by its fields. *)
Ltac open_world w :=
  destruct w as [[?st ?c ?p ?b ?g ?sc ?wd ?lo ?cd ?cc ?sm ?em] ?cs ?ws ?rs];
  fields.

Lemma joinAll_app (a b : list string) :
  joinAll (a ++ b) = joinAll a ++ joinAll b.
Proof.
  induction a as [|x a IH]; simpl; [reflexivity|].
  now rewrite IH, append_assoc.
Qed.

Lemma nth_error_snoc {A : Type} (l : list A) (x : A) :
  nth_error (l ++ [x]) (List.length l) = Some x.
Proof. induction l; simpl; auto. Qed.

Lemma nth_error_update {A : Type} (n : nat) (v x : A) (l : list A) :
  nth_error l n = Some x -> nth_error (update n v l) n = Some v.
Proof.
  revert l. induction n as [|n IH]; intros [|y l] H; simpl in *;
    try discriminate; auto.
Qed.

Lemma is_waiter_snoc (l : list chan) (c : chan) : is_waiter c (l ++ [c]) = true.
Proof.
  unfold is_waiter. rewrite existsb_app. simpl.
  now rewrite Nat.eqb_refl, orb_true_r.
Qed.

Lemma final_app (a b : list Op) (w : World) :
  final (a ++ b) w
  = match final a w with
    | Some w' => final b w'
    | None => None
    end.
Proof.
  revert w. induction a as [|op a IH]; intros w; simpl; [reflexivity|].
  destruct (step op w) as [[[w' ?] ?]|]; [apply IH | reflexivity].
Qed.

Lemma firstn_within {A : Type} (k : nat) (l1 l2 : list A) :
  k <= List.length l1 -> firstn k (l1 ++ l2) = firstn k l1.
Proof.
  intros H. rewrite firstn_app. replace (k - List.length l1) with 0 by lia.
  simpl. apply app_nil_r.
Qed.

(** What the first critical section of a reader's turn does: nothing to
    the shell; the reader goes on to read, or sends [ErrClosed]. *)
Lemma reader_begin (reader : nat) (w w' : World) (r : Ret) (ev : list Event) :
  step (OpReadBegin reader) w = Some (w', r, ev) ->
  shell w' = shell w /\ waiters w' = waiters w /\ ev = []
  /\ ((ptyFile (shell w) <> None /\ r = RetReader None)
      \/ (ptyFile (shell w) = None /\ r = RetReader (Some (Some ErrClosed)))).
Proof.
  cbn [step]. destruct (nth_error (readers w) reader) as [[[m [|]]|]|];
    try discriminate.
  unfold readUntilMarker_begin. destruct (ptyFile (shell w)) eqn:P;
    intros [= <- <- <-]; repeat split; auto.
  left. split; [discriminate | reflexivity].
Qed.

(** What the rest of a turn does to the shell: nothing, when the reader
    sends an error; it appends the bytes read; or it appends them, fills the
    last-output slot and sets the state to [locked], when the buffer then
    contains the end marker sequence. *)
Lemma readUntilMarker_cases (m : string) (res : ReadResult) (sh sh' : Shell.Shell)
    (v : option (option error)) :
  readUntilMarker_read m res sh = (sh', v)
  \/ readUntilMarker_turn m res sh = (sh', v) ->
  (sh' = sh /\ exists e, v = Some (Some e))
  \/ (exists data,
        res = ReadBytes data /\ v = None
        /\ sh' = set_outputBuffer (outputBuffer sh ++ data) sh)
  \/ (exists data out,
        res = ReadBytes data /\ v = Some None
        /\ sh' = set_state StateLocked
                   (set_lastOutput out
                      (set_outputBuffer (outputBuffer sh ++ data) sh))).
Proof.
  assert (R : readUntilMarker_read m res sh = (sh', v) ->
              (sh' = sh /\ exists e, v = Some (Some e))
              \/ (exists data,
                    res = ReadBytes data /\ v = None
                    /\ sh' = set_outputBuffer (outputBuffer sh ++ data) sh)
              \/ (exists data out,
                    res = ReadBytes data /\ v = Some None
                    /\ sh' = set_state StateLocked
                               (set_lastOutput out
                                  (set_outputBuffer (outputBuffer sh ++ data) sh)))).
  { unfold readUntilMarker_read.
    destruct res as [data| |cause];
      [|intros [= <- <-]; left; split; [reflexivity | eexists; reflexivity] ..].
    cbv zeta. destruct (Contains _ _); intros [= <- <-]; right;
      [right; exists data; eexists | left; exists data]; repeat split. }
  intros [H|H]; [now apply R|]. unfold readUntilMarker_turn in H.
  destruct (readUntilMarker_begin sh); [|now apply R].
  injection H as <- <-. left. split; [reflexivity | eexists; reflexivity].
Qed.

Lemma reader_turn (reader : nat) (res : ReadResult) (w w' : World) (r : Ret)
    (ev : list Event) :
  step (OpRead reader res) w = Some (w', r, ev) ->
  exists v,
    r = RetReader v /\ waiters w' = waiters w /\ ev = []
    /\ ((shell w' = shell w /\ exists e, v = Some (Some e))
        \/ (exists data,
              res = ReadBytes data /\ v = None
              /\ shell w'
                 = set_outputBuffer (outputBuffer (shell w) ++ data) (shell w))
        \/ (exists data out,
              res = ReadBytes data /\ v = Some None
              /\ shell w'
                 = set_state StateLocked
                     (set_lastOutput out
                        (set_outputBuffer (outputBuffer (shell w) ++ data)
                           (shell w))))).
Proof.
  cbn [step]. intros H.
  destruct (nth_error (readers w) reader) as [[[m [|]]|]|];
    try discriminate.
  - destruct (readUntilMarker_read m res (shell w)) as [sh v] eqn:E.
    exists v. apply (fun H => readUntilMarker_cases _ _ _ _ _ (or_introl H)) in E.
    destruct v; injection H as <- <- <-; repeat split; exact E.
  - destruct (readUntilMarker_turn m res (shell w)) as [sh v] eqn:E.
    exists v. apply (fun H => readUntilMarker_cases _ _ _ _ _ (or_intror H)) in E.
    destruct w as [s0 c0 w0 r0]; cbn [shell set_shell waiters] in *.
    destruct v; injection H as <- <- <-; repeat split; exact E.
Qed.
(** An accepted call of [Execute] whose write succeeds: the shell it leaves,
    the channel, the waiter and the reader it adds. *)
Lemma step_Execute_accepted (w : World) (command : string) (timeout now : Z) :
  state (shell w) = StateLocked ->
  ptyFile (shell w) <> None ->
  step (OpExecute command timeout now None) w
  = Some (mkWorld
            (mkShell StateExecuting (cmd (shell w)) (ptyFile (shell w)) ""
               (killGracePeriod (shell w)) (shellCommand (shell w))
               (workingDirectory (shell w)) "" (Some (List.length (chans w)))
               command ("<<<SHELLD_START_" ++ itoa now ++ ">>>")
               ("<<<SHELLD_END_" ++ itoa now ++ ">>>"))
            (chans w ++ [None]) (waiters w ++ [List.length (chans w)])
            (readers w
             ++ [Some (LF ++ ("<<<SHELLD_END_" ++ itoa now ++ ">>>") ++ CRLF,
                       false)]),
          RetWaiting (List.length (chans w)),
          [EvPtyWrite (ptyFile (shell w))
             (wrappedCmd ("<<<SHELLD_START_" ++ itoa now ++ ">>>")
                (Base64.EncodeToString command)
                ("<<<SHELLD_END_" ++ itoa now ++ ">>>"))]).
Proof.
  intros L P. open_world w. subst st.
  destruct p as [fd|]; [|congruence].
  unfold step, Execute_begin. fields. cbn [State_eqb negb]. cbv zeta. fields.
  reflexivity.
Qed.

(** While the buffer does not contain the end marker sequence, the turns of
    the reader only append what they read. *)
Lemma reads_accumulate (r : nat) (m : string) (datas : list string) :
  forall w : World,
    nth_error (readers w) r = Some (Some (m, false)) ->
    ptyFile (shell w) <> None ->
    (forall k, k <= List.length datas ->
       Contains (outputBuffer (shell w) ++ joinAll (firstn k datas)) m = false) ->
    final (reads r datas) w
    = Some (set_shell
              (set_outputBuffer (outputBuffer (shell w) ++ joinAll datas)
                 (shell w)) w).
Proof.
  induction datas as [|data rest IH]; intros w R P H.
  - open_world w. simpl. now rewrite append_nil_r.
  - pose proof (H 1 ltac:(simpl; lia)) as H1.
    cbn [firstn joinAll fold_right] in H1. rewrite append_nil_r in H1.
    assert (H' : forall k, k <= List.length rest ->
              Contains ((outputBuffer (shell w) ++ data) ++ joinAll (firstn k rest)) m
              = false).
    { intros k Hk. rewrite append_assoc. exact (H (S k) ltac:(simpl; lia)). }
    clear H. open_world w. destruct p as [fd|]; [|congruence].
    cbn [reads map final step]. fields. rewrite R.
    unfold readUntilMarker_turn, readUntilMarker_begin, readUntilMarker_read.
    fields. cbv zeta. fields. rewrite H1.
    fold (reads r rest). rewrite IH; fields.
    + cbn [joinAll fold_right]. now rewrite append_assoc.
    + exact R.
    + discriminate.
    + exact H'.
Qed.

(** C1.  A call of [Execute] is accepted and waits; its reader reads the
    chunks [pre] without the buffer containing the end marker sequence (it
    has not signalled completion), and the deadline elapses.  Then the call
    returns [ErrTimeout] at once and the state is still [executing]; while
    the reader reads the chunks [post] the state stays [executing] and the
    buffer accumulates them; and when a last chunk makes the buffer contain
    LF, end marker, CRLF, the reader sets the state to [locked] and stores
    the output extracted from the buffer in the last-output slot, which a
    later [Output] returns. *)
Theorem timeout_then_late_completion (w : World) (command : string)
    (timeout now : Z) (pre post : list string) (last : string) :
  let done := List.length (chans w) in
  let r := List.length (readers w) in
  let startM := "<<<SHELLD_START_" ++ itoa now ++ ">>>" in
  let endM := "<<<SHELLD_END_" ++ itoa now ++ ">>>" in
  state (shell w) = StateLocked ->
  ptyFile (shell w) <> None ->
  (forall k, k <= List.length (pre ++ post) ->
     Contains (joinAll (firstn k (pre ++ post))) (LF ++ endM ++ CRLF) = false) ->
  Contains (joinAll (pre ++ post ++ [last])) (LF ++ endM ++ CRLF) = true ->
  exists w1 w2 w3,
    final (OpExecute command timeout now None :: reads r pre) w = Some w1
    /\ nth_error (chans w1) done = Some None
    /\ step (OpTimeout done) w1 = Some (w2, RetExecute "" (Some ErrTimeout), [])
    /\ state (shell w2) = StateExecuting
    /\ (forall k, k <= List.length post ->
          exists wk,
            final (reads r (firstn k post)) w2 = Some wk
            /\ state (shell wk) = StateExecuting
            /\ outputBuffer (shell wk) = joinAll (pre ++ firstn k post))
    /\ final (reads r (post ++ [last])) w2 = Some w3
    /\ state (shell w3) = StateLocked
    /\ outputBuffer (shell w3) = joinAll (pre ++ post ++ [last])
    /\ startMarker (shell w3) = startM
    /\ endMarker (shell w3) = endM
    /\ lastOutput (shell w3) = extractOutput (shell w3) command
    /\ nth_error (chans w3) done = Some (Some None)
    /\ step OpOutput w3
       = Some (w3, RetOutput (extractOutput (shell w3) command), []).
Proof.
  intros done r startM endM L P Hno Hyes.
  pose proof (step_Execute_accepted w command timeout now L P) as E.
  fold done startM endM in E.
  open_world w. subst st. destruct p as [fd|]; [clear P | congruence].
  set (m := LF ++ endM ++ CRLF) in *.
  set (sh := fun buffer =>
               mkShell StateExecuting c (Some fd) buffer g sc wd "" (Some done)
                 command startM endM).
  set (W := fun buffer ws' =>
              mkWorld (sh buffer) (cs ++ [None]) ws' (rs ++ [Some (m, false)])).
  assert (A : forall buffer ws' datas,
             (forall k, k <= List.length datas ->
                Contains (buffer ++ joinAll (firstn k datas)) m = false) ->
             final (reads r datas) (W buffer ws')
             = Some (W (buffer ++ joinAll datas) ws')).
  { intros buffer ws' datas H.
    rewrite (reads_accumulate r m datas (W buffer ws')).
    - reflexivity.
    - apply nth_error_snoc.
    - discriminate.
    - exact H. }
  assert (Hpost : forall k, k <= List.length post ->
            Contains (joinAll pre ++ joinAll (firstn k post)) m = false).
  { intros k Hk. rewrite <- joinAll_app.
    replace (pre ++ firstn k post)%list
      with (firstn (List.length pre + k) (pre ++ post)).
    - apply Hno. rewrite length_app. lia.
    - now rewrite firstn_app_2. }
  set (B := joinAll (pre ++ post ++ [last])) in *.
  exists (W (joinAll pre) (ws ++ [done])%list).
  exists (W (joinAll pre) (remove_waiter done (ws ++ [done])%list)).
  exists (mkWorld
            (mkShell StateLocked c (Some fd) B g sc wd
               (extractOutput (sh B) command) (Some done) command startM endM)
            (update done (Some None) (cs ++ [None])%list)
            (remove_waiter done (ws ++ [done])%list)
            (update r None (rs ++ [Some (m, false)])%list)).
  split; [|split; [|split; [|split; [|split; [|split]]]]].
  - cbn [final]. rewrite E. apply (A "" (ws ++ [done])%list pre).
    intros k Hk. simpl. rewrite <- (firstn_within k pre post Hk).
    apply Hno. rewrite length_app. lia.
  - apply nth_error_snoc.
  - cbn [step]. unfold W at 1. fields. now rewrite is_waiter_snoc.
  - reflexivity.
  - intros k Hk. eexists. split; [|split].
    + apply A. intros j Hj. rewrite firstn_firstn.
      apply Hpost. rewrite length_firstn in Hj. lia.
    + reflexivity.
    + unfold W, sh. fields. now rewrite joinAll_app.
  - unfold reads. rewrite map_app. fold (reads r post). rewrite final_app.
    rewrite (A _ _ post Hpost).
    assert (Bq : (joinAll pre ++ joinAll post) ++ last = B).
    { unfold B. rewrite !joinAll_app. simpl.
      now rewrite append_nil_r, append_assoc. }
    unfold W, sh. cbn [map final step]. fields.
    rewrite (nth_error_snoc rs (Some (m, false)) : nth_error _ r = _).
    unfold readUntilMarker_turn, readUntilMarker_begin, readUntilMarker_read.
    fields.
    cbv zeta. fields. rewrite Bq, Hyes. fields. unfold send.
    rewrite (nth_error_snoc cs None : nth_error _ done = _). reflexivity.
  - fields. repeat split.
    apply nth_error_update with (x := None), nth_error_snoc.
Qed.

(** [sleep 3; echo hello] with a deadline of 500 ms: the echoed command line
    arrives before the deadline, the output after it. *)
Lemma timeout_then_late_completion_witness :
  let w := mkWorld (mkShell StateLocked (Some 7) (Some 3) "" 5 "/bin/bash" ""
                      "" None "" "" "") [] [] [] in
  let pre := ["echo '<<<SHELLD_START_1>>>';eval ...;echo;echo '<<<SHELLD_END_1>>>'"
              ++ CRLF] in
  let post := ["<<<SHELLD_START_1>>>" ++ CRLF; "hel"] in
  let last := "lo" ++ CRLF ++ CRLF ++ "<<<SHELLD_END_1>>>" ++ CRLF in
  exists w1 w2 w3,
    final (OpExecute "sleep 3; echo hello" 500000000 1 None :: reads 0 pre) w
    = Some w1
    /\ step (OpTimeout 0) w1 = Some (w2, RetExecute "" (Some ErrTimeout), [])
    /\ state (shell w2) = StateExecuting
    /\ final (reads 0 (post ++ [last])) w2 = Some w3
    /\ state (shell w3) = StateLocked
    /\ Output (shell w3) = "hello".
Proof.
  intros w pre post last.
  destruct (timeout_then_late_completion w "sleep 3; echo hello" 500000000 1
              pre post last)
    as (w1 & w2 & w3 & H1 & _ & H2 & H3 & _ & H4 & H5 & H6 & H7 & H8 & H9 & _).
  - reflexivity.
  - discriminate.
  - intros [|[|[|[|k]]]] Hk; reflexivity.
  - reflexivity.
  - exists w1, w2, w3. repeat split; try assumption.
    unfold Output. rewrite H9. unfold extractOutput. rewrite H6, H7, H8.
    reflexivity.
Defined.

(** ** The state graph *)

Lemma waitForOutput_state (marker : string) (reads : list ReadResult) :
  forall shell, state (fst (waitForOutput marker reads shell)) = state shell.
Proof.
  induction reads as [|[data| |cause] rest IH]; intros shell; simpl;
    try reflexivity.
  destruct (Contains _ _); [|rewrite IH]; now destruct shell.
Qed.

Lemma Start_allowed (now : Z) (spawn : SpawnResult) (shell : Shell.Shell) :
  edge (state shell) (state (fst (fst (Start now spawn shell)))) = true
  \/ state (fst (fst (Start now spawn shell))) = state shell.
Proof.
  unfold Start. destruct (state shell) eqn:S; cbn [State_eqb negb]; auto.
  destruct spawn as [cause|pid fd reads]; cbv zeta.
  - left. destruct shell. reflexivity.
  - destruct (waitForOutput _ _ _) as [sh [err|]]; left.
    + unfold cleanup. destruct sh as [? ? [fd'|] ? ? ? ? ? ? ? ? ?]; reflexivity.
    + destruct sh. reflexivity.
Qed.

Lemma Execute_begin_allowed (command : string) (timeout now : Z) (done : chan)
    (werr : option string) (shell : Shell.Shell) :
  edge (state shell)
    (state (fst (fst (Execute_begin command timeout now done werr shell)))) = true
  \/ state (fst (fst (Execute_begin command timeout now done werr shell)))
     = state shell.
Proof.
  unfold Execute_begin. destruct shell as [st c p b g sc wd lo cd cc sm em].
  shell_fields. destruct st; cbn [State_eqb negb]; auto.
  cbv zeta. shell_fields.
  destruct p; [destruct werr|]; left; reflexivity.
Qed.

(** The only change of state outside the graph that a step can make is
    [unrecoverable] to [locked]; every other change is an edge. *)
Lemma step_allowed_or_late (op : Op) (w w' : World) (r : Ret) (ev : list Event) :
  step op w = Some (w', r, ev) ->
  allowed_or_late (state (shell w)) (state (shell w')) = true.
Proof.
  unfold allowed_or_late. intros H. destruct op; cbn [step] in H.
  - pose proof (Start_allowed now spawn (shell w)) as A.
    destruct (Start now spawn (shell w)) as [[sh err] e]. injection H as <- _ _.
    open_world w. destruct A as [-> | ->];
      [now rewrite orb_true_r | now destruct st].
  - pose proof (Execute_begin_allowed command timeout now
                  (List.length (chans w)) werr (shell w)) as A.
    destruct (Execute_begin _ _ _ _ _ _) as [[sh [o e|c m]] e'];
      injection H as <- _ _; fields;
      (destruct A as [-> | ->];
       [now rewrite orb_true_r | now destruct (state (shell w))]).
  - destruct (is_waiter done (waiters w)); [|discriminate].
    destruct (nth_error (chans w) done) as [[[e|]|]|]; try discriminate;
      open_world w; cbn [Execute_receive] in H; fields;
      injection H as <- _ _; fields; now destruct st.
  - destruct (is_waiter done (waiters w)); [|discriminate].
    cbn [Execute_timeout] in H. injection H as <- _ _. fields.
    now destruct (state (shell w)).
  - destruct (reader_begin _ _ _ _ _ H) as (-> & _).
    now destruct (state (shell w)).
  - destruct (reader_turn _ _ _ _ _ _ H)
      as (v & _ & _ & _
          & [[-> _]|[(data & _ & _ & ->)|(data & out & _ & _ & ->)]]);
      now destruct (shell w) as [[] ? ? ? ? ? ? ? ? ? ? ?].
  - unfold Kill in H. open_world w. destruct p; [destruct werr|];
      injection H as <- _ _; fields; now destruct st.
  - unfold Unlock in H. open_world w. destruct c.
    + destruct p; cbv zeta in H; fields; injection H as <- _ _;
        fields; now destruct st.
    + injection H as <- _ _. fields. now destruct st.
  - injection H as <- _ _. now destruct (state (shell w)).
  - injection H as <- _ _. now destruct (state (shell w)).
Qed.

(** C4.  Every pair of consecutive states of the shell should be an edge of
    the graph, whatever the sequence of operations.  The run [two_executes]
    is not such a path: when the first call takes the signal of its reader,
    [Execute] sets the state to [locked], and the shell leaves
    [unrecoverable] without an unlock.  (The call also returns the empty
    output, the second call having emptied the last-output slot.) *)
Lemma late_receive_leaves_unrecoverable :
  states two_executes (init "/bin/bash" "" 5000000000)
  = Some [StateAvailable; StateLocked; StateExecuting; StateLocked;
          StateExecuting; StateExecuting; StateUnrecoverable; StateLocked]
  /\ option_map snd (run two_executes (init "/bin/bash" "" 5000000000))
     = Some [RetError None; RetWaiting 0; RetReader (Some None); RetWaiting 1;
             RetReader (Some (Some ErrTerminated));
             RetExecute "" (Some ErrTerminated); RetExecute "" None]
  /\ edge StateUnrecoverable StateLocked = false
  /\ option_map path (states two_executes (init "/bin/bash" "" 5000000000))
     = Some false.
Proof. repeat split; reflexivity. Qed.

(** C5.  A read of the reader that returns end of file or an error while a
    command is in flight should make the state [unrecoverable] and surface
    the error.  In the run [timeout_then_eof] it does neither: the call has
    timed out, the reader sends the error on the completion channel and
    returns, and nothing takes it; the state is still [executing], and no
    call has returned the error. *)
Lemma eof_after_timeout_stays_executing :
  states timeout_then_eof (init "/bin/bash" "" 5000000000)
  = Some [StateAvailable; StateLocked; StateExecuting; StateExecuting;
          StateExecuting; StateExecuting]
  /\ option_map snd (run timeout_then_eof (init "/bin/bash" "" 5000000000))
     = Some [RetError None; RetWaiting 0; RetExecute "" (Some ErrTimeout);
             RetReader (Some (Some ErrTerminated)); RetState StateExecuting]
  /\ option_map (fun w => (waiters w, readers w, chans w))
       (final timeout_then_eof (init "/bin/bash" "" 5000000000))
     = Some ([], [None], [Some (Some ErrTerminated)]).
Proof. repeat split; reflexivity. Qed.

(** The same with a second call whose write fails: three critical sections
    in a row (the reader's, the second call's, the first call's). *)
Lemma late_receive_after_write_failure :
  states execute_write_fails (init "/bin/bash" "" 5000000000)
  = Some [StateAvailable; StateLocked; StateExecuting; StateLocked;
          StateUnrecoverable; StateLocked].
Proof. reflexivity. Qed.

(** The sequential use of the engine stays inside the graph: lock, a command
    that completes, a command that times out and completes late, a command
    that ends the shell, unlock. *)
Example sequential_session_is_a_path :
  option_map path
    (states
       [ OpStart 0 (Spawned 7 3 [ReadBytes "<<<SHELLD_READY_0>>>"]);
         OpExecute "echo hi" 300000000000 1 None;
         OpRead 0 (ReadBytes ("<<<SHELLD_START_1>>>" ++ CRLF ++ "hi" ++ CRLF
                              ++ CRLF ++ "<<<SHELLD_END_1>>>" ++ CRLF));
         OpReceive 0;
         OpExecute "sleep 3" 500000000 2 None;
         OpTimeout 1;
         OpState;
         OpKill None;
         OpRead 1 (ReadBytes ("<<<SHELLD_START_2>>>" ++ CRLF ++ CRLF
                              ++ "<<<SHELLD_END_2>>>" ++ CRLF));
         OpExecute "exit" 300000000000 3 None;
         OpRead 2 ReadEOF;
         OpReceive 2;
         OpUnlock true;
         OpStart 4 (SpawnFailed "no such file or directory");
         OpUnlock true ]
       (init "/bin/bash" "" 5000000000))
  = Some true.
Proof. reflexivity. Qed.

Lemma waitForOutput_frame (marker : string) (reads : list ReadResult) :
  forall sh,
    cmd (fst (waitForOutput marker reads sh)) = cmd sh
    /\ ptyFile (fst (waitForOutput marker reads sh)) = ptyFile sh.
Proof.
  induction reads as [|[data| |cause] rest IH]; intros sh; simpl; auto.
  destruct (Contains _ _); [now destruct sh|].
  destruct (IH (set_outputBuffer (outputBuffer sh ++ data) sh)) as [-> ->].
  now destruct sh.
Qed.

(** C9, as stated, has [Unlock] reset the output buffer.  In the run
    [read_after_unlock] the first [Unlock] empties the buffer, the reader
    then appends what its [Read] returned, and the second [Unlock], which
    finds no child and returns early, leaves these bytes in the buffer: the
    buffer is not empty after it.  The state is [available] and no child is
    recorded all the while. *)
Lemma Unlock_leaves_late_bytes :
  option_map
    (map (fun w => (state (shell w), cmd (shell w), outputBuffer (shell w))))
    (option_map fst (run read_after_unlock (init "/bin/bash" "" 5000000000)))
  = Some [ (StateLocked, Some 7, "");
           (StateExecuting, Some 7, "");
           (StateExecuting, Some 7, "");
           (StateAvailable, None, "");
           (StateAvailable, None, "exit" ++ CRLF);
           (StateAvailable, None, "exit" ++ CRLF) ]
  /\ option_map (fun w => outputBuffer (shell w))
       (final read_after_unlock (init "/bin/bash" "" 5000000000))
     <> Some "".
Proof. split; [reflexivity | discriminate]. Qed.

(** With no call waiting and no reader running, only [Unlock] moves the
    state: a shell left [executing] this way stays so, and no call returns
    the error of the reader. *)
Lemma stuck_executing (op : Op) (w w' : World) (r : Ret) (ev : list Event) :
  state (shell w) = StateExecuting ->
  waiters w = [] ->
  (forall i m, nth_error (readers w) i <> Some (Some m)) ->
  (forall exited, op <> OpUnlock exited) ->
  step op w = Some (w', r, ev) ->
  state (shell w') = StateExecuting /\ waiters w' = []
  /\ (forall i m, nth_error (readers w') i <> Some (Some m))
  /\ (forall output e, r = RetExecute output e ->
        e = Some (ErrNotReady StateExecuting)).
Proof.
  intros S W R N H. open_world w. subst st ws. destruct op; cbn [step] in H.
  - unfold Start in H. fields. cbn [State_eqb negb] in H.
    injection H as <- <- _. fields. repeat split; auto. discriminate.
  - unfold Execute_begin in H. fields. cbn [State_eqb negb] in H.
    injection H as <- <- _. fields. repeat split; auto.
    now intros output e [= <- <-].
  - discriminate.
  - discriminate.
  - fields. destruct (nth_error rs reader) as [[m|]|] eqn:E; try discriminate.
    now destruct (R reader m).
  - fields. destruct (nth_error rs reader) as [[m|]|] eqn:E; try discriminate.
    now destruct (R reader m).
  - unfold Kill in H. fields. destruct p; [destruct werr|];
      injection H as <- <- _; fields; repeat split; auto; discriminate.
  - now destruct (N exited).
  - injection H as <- <- _. repeat split; auto. discriminate.
  - injection H as <- <- _. repeat split; auto. discriminate.
Qed.

(** X4.  While the call still waits, the error of the reader reaches it: the
    state becomes [unrecoverable] and [Execute] returns the error. *)
Lemma read_error_while_waiting (w : World) (r : nat) (m : string)
    (reading : bool) (done : chan) (res : ReadResult) :
  nth_error (readers w) r = Some (Some (m, reading)) ->
  commandDone (shell w) = Some done ->
  nth_error (chans w) done = Some None ->
  is_waiter done (waiters w) = true ->
  (forall data, res <> ReadBytes data) ->
  exists e w1 w2,
    step (OpRead r res) w = Some (w1, RetReader (Some (Some e)), [])
    /\ step (OpReceive done) w1 = Some (w2, RetExecute "" (Some e), [])
    /\ state (shell w2) = StateUnrecoverable.
Proof.
  intros R C E W N. open_world w. subst cd.
  assert (K : exists e,
             (if reading then readUntilMarker_read else readUntilMarker_turn)
               m res (mkShell st c p b g sc wd lo (Some done) cc sm em)
             = (mkShell st c p b g sc wd lo (Some done) cc sm em,
                Some (Some e))).
  { unfold readUntilMarker_turn, readUntilMarker_begin, readUntilMarker_read.
    fields.
    destruct reading, p, res as [data| |cause];
      try (now destruct (N data)); eexists; reflexivity. }
  destruct K as [e K]. exists e. eexists. eexists.
  cbn [step]. fields. rewrite R. destruct reading; rewrite K; fields;
    unfold send; rewrite E;
    (split; [reflexivity|]);
    cbn [step]; fields; rewrite W, (nth_error_update _ _ _ _ E);
    cbn [Execute_receive]; fields; split; reflexivity.
Qed.

(** The shell ends while [/execute exit] waits. *)
Lemma read_error_while_waiting_witness :
  let w := mkWorld (mkShell StateExecuting (Some 7) (Some 3) "" 5 "/bin/bash"
                      "" "" (Some 0) "exit" "<<<SHELLD_START_1>>>"
                      "<<<SHELLD_END_1>>>")
             [None] [0] [Some (LF ++ "<<<SHELLD_END_1>>>" ++ CRLF, false)] in
  exists e w1 w2,
    step (OpRead 0 ReadEOF) w = Some (w1, RetReader (Some (Some e)), [])
    /\ step (OpReceive 0) w1 = Some (w2, RetExecute "" (Some e), [])
    /\ state (shell w2) = StateUnrecoverable.
Proof.
  intros w.
  apply (read_error_while_waiting w 0 (LF ++ "<<<SHELLD_END_1>>>" ++ CRLF)
           false 0 ReadEOF); try reflexivity.
  discriminate.
Defined.

(** ** The output of a terminal *)

(** The lines a terminal sends, split at LF: every line with its carriage
    return, and the empty rest after the last line end. *)
Lemma Split_crlf_lines (lines : list string) :
  Forall (fun line => ~ occurs LF line) lines ->
  Split (crlf_lines lines) LF
  = (map (fun line => (line ++ CR)%string) lines ++ [""])%list.
Proof.
  intros F. apply (is_split_unique "010" (crlf_lines lines)).
  - apply Split_is_split. discriminate.
  - split; [now destruct lines|]. split.
    + induction lines as [|line rest IH]; [reflexivity|].
      inversion F; subst. cbn [map app crlf_lines fold_right].
      rewrite Join_cons by now destruct rest.
      rewrite IH by assumption. now rewrite append_assoc.
    + apply Forall_app. split.
      * apply Forall_map. apply Forall_impl with (2 := F).
        intros line N [O|O]%occurs_char_app; [now apply N|].
        apply occurs_char_cons in O as [O|O]; [discriminate | now apply occurs_nil in O].
      * constructor; [apply occurs_nil | constructor].
Qed.

Lemma filter_trimmed (lines : list string) :
  filter (fun line => negb (line =? ""))
    (map (fun line => TrimSuffix line CR)
       (map (fun line => (line ++ CR)%string) lines ++ [""])%list)
  = filter (fun line => negb (line =? "")) lines.
Proof.
  rewrite map_app, map_map, filter_app. cbn [map filter].
  change (TrimSuffix "" CR) with "". cbn. rewrite app_nil_r.
  f_equal. rewrite <- (map_id lines) at 2. apply map_ext. intros line.
  apply TrimSuffix_CR.
Qed.

(** X5.  What [extractOutput] returns for the output of a terminal: when the
    buffer holds, after the first start marker with its CRLF, the lines
    [lines] each ended by CRLF and then the end marker, the result is the
    lines that are not empty, joined by LF. *)
Theorem extractOutput_of_terminal_lines (sh : Shell.Shell)
    (command pre post : string) (lines : list string) :
  outputBuffer sh
  = pre ++ (startMarker sh ++ CRLF) ++ crlf_lines lines ++ endMarker sh ++ post ->
  first_at (startMarker sh ++ CRLF) (outputBuffer sh) pre ->
  first_at (endMarker sh) (crlf_lines lines ++ endMarker sh ++ post)
    (crlf_lines lines) ->
  Forall (fun line => ~ occurs LF line) lines ->
  extractOutput sh command
  = Join (filter (fun line => negb (line =? "")) lines) LF.
Proof.
  intros B F1 F2 NL. unfold extractOutput.
  destruct (Index_Some _ _ _ (indexNat_first_at _ _ _ F1)) as [-> ->].
  replace (Z.to_nat (Z.of_nat (length pre)
                     + Z.of_nat (length (startMarker sh ++ CRLF))))
    with (length pre + length (startMarker sh ++ CRLF)) by lia.
  rewrite <- drop_drop. rewrite B, !drop_append.
  destruct (Index_Some _ _ _ (indexNat_first_at _ _ _ F2)) as [-> ->].
  rewrite Nat2Z.id, take_append, cleanLoop_filter. cbn [app].
  now rewrite (Split_crlf_lines _ NL), filter_trimmed.
Qed.

(** [echo -e 'line1\n\nline2']: the echoed command line, the start marker,
    the three lines of the command, the line of the bare [echo], the end
    marker.  The empty lines are gone from the result. *)
Lemma extractOutput_of_terminal_lines_witness :
  extractOutput
    (mkShell StateExecuting (Some 7) (Some 3)
       ("echo '<<<SHELLD_START_1>>>';eval ...;echo;echo '<<<SHELLD_END_1>>>'"
        ++ CRLF ++ "<<<SHELLD_START_1>>>" ++ CRLF ++ "line1" ++ CRLF ++ CRLF
        ++ "line2" ++ CRLF ++ CRLF ++ "<<<SHELLD_END_1>>>" ++ CRLF)
       5 "/bin/bash" "" "" (Some 0) "echo -e 'line1\n\nline2'"
       "<<<SHELLD_START_1>>>" "<<<SHELLD_END_1>>>")
    "echo -e 'line1\n\nline2'"
  = "line1" ++ LF ++ "line2".
Proof.
  apply (extractOutput_of_terminal_lines _ _
           ("echo '<<<SHELLD_START_1>>>';eval ...;echo;echo '<<<SHELLD_END_1>>>'"
            ++ CRLF)
           CRLF ["line1"; ""; "line2"; ""]).
  - reflexivity.
  - apply first_at_computed; reflexivity.
  - apply first_at_computed; reflexivity.
  - repeat constructor; apply Contains_false; reflexivity.
Defined.

(** X6.  The lines of a result that is not empty: splitting it at LF gives
    lines none of which is empty. *)
Theorem extractOutput_has_no_empty_line (sh : Shell.Shell) (command : string) :
  extractOutput sh command = ""
  \/ Forall (fun line => line <> "" /\ ~ occurs LF line)
       (Split (extractOutput sh command) LF).
Proof.
  unfold extractOutput.
  destruct (_ =? _)%Z; [now left|]. cbv zeta.
  destruct (_ =? _)%Z; [now left|].
  rewrite cleanLoop_filter. cbn [app].
  match goal with |- context [Split ?mid LF] => set (pieces := Split mid LF);
    assert (P : Forall (fun x => ~ occurs LF x) pieces)
      by (apply Split_is_split; discriminate) end.
  set (kept := filter _ _).
  assert (K : Forall (fun line => line <> "" /\ ~ occurs LF line) kept).
  { unfold kept. apply Forall_forall. intros line [I N]%filter_In.
    apply in_map_iff in I as [piece [<- I]]. split.
    - intros E. rewrite E in N. discriminate.
    - rewrite Forall_forall in P. intros O%occurs_TrimSuffix. now apply (P piece). }
  destruct kept as [|line rest] eqn:E; [now left | right].
  rewrite <- E in *.
  replace (Split (Join kept LF) LF) with kept; [exact K|].
  apply (is_split_unique "010" (Join kept LF)).
  - split; [rewrite E; discriminate|]. split; [reflexivity|].
    apply Forall_impl with (2 := K). tauto.
  - apply Split_is_split. discriminate.
Qed.
(** ** [Start] *)

Lemma set_outputBuffer_twice (a b : string) (sh : Shell.Shell) :
  set_outputBuffer a (set_outputBuffer b sh) = set_outputBuffer a sh.
Proof. now destruct sh. Qed.

(** [waitForOutput] writes the output buffer, and nothing else. *)
Lemma waitForOutput_buffer (marker : string) (reads : list ReadResult) :
  forall sh, exists buffer,
    fst (waitForOutput marker reads sh) = set_outputBuffer buffer sh.
Proof.
  induction reads as [|[data| |cause] rest IH]; intros sh; cbn [waitForOutput];
    try (exists (outputBuffer sh); now destruct sh).
  cbv zeta. destruct (Contains _ _).
  - eexists. reflexivity.
  - destruct (IH (set_outputBuffer (outputBuffer sh ++ data) sh)) as [buffer ->].
    exists buffer. apply set_outputBuffer_twice.
Qed.

(** [waitForOutput] returns nil exactly when reads that return bytes make
    the buffer contain the marker, before a read fails and before the
    deadline. *)
Lemma waitForOutput_None (marker : string) (reads : list ReadResult) :
  forall sh,
    snd (waitForOutput marker reads sh) = None
    <-> exists datas rest,
          datas <> []
          /\ reads = (map ReadBytes datas ++ rest)%list
          /\ Contains (outputBuffer sh ++ joinAll datas) marker = true.
Proof.
  induction reads as [|[data| |cause] rest IH]; intros sh; cbn [waitForOutput].
  - split; [discriminate|]. intros (datas & rest & N & E & _).
    destruct datas; [congruence | discriminate].
  - cbv zeta.
    assert (B : outputBuffer (set_outputBuffer (outputBuffer sh ++ data) sh)
                = outputBuffer sh ++ data) by now destruct sh.
    rewrite B. destruct (Contains (outputBuffer sh ++ data) marker) eqn:C.
    + split; [intros _ | reflexivity]. exists [data], rest.
      split; [discriminate|]. split; [reflexivity|].
      cbn. now rewrite append_nil_r.
    + rewrite IH, B. split.
      * intros (datas & rest' & N & -> & H). exists (data :: datas), rest'.
        split; [discriminate|]. split; [reflexivity|].
        cbn [joinAll fold_right]. fold (joinAll datas).
        now rewrite <- append_assoc.
      * intros (datas & rest' & N & E & H).
        destruct datas as [|d datas]; [congruence|].
        cbn [map app] in E. injection E as <- ->.
        cbn [joinAll fold_right] in H. fold (joinAll datas) in H.
        destruct datas as [|d' datas].
        -- cbn in H. rewrite append_nil_r in H. congruence.
        -- exists (d' :: datas), rest'. split; [discriminate|].
           split; [reflexivity|]. now rewrite append_assoc.
  - split; [discriminate|]. intros (datas & rest' & N & E & _).
    destruct datas; [congruence | discriminate].
  - split; [discriminate|]. intros (datas & rest' & N & E & _).
    destruct datas; [congruence | discriminate].
Qed.

(** The errors of [waitForOutput]. *)
Lemma waitForOutput_Some (marker : string) (reads : list ReadResult) :
  forall sh err,
    snd (waitForOutput marker reads sh) = Some err ->
    err = ErrTimeout \/ err = ErrTerminated \/ exists cause, err = ErrReadFailed cause.
Proof.
  induction reads as [|[data| |cause] rest IH]; intros sh err; cbn [waitForOutput].
  - intros [= <-]. auto.
  - cbv zeta. destruct (Contains _ _); [discriminate | apply IH].
  - intros [= <-]. auto.
  - intros [= <-]. eauto.
Qed.

(** X7.  When [Start] succeeds.  It returns nil exactly when the state is
    [available], the spawn succeeds, and the reads of the master side that
    return bytes, before one fails and before the 30 s deadline, contain the
    ready marker.  The shell is then [locked] with an empty buffer, and the
    calls made are the spawn and the write of the [echo] of the marker. *)
Theorem Start_succeeds_iff (now : Z) (spawn : SpawnResult) (sh : Shell.Shell) :
  let readyMarker := "<<<SHELLD_READY_" ++ itoa now ++ ">>>" in
  (snd (fst (Start now spawn sh)) = None
   <-> state sh = StateAvailable
       /\ exists pid fd datas rest,
            spawn = Spawned pid fd (map ReadBytes datas ++ rest)%list
            /\ datas <> []
            /\ Contains (joinAll datas) readyMarker = true)
  /\ (forall pid fd reads,
        spawn = Spawned pid fd reads ->
        snd (fst (Start now spawn sh)) = None ->
        Start now spawn sh
        = (mkShell StateLocked (Some pid) (Some fd) "" (killGracePeriod sh)
             (shellCommand sh) (workingDirectory sh) (lastOutput sh)
             (commandDone sh) (currentCommand sh) (startMarker sh) (endMarker sh),
           None,
           [EvSpawn (shellCommand sh) (workingDirectory sh);
            EvPtyWrite (Some fd) ("echo '" ++ readyMarker ++ "'" ++ LF)])).
Proof.
  intros readyMarker. destruct sh as [st c p b g sc wd lo cd cc sm em].
  unfold Start. shell_fields. split.
  - destruct st; cbn [State_eqb negb fst snd];
      try (split; [discriminate | intros [? _]; discriminate]).
    destruct spawn as [cause|pid fd reads]; cbv zeta; shell_fields.
    + split; [discriminate|]. intros [_ (pid & fd & datas & rest & E & _)].
      discriminate.
    + fold readyMarker.
      match goal with
      | |- context [waitForOutput ?m ?r ?x] =>
          pose proof (waitForOutput_None m r x) as W;
          destruct (waitForOutput m r x) as [sh' [err|]]
      end; cbn [fst snd] in W; shell_fields.
      * split.
        -- unfold cleanup. destruct sh' as [? ? [fd'|] ? ? ? ? ? ? ? ? ?];
             cbn; discriminate.
        -- intros [_ (pid' & fd' & datas & rest & E & N & C)].
           injection E as -> -> ->.
           assert (Some err = None); [|discriminate].
           apply W. exists datas, rest. auto.
      * split; [intros _ | now destruct sh'].
        split; [reflexivity|].
        destruct (proj1 W eq_refl) as (datas & rest & N & -> & C).
        exists pid, fd, datas, rest. auto.
  - intros pid fd reads -> . destruct st; cbn [State_eqb negb fst snd];
      try discriminate.
    cbv zeta. shell_fields. fold readyMarker.
    match goal with
    | |- context [waitForOutput ?m ?r ?x] =>
        destruct (waitForOutput_buffer m r x) as [buffer B];
        destruct (waitForOutput m r x) as [sh' [err|]]
    end; cbn [fst] in B; subst sh'; shell_fields.
    + unfold cleanup. cbn. discriminate.
    + reflexivity.
Qed.

(** X8.  When the shell does not become ready.  The spawn succeeded and the
    readiness check failed (a read failed, the shell ended, or the deadline
    passed):  [Start] closes the master side and forgets the child, without
    a signal to it and without waiting for it; the state is [unrecoverable].
    A later [Unlock] finds no child and makes no call. *)
Theorem Start_failure_forgets_child (now : Z) (pid fd : nat)
    (reads : list ReadResult) (sh : Shell.Shell) :
  state sh = StateAvailable ->
  snd (fst (Start now (Spawned pid fd reads) sh)) <> None ->
  exists cause,
    Start now (Spawned pid fd reads) sh
    = (mkShell StateUnrecoverable None None "" (killGracePeriod sh)
         (shellCommand sh) (workingDirectory sh) (lastOutput sh)
         (commandDone sh) (currentCommand sh) (startMarker sh) (endMarker sh),
       Some (ErrInitialize cause),
       [EvSpawn (shellCommand sh) (workingDirectory sh);
        EvPtyWrite (Some fd)
          ("echo '" ++ ("<<<SHELLD_READY_" ++ itoa now ++ ">>>") ++ "'" ++ LF);
        EvPtyClose fd])
    /\ (cause = ErrTimeout \/ cause = ErrTerminated
        \/ exists text, cause = ErrReadFailed text)
    /\ forall exited,
         snd (Unlock exited (fst (fst (Start now (Spawned pid fd reads) sh)))) = [].
Proof.
  destruct sh as [st c p b g sc wd lo cd cc sm em]. shell_fields.
  intros -> . unfold Start. cbn [State_eqb negb state]. cbv zeta. shell_fields.
  match goal with
  | |- context [waitForOutput ?m ?r ?x] =>
      destruct (waitForOutput_buffer m r x) as [buffer B];
      pose proof (waitForOutput_Some m r x) as S;
      destruct (waitForOutput m r x) as [sh' [err|]]
  end; cbn [fst snd] in *; subst sh'; shell_fields.
  - intros _. exists err. unfold cleanup. cbn. split; [reflexivity|].
    split; [now apply S | reflexivity].
  - cbn. congruence.
Qed.

(** The shell ends before it has echoed the ready marker. *)
Lemma Start_failure_forgets_child_witness :
  exists cause,
    Start 0 (Spawned 7 3 [ReadBytes "bash: cannot set terminal"; ReadEOF])
      (NewShell "/bin/bash" "" 5000000000)
    = (mkShell StateUnrecoverable None None "" 5000000000 "/bin/bash" "" ""
         None "" "" "",
       Some (ErrInitialize cause),
       [EvSpawn "/bin/bash" "";
        EvPtyWrite (Some 3) ("echo '<<<SHELLD_READY_0>>>'" ++ LF);
        EvPtyClose 3])
    /\ (cause = ErrTimeout \/ cause = ErrTerminated
        \/ exists text, cause = ErrReadFailed text)
    /\ forall exited,
         snd (Unlock exited
                (fst (fst (Start 0 (Spawned 7 3 [ReadBytes "bash: cannot set terminal";
                                                 ReadEOF])
                             (NewShell "/bin/bash" "" 5000000000)))))
         = [].
Proof.
  apply (Start_failure_forgets_child 0 7 3
           [ReadBytes "bash: cannot set terminal"; ReadEOF]
           (NewShell "/bin/bash" "" 5000000000)).
  - reflexivity.
  - discriminate.
Defined.

(** ** [Unlock] *)

(** X9.  [Unlock] from every state.  It returns nil and leaves the state
    [available] with no child and no master side recorded; the last-output
    slot and the other fields stay.  When a child is recorded, the calls
    are: the write of [exit] and the close of the master side if it is open,
    the signal SIGKILL only if the child has not exited within the grace
    period, and last the wait for the child.  A second [Unlock] changes
    nothing and makes no call. *)
Theorem Unlock_releases (exited : bool) (sh : Shell.Shell) :
  let closing :=
    match ptyFile sh with
    | Some fd => [EvPtyWrite (Some fd) ("exit" ++ LF); EvPtyClose fd]
    | None => []
    end in
  let reaping (pid : nat) :=
    if exited then [EvWait pid] else [EvSigkill pid; EvWait pid] in
  (match cmd sh with
   | Some pid =>
       Unlock exited sh
       = (mkShell StateAvailable None None "" (killGracePeriod sh)
            (shellCommand sh) (workingDirectory sh) (lastOutput sh)
            (commandDone sh) (currentCommand sh) (startMarker sh) (endMarker sh),
          None, (closing ++ reaping pid)%list)
   | None => Unlock exited sh = (set_state StateAvailable sh, None, [])
   end)
  /\ snd (fst (Unlock exited sh)) = None
  /\ state (fst (fst (Unlock exited sh))) = StateAvailable
  /\ cmd (fst (fst (Unlock exited sh))) = None
  /\ forall exited',
       Unlock exited' (fst (fst (Unlock exited sh)))
       = (fst (fst (Unlock exited sh)), None, []).
Proof.
  intros closing reaping. subst closing reaping.
  destruct sh as [st c p b g sc wd lo cd cc sm em]. unfold Unlock. shell_fields.
  destruct c as [pid|]; [destruct p as [fd|]|]; cbv zeta; shell_fields;
    cbn [fst snd]; shell_fields; repeat split.
Qed.
Lemma is_waiter_remove (c : chan) (l : list chan) :
  is_waiter c (remove_waiter c l) = false.
Proof.
  unfold is_waiter, remove_waiter. induction l as [|x l IH]; [reflexivity|].
  cbn [filter]. destruct (Nat.eqb x c) eqn:E; cbn [negb]; [exact IH|].
  cbn [existsb]. rewrite IH, Nat.eqb_sym, E. reflexivity.
Qed.

(** ** A command that completes *)

(** X10.  A command that completes before its deadline.  A call of [Execute]
    is accepted; its reader reads the chunks [datas] without the buffer
    containing the end marker sequence, and meanwhile the state is
    [executing] and the last-output slot is empty; the chunk [last] makes
    the buffer contain LF, end marker, CRLF; the call then receives the
    signal of the reader and returns, with a nil error, the output extracted
    from all the bytes read; the state is [locked] again, [Output] returns
    the same output, and the call waits no more. *)
Theorem Execute_returns_output (w : World) (command : string)
    (timeout now : Z) (datas : list string) (last : string) :
  let done := List.length (chans w) in
  let r := List.length (readers w) in
  let startM := "<<<SHELLD_START_" ++ itoa now ++ ">>>" in
  let endM := "<<<SHELLD_END_" ++ itoa now ++ ">>>" in
  state (shell w) = StateLocked ->
  ptyFile (shell w) <> None ->
  (forall k, k <= List.length datas ->
     Contains (joinAll (firstn k datas)) (LF ++ endM ++ CRLF) = false) ->
  Contains (joinAll (datas ++ [last])) (LF ++ endM ++ CRLF) = true ->
  exists w1 w2 w3 output,
    final (OpExecute command timeout now None :: reads r datas) w = Some w1
    /\ state (shell w1) = StateExecuting
    /\ Output (shell w1) = ""
    /\ step (OpRead r (ReadBytes last)) w1 = Some (w2, RetReader (Some None), [])
    /\ outputBuffer (shell w2) = joinAll (datas ++ [last])
    /\ startMarker (shell w2) = startM
    /\ endMarker (shell w2) = endM
    /\ output = extractOutput (shell w2) command
    /\ step (OpReceive done) w2 = Some (w3, RetExecute output None, [])
    /\ state (shell w3) = StateLocked
    /\ Output (shell w3) = output
    /\ is_waiter done (waiters w3) = false.
Proof.
  intros done r startM endM L P Hno Hyes.
  pose proof (step_Execute_accepted w command timeout now L P) as E.
  fold done startM endM in E.
  open_world w. subst st. destruct p as [fd|]; [clear P | congruence].
  set (m := LF ++ endM ++ CRLF) in *.
  set (B := joinAll (datas ++ [last])) in *.
  set (sh := fun st buffer out =>
               mkShell st c (Some fd) buffer g sc wd out (Some done)
                 command startM endM).
  set (w1 := mkWorld (sh StateExecuting (joinAll datas) "") (cs ++ [None])
               (ws ++ [done]) (rs ++ [Some (m, false)])).
  set (out := extractOutput (sh StateExecuting B "") command).
  set (w2 := mkWorld (sh StateLocked B out)
               (update done (Some None) (cs ++ [None])) (ws ++ [done])
               (update r None (rs ++ [Some (m, false)]))).
  set (w3 := mkWorld (sh StateLocked B out)
               (update done None (update done (Some None) (cs ++ [None])))
               (remove_waiter done (ws ++ [done]))
               (update r None (rs ++ [Some (m, false)]))).
  assert (Bq : joinAll datas ++ last = B).
  { unfold B. rewrite joinAll_app. simpl. now rewrite append_nil_r. }
  exists w1, w2, w3, out.
  split; [|split; [reflexivity|split; [reflexivity|split]]].
  - cbn [final]. rewrite E.
    rewrite (reads_accumulate r m datas); fields.
    + reflexivity.
    + apply nth_error_snoc.
    + discriminate.
    + exact Hno.
  - unfold w1, sh. cbn [step]. fields.
    rewrite (nth_error_snoc rs (Some (m, false)) : nth_error _ r = _).
    unfold readUntilMarker_turn, readUntilMarker_begin, readUntilMarker_read.
    fields. cbv zeta. fields.
    rewrite Bq, Hyes. fields. unfold send.
    rewrite (nth_error_snoc cs None : nth_error _ done = _). reflexivity.
  - split; [reflexivity|]. split; [reflexivity|]. split; [reflexivity|].
    split; [reflexivity|]. split.
    + unfold w2, sh. cbn [step]. fields. rewrite is_waiter_snoc.
      rewrite (nth_error_update done (Some None) None (cs ++ [None])
                 (nth_error_snoc cs None)).
      reflexivity.
    + split; [reflexivity|]. split; [reflexivity|]. apply is_waiter_remove.
Qed.

(** [echo hello] with the default deadline: the echoed command line, then
    the output. *)
Lemma Execute_returns_output_witness :
  let w := mkWorld (mkShell StateLocked (Some 7) (Some 3) "" 5 "/bin/bash" ""
                      "" None "" "" "") [] [] [] in
  let datas := ["echo '<<<SHELLD_START_1>>>';eval ...;echo;echo '<<<SHELLD_END_1>>>'"
                ++ CRLF; "<<<SHELLD_START_1>>>" ++ CRLF ++ "hel"] in
  let last := "lo" ++ CRLF ++ CRLF ++ "<<<SHELLD_END_1>>>" ++ CRLF in
  exists w1 w2 w3,
    final (OpExecute "echo hello" 300000000000 1 None :: reads 0 datas) w
    = Some w1
    /\ step (OpRead 0 (ReadBytes last)) w1 = Some (w2, RetReader (Some None), [])
    /\ step (OpReceive 0) w2 = Some (w3, RetExecute "hello" None, [])
    /\ state (shell w3) = StateLocked
    /\ Output (shell w3) = "hello".
Proof.
  intros w datas last.
  destruct (Execute_returns_output w "echo hello" 300000000000 1 datas last)
    as (w1 & w2 & w3 & output & H1 & _ & _ & H2 & H3 & H4 & H5 & H6 & H7 & H8
        & H9 & _).
  - reflexivity.
  - discriminate.
  - intros [|[|[|k]]] Hk; reflexivity.
  - reflexivity.
  - assert (E : output = "hello").
    { rewrite H6. unfold extractOutput. rewrite H3, H4, H5. reflexivity. }
    rewrite E in *. exists w1, w2, w3. repeat split; assumption.
Defined.

(** ** The walk of the state *)

Lemma run_cons (op : Op) (ops : list Op) (w : World) (ws : list World)
    (rs : list Ret) :
  run (op :: ops) w = Some (ws, rs) ->
  exists w' r ev ws' rs',
    step op w = Some (w', r, ev) /\ run ops w' = Some (ws', rs')
    /\ ws = w' :: ws' /\ rs = r :: rs'.
Proof.
  cbn [run]. destruct (step op w) as [[[w' r] ev]|]; [|discriminate].
  destruct (run ops w') as [[ws' rs']|] eqn:R; [|discriminate].
  intros [= <- <-]. exists w', r, ev, ws', rs'. repeat split. exact R.
Qed.

(** X11.  Whatever the engine is asked to do, and in whatever order its
    goroutines take their turns, the state moves along the edges of the
    state graph, or from [unrecoverable] to [locked]: it makes no other
    change. *)
Theorem states_walk (ops : list Op) (w : World) (l : list State) :
  states ops w = Some l -> walk l = true.
Proof.
  unfold states. revert w l. induction ops as [|op ops IH]; intros w l.
  - cbn. now intros [= <-].
  - destruct (run (op :: ops) w) as [[ws rs]|] eqn:R; [|discriminate].
    intros [= <-].
    destruct (run_cons _ _ _ _ _ R) as (w' & r & ev & ws' & rs' & S & R' & -> & ->).
    cbn [map].
    change (allowed_or_late (state (shell w)) (state (shell w'))
            && walk (state (shell w') :: map (fun x => state (shell x)) ws')
            = true).
    rewrite (step_allowed_or_late _ _ _ _ _ S). cbn [andb].
    apply (IH w'). now rewrite R'.
Qed.

(** The states of the run of two requests at once. *)
Lemma two_executes_states :
  states two_executes (init "/bin/bash" "" 5000000000)
  = Some [StateAvailable; StateLocked; StateExecuting; StateLocked;
          StateExecuting; StateExecuting; StateUnrecoverable; StateLocked].
Proof. reflexivity. Qed.

(** The run of two requests at once: it leaves the graph, and stays in the
    walk. *)
Lemma states_walk_witness :
  walk [StateAvailable; StateLocked; StateExecuting; StateLocked;
        StateExecuting; StateExecuting; StateUnrecoverable; StateLocked]
  = true.
Proof.
  exact (states_walk two_executes (init "/bin/bash" "" 5000000000)
           [StateAvailable; StateLocked; StateExecuting; StateLocked;
            StateExecuting; StateExecuting; StateUnrecoverable; StateLocked]
           two_executes_states).
Defined.

(** ** A shell left [executing] *)

Lemma keeps_session_spec (op : Op) :
  keeps_session op = true -> forall exited, op <> OpUnlock exited.
Proof. destruct op; cbn; congruence. Qed.

(** X12.  Once no call waits and no reader runs, a shell in state
    [executing] stays so until [Unlock] is called: every call of [Execute]
    is refused, and no other step changes the state. *)
Theorem executing_until_unlock (ops : list Op) (w : World)
    (ws : list World) (rs : list Ret) :
  state (shell w) = StateExecuting ->
  waiters w = [] ->
  (forall i m, nth_error (readers w) i <> Some (Some m)) ->
  forallb keeps_session ops = true ->
  run ops w = Some (ws, rs) ->
  Forall (fun w' => state (shell w') = StateExecuting) ws
  /\ Forall (fun r => forall output e, r = RetExecute output e ->
                        e = Some (ErrNotReady StateExecuting)) rs.
Proof.
  revert w ws rs. induction ops as [|op ops IH]; intros w ws rs S W R K H.
  - cbn in H. injection H as <- <-. split; constructor.
  - cbn [forallb] in K. apply andb_true_iff in K as [K1 K2].
    destruct (run_cons _ _ _ _ _ H) as (w' & r & ev & ws' & rs' & St & R' & -> & ->).
    destruct (stuck_executing op w w' r ev S W R (keeps_session_spec _ K1) St)
      as (S' & W' & Rd' & Ex).
    destruct (IH w' ws' rs' S' W' Rd' K2 R') as [F1 F2].
    split; constructor; assumption.
Qed.

(** The shell of [timeout_then_eof], asked to run a command, to start, to
    interrupt, and for its state. *)
Lemma executing_until_unlock_witness :
  let w := mkWorld (mkShell StateExecuting (Some 7) (Some 3) "" 5000000000
                      "/bin/bash" "" "" (Some 0) "sleep 1; exit"
                      "<<<SHELLD_START_1>>>" "<<<SHELLD_END_1>>>")
             [Some (Some ErrTerminated)] [] [None] in
  let ops := [OpExecute "echo hi" 300000000000 2 None;
              OpStart 3 (Spawned 8 4 [ReadBytes "<<<SHELLD_READY_3>>>"]);
              OpKill None; OpState] in
  final timeout_then_eof (init "/bin/bash" "" 5000000000) = Some w
  /\ match run ops w with
     | Some (ws, rs) =>
         Forall (fun w' => state (shell w') = StateExecuting) ws
         /\ Forall (fun r => forall output e, r = RetExecute output e ->
                               e = Some (ErrNotReady StateExecuting)) rs
     | None => False
     end.
Proof.
  intros w ops. split; [reflexivity|].
  exact (executing_until_unlock ops w _ _ eq_refl eq_refl
           ltac:(intros [|[|i]] m; discriminate) eq_refl eq_refl).
Defined.

(** ** What the fields say about each other *)

Lemma Start_outcome (now : Z) (spawn : SpawnResult) (sh : Shell.Shell) :
  (state sh <> StateAvailable /\ fst (fst (Start now spawn sh)) = sh)
  \/ (state sh = StateAvailable
      /\ ((state (fst (fst (Start now spawn sh))) = StateLocked
           /\ ptyFile (fst (fst (Start now spawn sh))) <> None)
          \/ state (fst (fst (Start now spawn sh))) = StateUnrecoverable)).
Proof.
  destruct sh as [st c p b g sc wd lo cd cc sm em]. unfold Start. shell_fields.
  destruct st; cbn [State_eqb negb fst snd];
    try (left; split; [discriminate | reflexivity]).
  right. split; [reflexivity|].
  destruct spawn as [cause|pid fd reads]; cbv zeta; shell_fields;
    [now right|].
  match goal with
  | |- context [waitForOutput ?m ?r ?x] =>
      destruct (waitForOutput_buffer m r x) as [buffer B];
      destruct (waitForOutput m r x) as [sh' [err|]]
  end; cbn [fst] in B; subst sh'; shell_fields.
  - right. reflexivity.
  - left. split; [reflexivity | discriminate].
Qed.

Lemma Start_child (now : Z) (spawn : SpawnResult) (sh : Shell.Shell) :
  (ptyFile sh <> None -> cmd sh <> None) ->
  ptyFile (fst (fst (Start now spawn sh))) <> None ->
  cmd (fst (fst (Start now spawn sh))) <> None.
Proof.
  destruct sh as [st c p b g sc wd lo cd cc sm em]. unfold Start. shell_fields.
  intros T. destruct (negb _); [exact T|].
  destruct spawn as [cause|pid fd reads]; cbv zeta; shell_fields; [exact T|].
  match goal with
  | |- context [waitForOutput ?m ?r ?x] =>
      destruct (waitForOutput_buffer m r x) as [buffer B];
      destruct (waitForOutput m r x) as [sh' [err|]]
  end; cbn [fst] in B; subst sh'; shell_fields.
  - unfold cleanup. cbn. congruence.
  - cbn. discriminate.
Qed.

(** Every step keeps the fields coherent. *)
Lemma step_coherent (op : Op) (w w' : World) (r : Ret) (ev : list Event) :
  coherent (shell w) -> step op w = Some (w', r, ev) -> coherent (shell w').
Proof.
  unfold coherent. intros (T & A & X) H. destruct op; cbn [step] in H.
  - pose proof (Start_outcome now spawn (shell w)) as O.
    pose proof (Start_child now spawn (shell w)) as C.
    destruct (Start now spawn (shell w)) as [[sh err] e]. injection H as <- _ _.
    cbn [fst] in O, C. open_world w.
    specialize (C T). split; [exact C|].
    destruct O as [[Hn E]|[Ha [[E Hp]|E]]];
      [subst sh; fields; auto | rewrite E; split; auto; discriminate ..].
  - unfold Execute_begin in H. open_world w.
    destruct st; cbn [State_eqb negb] in H;
      try (injection H as <- _ _; fields; now repeat split).
    cbv zeta in H. fields.
    destruct p; [destruct werr|]; injection H as <- _ _; fields;
      (split; [exact T|split; discriminate]).
  - destruct (is_waiter done (waiters w)); [|discriminate].
    destruct (nth_error (chans w) done) as [[[e|]|]|]; try discriminate;
      open_world w; cbn [Execute_receive] in H; fields;
      injection H as <- _ _; fields; (split; [exact T|split; discriminate]).
  - destruct (is_waiter done (waiters w)); [|discriminate].
    cbn [Execute_timeout] in H. injection H as <- _ _. open_world w.
    now repeat split.
  - destruct (reader_begin _ _ _ _ _ H) as (-> & _). now repeat split.
  - destruct (reader_turn _ _ _ _ _ _ H)
      as (v & _ & _ & _
          & [[-> _]|[(data & _ & _ & ->)|(data & out & _ & _ & ->)]]);
      [now repeat split | open_world w; now repeat split |].
    open_world w. split; [exact T|split; discriminate].
  - unfold Kill in H. open_world w. destruct p; [destruct werr|];
      injection H as <- _ _; now repeat split.
  - unfold Unlock in H. open_world w. destruct c.
    + destruct p; cbv zeta in H; fields; injection H as <- _ _; fields;
        (split; [congruence | split; [reflexivity | discriminate]]).
    + injection H as <- _ _. fields.
      split; [exact T | split; [reflexivity | discriminate]].
  - injection H as <- _ _. now repeat split.
  - injection H as <- _ _. now repeat split.
Qed.
(** X13.  In every state the engine reaches from [NewShell], whatever the
    order of the steps, a reader's append after an [Unlock] included: the
    master side is recorded only with a child, no child is recorded in state
    [available], and the master side is open in state [executing]. *)
Theorem reachable_coherent (ops : list Op) (w : World)
    (shellCommand workingDirectory : string) (killGracePeriod : Z) :
  final ops (init shellCommand workingDirectory killGracePeriod) = Some w ->
  coherent (shell w).
Proof.
  assert (G : forall ops w0, coherent (shell w0) -> final ops w0 = Some w ->
                             coherent (shell w)).
  { clear. induction ops as [|op ops IH]; intros w0 C H; cbn [final] in H.
    - now injection H as <-.
    - destruct (step op w0) as [[[w1 r] ev]|] eqn:E; [|discriminate].
      exact (IH w1 (step_coherent _ _ _ _ _ C E) H). }
  apply G. cbn. repeat split; try discriminate; auto.
Qed.

(** The shell at the end of the run of two requests at once. *)
Lemma two_executes_final :
  exists w, final two_executes (init "/bin/bash" "" 5000000000) = Some w
            /\ shell w
               = mkShell StateLocked (Some 7) (Some 3) "" 5000000000
                   "/bin/bash" "" "" (Some 1) "exit" "<<<SHELLD_START_2>>>"
                   "<<<SHELLD_END_2>>>".
Proof. eexists; split; [cbv; reflexivity | reflexivity]. Qed.

(** The state the run of two requests at once ends in. *)
Lemma reachable_coherent_witness :
  coherent (mkShell StateLocked (Some 7) (Some 3) "" 5000000000 "/bin/bash" ""
              "" (Some 1) "exit" "<<<SHELLD_START_2>>>" "<<<SHELLD_END_2>>>").
Proof.
  destruct two_executes_final as (w & F & <-).
  exact (reachable_coherent two_executes w "/bin/bash" "" 5000000000 F).
Defined.

(** ** What takes the state where *)

(** X14.  What changes the state.  A step that changes the state is: a call
    of [Unlock], the only way to [available]; a call of [Execute] accepted
    in state [locked], the only way to [executing]; to [locked], a call of
    [Start] that succeeds in state [available], the turn of a reader that
    sees the end marker, or the receive of a completion by a waiting call of
    [Execute]; to [unrecoverable], a call of [Start] that fails in state
    [available], a call of [Execute] whose write fails in state [locked], or
    the receive of an error by a waiting call of [Execute]. *)
Theorem transition_causes (op : Op) (w w' : World) (r : Ret) (ev : list Event) :
  step op w = Some (w', r, ev) ->
  state (shell w') <> state (shell w) ->
  match state (shell w') with
  | StateAvailable => exists exited, op = OpUnlock exited
  | StateExecuting =>
      state (shell w) = StateLocked
      /\ exists command timeout now, op = OpExecute command timeout now None
  | StateLocked =>
      (state (shell w) = StateAvailable
       /\ r = RetError None /\ exists now spawn, op = OpStart now spawn)
      \/ (r = RetReader (Some None)
          /\ exists reader data, op = OpRead reader (ReadBytes data))
      \/ (exists output done, r = RetExecute output None /\ op = OpReceive done)
  | StateUnrecoverable =>
      (state (shell w) = StateAvailable
       /\ exists now spawn e, op = OpStart now spawn /\ r = RetError (Some e))
      \/ (state (shell w) = StateLocked
          /\ exists command timeout now werr cause,
               op = OpExecute command timeout now werr
               /\ r = RetExecute "" (Some (ErrWrite cause)))
      \/ (exists done e, op = OpReceive done /\ r = RetExecute "" (Some e))
  end.
Proof.
  intros H. destruct op; cbn [step] in H.
  - pose proof (Start_outcome now spawn (shell w)) as O.
    destruct (Start now spawn (shell w)) as [[sh err] e] eqn:E.
    injection H as <- <- _. cbn [fst snd] in *. open_world w.
    destruct O as [[_ ->]|[-> [[O _]|O]]];
      [intros N; now destruct N | rewrite O ..]; intros _.
    + left. split; [reflexivity|]. split; [|eauto].
      destruct err as [x|]; [|reflexivity].
      unfold Start in E. cbn [State_eqb negb] in E. shell_fields.
      destruct spawn as [cause|pid fd reads]; cbv zeta in E; shell_fields.
      * injection E as <- _ _. discriminate.
      * match type of E with
        | context [waitForOutput ?m ?rd ?x] =>
            destruct (waitForOutput_buffer m rd x) as [buffer B];
            destruct (waitForOutput m rd x) as [sh' [err'|]]
        end; cbn [fst] in B; subst sh'; unfold cleanup in E; cbn in E;
          injection E as <- ?; [discriminate | congruence].
    + left. split; [reflexivity|].
      destruct err as [x|]; [eauto|].
      unfold Start in E. cbn [State_eqb negb] in E. shell_fields.
      destruct spawn as [cause|pid fd reads]; cbv zeta in E; shell_fields.
      * injection E as _ ? _. discriminate.
      * match type of E with
        | context [waitForOutput ?m ?rd ?x] =>
            destruct (waitForOutput_buffer m rd x) as [buffer B];
            destruct (waitForOutput m rd x) as [sh' [err'|]]
        end; cbn [fst] in B; subst sh'; unfold cleanup in E; cbn in E;
          injection E as <- ?; [congruence | discriminate].
  - unfold Execute_begin in H. open_world w.
    destruct st; cbn [State_eqb negb] in H;
      try (injection H as <- _ _; fields; congruence).
    cbv zeta in H. fields.
    destruct p; [destruct werr|]; injection H as <- <- _; fields; intros _.
    + right. left. split; [reflexivity|]. eauto 8.
    + split; [reflexivity|]. eauto.
    + right. left. split; [reflexivity|]. eauto 8.
  - destruct (is_waiter done (waiters w)); [|discriminate].
    destruct (nth_error (chans w) done) as [[[e|]|]|]; try discriminate;
      open_world w; cbn [Execute_receive] in H; fields;
      injection H as <- <- _; fields; intros _.
    + right. right. eauto.
    + right. right. eauto.
  - destruct (is_waiter done (waiters w)); [|discriminate].
    cbn [Execute_timeout] in H. injection H as <- _ _. fields. congruence.
  - destruct (reader_begin _ _ _ _ _ H) as (-> & _). congruence.
  - destruct (reader_turn _ _ _ _ _ _ H)
      as (v & -> & _ & _
          & [[-> _]|[(data & _ & _ & ->)|(data & out & -> & -> & ->)]]);
      [congruence | open_world w; congruence |].
    open_world w. intros _. right. left. eauto.
  - unfold Kill in H. open_world w. destruct p; [destruct werr|];
      injection H as <- _ _; fields; congruence.
  - unfold Unlock in H. open_world w. destruct c.
    + destruct p; cbv zeta in H; fields; injection H as <- _ _; fields; eauto.
    + injection H as <- _ _. fields. eauto.
  - injection H as <- _ _. congruence.
  - injection H as <- _ _. congruence.
Qed.

(** [Unlock] in state [locked]. *)
Lemma transition_causes_witness :
  exists exited, OpUnlock true = OpUnlock exited.
Proof.
  apply (transition_causes (OpUnlock true)
           (mkWorld (mkShell StateLocked (Some 7) (Some 3) "" 5 "/bin/bash" ""
                       "" None "" "" "") [] [] [])
           (mkWorld (mkShell StateAvailable None None "" 5 "/bin/bash" ""
                       "" None "" "" "") [] [] [])
           (RetError None)
           [EvPtyWrite (Some 3) ("exit" ++ LF); EvPtyClose 3; EvWait 7]).
  - reflexivity.
  - discriminate.
Defined.

(** ** A reader that outlives the shell *)

(** X26.  [Unlock] does not wait for the readers.  A reader that is inside
    [Read] when [Unlock] ends the shell appends the bytes its [Read] returns
    to the buffer [Unlock] has just emptied, with no child and no master
    side recorded.  When the buffer then does not contain the end marker
    sequence, the state stays [available] and the last-output slot is
    kept; the reader finds the master side gone at its next check and ends
    by sending [ErrClosed], which changes nothing in the shell.  When it
    contains the sequence, the reader overwrites the last-output slot and
    sets the state to [locked]: the shell is [locked] with no child, and
    every [Start] is refused. *)
Theorem read_after_Unlock (w : World) (r : nat) (m : string) (exited : bool)
    (data : string) :
  nth_error (readers w) r = Some (Some (m, true)) ->
  cmd (shell w) <> None ->
  exists w1 ev w2 v,
    step (OpUnlock exited) w = Some (w1, RetError None, ev)
    /\ step (OpRead r (ReadBytes data)) w1 = Some (w2, RetReader v, [])
    /\ cmd (shell w2) = None
    /\ ptyFile (shell w2) = None
    /\ outputBuffer (shell w2) = data
    /\ (Contains data m = false ->
        v = None
        /\ state (shell w2) = StateAvailable
        /\ lastOutput (shell w2) = lastOutput (shell w)
        /\ exists w3,
             step (OpReadBegin r) w2
             = Some (w3, RetReader (Some (Some ErrClosed)), [])
             /\ shell w3 = shell w2)
    /\ (Contains data m = true ->
        v = Some None
        /\ state (shell w2) = StateLocked
        /\ lastOutput (shell w2)
           = extractOutput (set_outputBuffer data (shell w1))
               (currentCommand (shell w))
        /\ forall now spawn,
             Start now spawn (shell w2)
             = (shell w2, Some (ErrCannotStart StateLocked), [])).
Proof.
  intros R C. open_world w. destruct c as [pid|]; [clear C | congruence].
  assert (U : exists ev,
             Unlock exited (mkShell st (Some pid) p b g sc wd lo cd cc sm em)
             = (mkShell StateAvailable None None "" g sc wd lo cd cc sm em,
                None, ev)).
  { unfold Unlock. fields. destruct p; cbv zeta; fields; eauto. }
  destruct U as [ev U].
  assert (A : step (OpUnlock exited)
                (mkWorld (mkShell st (Some pid) p b g sc wd lo cd cc sm em)
                   cs ws rs)
              = Some (mkWorld
                        (mkShell StateAvailable None None "" g sc wd lo cd cc
                           sm em) cs ws rs,
                      RetError None, ev))
    by (cbn [step]; fields; now rewrite U).
  exists (mkWorld (mkShell StateAvailable None None "" g sc wd lo cd cc sm em)
            cs ws rs), ev.
  assert (B : step (OpRead r (ReadBytes data))
                (mkWorld
                   (mkShell StateAvailable None None "" g sc wd lo cd cc sm em)
                   cs ws rs)
              = match readUntilMarker_read m (ReadBytes data)
                        (mkShell StateAvailable None None "" g sc wd lo cd cc
                           sm em) with
                | (sh, None) =>
                    Some (mkWorld sh cs ws (update r (Some (m, false)) rs),
                          RetReader None, [])
                | (sh, Some v) =>
                    Some (mkWorld sh (send (commandDone sh) v cs) ws
                            (update r None rs), RetReader (Some v), [])
                end)
    by (cbn [step]; fields; now rewrite R).
  rewrite A, B. clear A B. unfold readUntilMarker_read. cbv zeta. fields.
  cbn [append].
  destruct (Contains data m) eqn:E; eexists; eexists;
    (split; [reflexivity|]); (split; [reflexivity|]); fields;
    repeat split; try discriminate.
  eexists. cbn [step]. fields.
  rewrite (nth_error_update r (Some (m, false)) (Some (m, true)) rs R).
  unfold readUntilMarker_begin. fields. split; reflexivity.
Qed.

(** [sleep 30] is unlocked while its reader is inside [Read], and the
    [Read] returns the end marker line of the command. *)
Lemma read_after_Unlock_witness :
  let w := mkWorld (mkShell StateExecuting (Some 7) (Some 3) "" 5000000000
                      "/bin/bash" "" "" (Some 0) "sleep 30"
                      "<<<SHELLD_START_1>>>" "<<<SHELLD_END_1>>>")
             [None] [0] [Some (LF ++ "<<<SHELLD_END_1>>>" ++ CRLF, true)] in
  final (firstn 3 read_after_unlock) (init "/bin/bash" "" 5000000000) = Some w
  /\ exists w1 w2,
       step (OpUnlock true) w
       = Some (w1, RetError None,
               [EvPtyWrite (Some 3) ("exit" ++ LF); EvPtyClose 3; EvWait 7])
       /\ step (OpRead 0 (ReadBytes (CRLF ++ "<<<SHELLD_END_1>>>" ++ CRLF))) w1
          = Some (w2, RetReader (Some None), [])
       /\ state (shell w2) = StateLocked
       /\ cmd (shell w2) = None.
Proof.
  intros w. split; [reflexivity|].
  destruct (read_after_Unlock w 0 (LF ++ "<<<SHELLD_END_1>>>" ++ CRLF) true
              (CRLF ++ "<<<SHELLD_END_1>>>" ++ CRLF))
    as (w1 & ev & w2 & v & H1 & H2 & H3 & _ & _ & _ & H4);
    [reflexivity | discriminate |].
  destruct (H4 eq_refl) as (-> & H5 & _).
  exists w1, w2. split; [|now repeat split].
  rewrite H1. f_equal. f_equal.
  assert (E : step (OpUnlock true) w
              = Some (w1, RetError None, ev)) by exact H1.
  cbn in E. now injection E as _ <-.
Defined.

End EngineFacts.

(** * The configuration *)

Module ConfigFacts.
Import Config.

Ltac cfields :=
  cbn [Server Shell Timeout Hooks Port DieOnUnlock Command WorkingDirectory
       TimeoutCommand CommandMaximum Idle Shutdown Kill HooksShell Lock Unlock
       CommandDuration CommandMaximumDuration IdleDuration ShutdownDuration
       KillDuration] in *.

Ltac open_config cfg :=
  destruct cfg as [[port die] [command dir]
                     [tc tm ti ts tk dc dm di ds dk] [hs hl hu]].

(** [applyDefaults], field by field. *)
Lemma applyDefaults_fields (cfg : Config) :
  applyDefaults cfg
  = mkConfig
      (mkServerConfig
         (if (Port (Server cfg) =? 0)%Z then defaultPort else Port (Server cfg))
         (Some match DieOnUnlock (Server cfg) with
               | Some b => b
               | None => true
               end))
      (mkShellConfig
         (if Command (Shell cfg) =? "" then defaultShell else Command (Shell cfg))
         (WorkingDirectory (Shell cfg)))
      (mkTimeoutConfig
         (if TimeoutCommand (Timeout cfg) =? "" then defaultCommandTimeout
          else TimeoutCommand (Timeout cfg))
         (if CommandMaximum (Timeout cfg) =? "" then defaultCommandMaxTimeout
          else CommandMaximum (Timeout cfg))
         (if Idle (Timeout cfg) =? "" then defaultIdleTimeout
          else Idle (Timeout cfg))
         (if Shutdown (Timeout cfg) =? "" then defaultShutdownTimeout
          else Shutdown (Timeout cfg))
         (if Kill (Timeout cfg) =? "" then defaultKillTimeout
          else Kill (Timeout cfg))
         (CommandDuration (Timeout cfg)) (CommandMaximumDuration (Timeout cfg))
         (IdleDuration (Timeout cfg)) (ShutdownDuration (Timeout cfg))
         (KillDuration (Timeout cfg)))
      (mkHooksConfig
         (if HooksShell (Hooks cfg) =? "" then defaultHookShell
          else HooksShell (Hooks cfg))
         (Lock (Hooks cfg)) (Unlock (Hooks cfg))).
Proof.
  open_config cfg. unfold applyDefaults.
  cbn [Server Shell Timeout Hooks Port DieOnUnlock Command WorkingDirectory
       TimeoutCommand CommandMaximum Idle Shutdown Kill HooksShell Lock Unlock
       CommandDuration CommandMaximumDuration IdleDuration ShutdownDuration
       KillDuration].
  f_equal.
  - destruct (port =? 0)%Z; now destruct die.
  - now destruct (command =? "").
  - destruct (tc =? ""); cbn [TimeoutCommand CommandMaximum Idle Shutdown Kill
                               CommandDuration CommandMaximumDuration
                               IdleDuration ShutdownDuration KillDuration];
      (destruct (tm =? "");
       cbn [TimeoutCommand CommandMaximum Idle Shutdown Kill
            CommandDuration CommandMaximumDuration
            IdleDuration ShutdownDuration KillDuration];
       (destruct (ti =? "");
        cbn [TimeoutCommand CommandMaximum Idle Shutdown Kill
             CommandDuration CommandMaximumDuration
             IdleDuration ShutdownDuration KillDuration];
        (destruct (ts =? "");
         cbn [TimeoutCommand CommandMaximum Idle Shutdown Kill
              CommandDuration CommandMaximumDuration
              IdleDuration ShutdownDuration KillDuration];
         now destruct (tk =? "")))).
  - now destruct (hs =? "").
Qed.

Lemma filled (s d : string) : d <> "" -> (if s =? "" then d else s) <> "".
Proof. intros N. destruct s; cbn; [exact N | discriminate]. Qed.

Lemma filled_twice (s d : string) :
  (if (if s =? "" then d else s) =? "" then d else (if s =? "" then d else s))
  = (if s =? "" then d else s).
Proof. destruct s; cbn; [now destruct d | reflexivity]. Qed.

Lemma filled_set (s d : string) : s <> "" -> (if s =? "" then d else s) = s.
Proof. destruct s; cbn; congruence. Qed.

(** X15.  [applyDefaults] fills what is not set, and only that.  After it no
    field it looks at has its zero value; a field that is set is kept, and
    so are the fields it does not look at; applied twice it does what it
    does once.  A port of 0 counts as not set and becomes 8080, while
    [die_on_unlock = false] is a set value and is kept: only the nil pointer
    becomes [true]. *)
Theorem applyDefaults_fills (cfg : Config) :
  let cfg' := applyDefaults cfg in
  complete cfg'
  /\ applyDefaults cfg' = cfg'
  /\ (complete cfg -> cfg' = cfg)
  /\ Port (Server cfg') = (if (Port (Server cfg) =? 0)%Z then 8080%Z
                           else Port (Server cfg))
  /\ DieOnUnlock (Server cfg')
     = Some match DieOnUnlock (Server cfg) with
            | Some b => b
            | None => true
            end
  /\ WorkingDirectory (Shell cfg') = WorkingDirectory (Shell cfg)
  /\ Lock (Hooks cfg') = Lock (Hooks cfg)
  /\ Unlock (Hooks cfg') = Unlock (Hooks cfg)
  /\ (Command (Shell cfg) <> "" -> Command (Shell cfg') = Command (Shell cfg))
  /\ (HooksShell (Hooks cfg) <> "" ->
      HooksShell (Hooks cfg') = HooksShell (Hooks cfg))
  /\ (forall field text,
        In (field, text) (duration_fields cfg) -> text <> "" ->
        In (field, text) (duration_fields cfg')).
Proof.
  intros cfg'. subst cfg'.
  split; [|split; [|split]].
  - rewrite applyDefaults_fields. unfold complete. cbn.
    repeat split; try (apply filled; discriminate); try discriminate.
    destruct (_ =? 0)%Z eqn:E; [discriminate | now apply Z.eqb_neq].
  - rewrite (applyDefaults_fields (applyDefaults cfg)).
    rewrite !applyDefaults_fields. cbn. rewrite !filled_twice.
    repeat f_equal. destruct (Port (Server cfg) =? 0)%Z eqn:E; [reflexivity|].
    now rewrite E.
  - intros (Hp & Hd & H1 & H2 & H3 & H4 & H5 & H6 & H7).
    rewrite applyDefaults_fields. open_config cfg. cfields.
    apply Z.eqb_neq in Hp. rewrite Hp.
    rewrite (filled_set command), (filled_set tc), (filled_set tm),
      (filled_set ti), (filled_set ts), (filled_set tk), (filled_set hs)
      by assumption.
    destruct die; [reflexivity | congruence].
  - rewrite applyDefaults_fields. cbn.
    repeat split; try (intros; now apply filled_set).
    intros field text H N. unfold duration_fields in *. cfields.
    cbn [In] in *.
    destruct H as [H|[H|[H|[H|[H|[]]]]]]; injection H as <- E; rewrite E;
      rewrite (filled_set text) by assumption; auto 6.
Qed.

(** ** [Load] *)

(** [parseDurations], by the first text that does not parse. *)
Lemma parseDurations_cases (P : string -> option Z) (cfg : Config) :
  (exists d1 d2 d3 d4 d5,
     map (fun f => P (snd f)) (duration_fields cfg)
     = [Some d1; Some d2; Some d3; Some d4; Some d5]
     /\ parseDurations P cfg = (set_durations d1 d2 d3 d4 d5 cfg, None))
  \/ (exists before field text after,
        duration_fields cfg = (before ++ (field, text) :: after)%list
        /\ P text = None
        /\ Forall (fun f => P (snd f) <> None) before
        /\ snd (parseDurations P cfg) = Some (ErrDuration field)).
Proof.
  unfold parseDurations, parsed, duration_fields. cbn [map snd].
  destruct (P (TimeoutCommand (Timeout cfg))) as [d1|] eqn:E1.
  2:{ right. exists [], "timeout.command", (TimeoutCommand (Timeout cfg)).
      eexists. repeat split; [exact E1 | constructor]. }
  destruct (P (CommandMaximum (Timeout cfg))) as [d2|] eqn:E2.
  2:{ right. exists [("timeout.command", TimeoutCommand (Timeout cfg))],
        "timeout.command_maximum", (CommandMaximum (Timeout cfg)).
      eexists. repeat split; [exact E2|].
      repeat constructor; cbn; congruence. }
  destruct (P (Idle (Timeout cfg))) as [d3|] eqn:E3.
  2:{ right. exists [("timeout.command", TimeoutCommand (Timeout cfg));
                     ("timeout.command_maximum", CommandMaximum (Timeout cfg))],
        "timeout.idle", (Idle (Timeout cfg)).
      eexists. repeat split; [exact E3|].
      repeat constructor; cbn; congruence. }
  destruct (P (Shutdown (Timeout cfg))) as [d4|] eqn:E4.
  2:{ right. exists [("timeout.command", TimeoutCommand (Timeout cfg));
                     ("timeout.command_maximum", CommandMaximum (Timeout cfg));
                     ("timeout.idle", Idle (Timeout cfg))],
        "timeout.shutdown", (Shutdown (Timeout cfg)).
      eexists. repeat split; [exact E4|].
      repeat constructor; cbn; congruence. }
  destruct (P (Kill (Timeout cfg))) as [d5|] eqn:E5.
  2:{ right. exists [("timeout.command", TimeoutCommand (Timeout cfg));
                     ("timeout.command_maximum", CommandMaximum (Timeout cfg));
                     ("timeout.idle", Idle (Timeout cfg));
                     ("timeout.shutdown", Shutdown (Timeout cfg))],
        "timeout.kill", (Kill (Timeout cfg)).
      eexists. repeat split; [exact E5|].
      repeat constructor; cbn; congruence. }
  left. exists d1, d2, d3, d4, d5. split; reflexivity.
Qed.

Lemma validate_cases (cfg : Config) :
  (validate cfg = None /\ (1 <= Port (Server cfg) <= 65535)%Z)
  \/ (validate cfg = Some (ErrPort (Port (Server cfg)))
      /\ (Port (Server cfg) < 1 \/ 65535 < Port (Server cfg))%Z).
Proof.
  unfold validate.
  destruct (Port (Server cfg) <? 1)%Z eqn:A;
    destruct (Port (Server cfg) >? 65535)%Z eqn:B; cbn [orb]; [right..|left];
    split; try reflexivity; lia.
Qed.

Lemma set_durations_fields (d1 d2 d3 d4 d5 : Z) (cfg : Config) :
  Server (set_durations d1 d2 d3 d4 d5 cfg) = Server cfg
  /\ Shell (set_durations d1 d2 d3 d4 d5 cfg) = Shell cfg
  /\ Hooks (set_durations d1 d2 d3 d4 d5 cfg) = Hooks cfg
  /\ duration_fields (set_durations d1 d2 d3 d4 d5 cfg) = duration_fields cfg.
Proof. now open_config cfg. Qed.

(** X16.  When [Load] accepts a file.  [Load] returns a configuration
    exactly when the file can be read and parsed, the five timeouts, with
    the defaults in the place of those the file leaves out, all parse as
    durations, and the port, 8080 when the file leaves it out or gives 0, is
    between 1 and 65535.  The configuration returned is the one of the file
    with the defaults and the parsed durations.  Nothing else is checked:
    the durations may be zero or negative, and the command timeout may
    exceed its maximum. *)
Theorem Load_accepts (P : string -> option Z) (U : string -> Config + string)
    (file : string + string) (loaded : Config) :
  Load P U file = inl loaded
  <-> exists data cfg d1 d2 d3 d4 d5,
        file = inl data
        /\ U data = inl cfg
        /\ map (fun f => P (snd f)) (duration_fields (applyDefaults cfg))
           = [Some d1; Some d2; Some d3; Some d4; Some d5]
        /\ (1 <= Port (Server (applyDefaults cfg)) <= 65535)%Z
        /\ loaded = set_durations d1 d2 d3 d4 d5 (applyDefaults cfg).
Proof.
  unfold Load. split.
  - destruct file as [data|cause]; [|discriminate].
    destruct (U data) as [cfg|cause] eqn:EU; [|discriminate].
    destruct (parseDurations_cases P (applyDefaults cfg))
      as [(d1 & d2 & d3 & d4 & d5 & M & ->)|(b & f & t & a & _ & _ & _ & E)].
    + destruct (validate_cases (set_durations d1 d2 d3 d4 d5 (applyDefaults cfg)))
        as [[-> V]|[-> _]]; [|discriminate].
      intros [= <-]. exists data, cfg, d1, d2, d3, d4, d5.
      destruct (set_durations_fields d1 d2 d3 d4 d5 (applyDefaults cfg))
        as (S & _). rewrite S in V. auto.
    + destruct (parseDurations P (applyDefaults cfg)) as [c e].
      cbn [snd] in E. subst e. discriminate.
  - intros (data & cfg & d1 & d2 & d3 & d4 & d5 & -> & -> & M & V & ->).
    destruct (parseDurations_cases P (applyDefaults cfg))
      as [(e1 & e2 & e3 & e4 & e5 & M' & ->)
         |(b & f & t & a & D & N & F & _)].
    + rewrite M in M'. injection M' as <- <- <- <- <-.
      destruct (validate_cases (set_durations d1 d2 d3 d4 d5 (applyDefaults cfg)))
        as [[-> _]|[_ W]]; [reflexivity|].
      destruct (set_durations_fields d1 d2 d3 d4 d5 (applyDefaults cfg))
        as (S & _). rewrite S in W. lia.
    + exfalso. rewrite D, map_app in M. cbn [map snd] in M.
      assert (In (P t) [Some d1; Some d2; Some d3; Some d4; Some d5]).
      { rewrite <- M. apply in_or_app. right. now left. }
      rewrite N in H. cbn in H. intuition discriminate.
Qed.

(** X17.  What a loaded configuration gives.  Every configuration [Load]
    returns has all the fields of [applyDefaults] set (so the pointer the
    unlock handler dereferences is not nil), a port between 1 and 65535,
    and, in each parsed field, the duration of the text beside it. *)
Theorem loaded_config_is_complete (P : string -> option Z)
    (U : string -> Config + string) (file : string + string) (loaded : Config) :
  Load P U file = inl loaded ->
  complete loaded
  /\ (1 <= Port (Server loaded) <= 65535)%Z
  /\ map (fun f => P (snd f)) (duration_fields loaded)
     = [Some (CommandDuration (Timeout loaded));
        Some (CommandMaximumDuration (Timeout loaded));
        Some (IdleDuration (Timeout loaded));
        Some (ShutdownDuration (Timeout loaded));
        Some (KillDuration (Timeout loaded))].
Proof.
  unfold Load.
  destruct file as [data|cause]; [|discriminate].
  destruct (U data) as [cfg|cause] eqn:EU; [|discriminate].
  destruct (parseDurations_cases P (applyDefaults cfg))
    as [(d1 & d2 & d3 & d4 & d5 & M & ->)|(b & f & t & a & _ & _ & _ & E)].
  - destruct (validate_cases (set_durations d1 d2 d3 d4 d5 (applyDefaults cfg)))
      as [[-> V]|[-> _]]; [|discriminate].
    intros [= <-].
    destruct (set_durations_fields d1 d2 d3 d4 d5 (applyDefaults cfg))
      as (S1 & S2 & S3 & S4).
    split; [|split; [exact V|]].
    + pose proof (applyDefaults_fields cfg) as A.
      assert (C : complete (applyDefaults cfg)).
      { rewrite A. unfold complete. cbn.
        repeat split; try (apply filled; discriminate); try discriminate.
        destruct (_ =? 0)%Z eqn:E; [discriminate | now apply Z.eqb_neq]. }
      revert C. unfold complete. rewrite S1, S2, S3.
      generalize (applyDefaults cfg). intros c. now open_config c.
    + rewrite S4, M. now destruct (applyDefaults cfg) as [? ? [] ?].
  - destruct (parseDurations P (applyDefaults cfg)) as [c e].
    cbn [snd] in E. subst e. discriminate.
Qed.

(** A file that sets nothing. *)
Lemma loaded_config_is_complete_witness :
  let loaded :=
    mkConfig (mkServerConfig 8080 (Some true)) (mkShellConfig "/bin/bash" "")
      (mkTimeoutConfig "5m" "30m" "30m" "30s" "5s" 300000000000 1800000000000
         1800000000000 30000000000 5000000000)
      (mkHooksConfig "/bin/sh" "" "") in
  Load Server.parseWholeDuration (fun _ => inl zero) (inl "") = inl loaded
  /\ complete loaded
  /\ (1 <= Port (Server loaded) <= 65535)%Z.
Proof.
  intros loaded.
  assert (L : Load Server.parseWholeDuration (fun _ => inl zero) (inl "")
              = inl loaded) by reflexivity.
  split; [exact L|].
  destruct (loaded_config_is_complete _ _ _ _ L) as (C & V & _). now split.
Defined.

(** X18.  When [Load] refuses a file, and with which error.  The first
    failure in this order is reported: the file cannot be read; it cannot be
    parsed; one of the timeouts, taken in the order command,
    command_maximum, idle, shutdown, kill and with the defaults filled in,
    does not parse as a duration; the port is below 1 or above 65535.  The
    port reported is the one of the file, and it is never 0. *)
Theorem Load_rejects (P : string -> option Z) (U : string -> Config + string)
    (file : string + string) (err : error) :
  Load P U file = inr err ->
  match err with
  | ErrRead cause => file = inr cause
  | ErrParse cause => exists data, file = inl data /\ U data = inr cause
  | ErrDuration field =>
      exists data cfg before text after,
        file = inl data /\ U data = inl cfg
        /\ duration_fields (applyDefaults cfg)
           = (before ++ (field, text) :: after)%list
        /\ P text = None
        /\ Forall (fun f => P (snd f) <> None) before
  | ErrPort port =>
      exists data cfg,
        file = inl data /\ U data = inl cfg
        /\ Forall (fun f => P (snd f) <> None)
             (duration_fields (applyDefaults cfg))
        /\ port = Port (Server cfg)
        /\ port <> 0%Z
        /\ (port < 1 \/ 65535 < port)%Z
  end.
Proof.
  unfold Load.
  destruct file as [data|cause]; [|now intros [= <-]].
  destruct (U data) as [cfg|cause] eqn:EU; [|intros [= <-]; eauto].
  destruct (parseDurations_cases P (applyDefaults cfg))
    as [(d1 & d2 & d3 & d4 & d5 & M & ->)|(b & f & t & a & D & N & F & E)].
  - destruct (validate_cases (set_durations d1 d2 d3 d4 d5 (applyDefaults cfg)))
      as [[-> _]|[-> V]]; [discriminate|].
    intros [= <-].
    destruct (set_durations_fields d1 d2 d3 d4 d5 (applyDefaults cfg))
      as (S & _). rewrite S in *.
    exists data, cfg. split; [reflexivity|]. split; [exact EU|]. split.
    + apply Forall_forall. intros f I.
      apply (in_map (fun f => P (snd f))) in I. rewrite M in I.
      cbn in I. intuition congruence.
    + assert (Hp : Port (Server (applyDefaults cfg))
                   = if (Port (Server cfg) =? 0)%Z then 8080%Z
                     else Port (Server cfg))
        by now rewrite applyDefaults_fields.
      rewrite Hp in *.
      destruct (Port (Server cfg) =? 0)%Z eqn:Z0; [lia|].
      apply Z.eqb_neq in Z0.
      destruct (DieOnUnlock (Server cfg)); cbn [Port];
        (split; [reflexivity | split; assumption]).
  - destruct (parseDurations P (applyDefaults cfg)) as [c e].
    cbn [snd] in E. subst e. intros [= <-].
    exists data, cfg, b, t, a. auto.
Qed.

(** A file with the port 99999. *)
Lemma Load_rejects_witness :
  let file := mkConfig (mkServerConfig 99999 None) (mkShellConfig "" "")
                (mkTimeoutConfig "" "" "" "" "" 0 0 0 0 0)
                (mkHooksConfig "" "" "") in
  Load Server.parseWholeDuration (fun _ => inl file) (inl "port = 99999")
  = inr (ErrPort 99999)
  /\ exists data cfg,
       inl "port = 99999" = @inl string string data
       /\ @inl Config string file = inl cfg
       /\ Forall (fun f => Server.parseWholeDuration (snd f) <> None)
            (duration_fields (applyDefaults cfg))
       /\ 99999%Z = Port (Server cfg)
       /\ 99999%Z <> 0%Z
       /\ (99999 < 1 \/ 65535 < 99999)%Z.
Proof.
  intros file.
  assert (L : Load Server.parseWholeDuration (fun _ => inl file)
                (inl "port = 99999") = inr (ErrPort 99999)) by reflexivity.
  split; [exact L|].
  exact (Load_rejects _ _ _ _ L).
Defined.

End ConfigFacts.

(** * The session controller *)

Module ServerFacts.
Import GoStrings StringFacts Shell ShellFacts Lifecycle Server.

(** Compute the fields of a server given by its fields. *)
Ltac sfields :=
  cbn [set_engine set_shell set_key set_stopped set_phase updateActivity shell
       cfg engine hooks lastActivity key phase stopped
       Engine.set_shell Engine.shell Engine.chans Engine.waiters
       Engine.readers fst snd] in *.

Ltac open_server server :=
  destruct server as [?cf [?esh ?ecs ?ews ?ers] ?h ?a ?k ?ph ?stp]; sfields.

Lemma eqb_false_iff (a b : string) : (a =? b) = false <-> a <> b.
Proof. apply String.eqb_neq. Qed.

Lemma routed_iff (request : Request) (method path : string) :
  routed request method path = true
  <-> Method request = method /\ Path request = path.
Proof. unfold routed. now rewrite andb_true_iff, !String.eqb_eq. Qed.

(** C7.  The two key gates.  On the lock endpoint an empty presented key is
    answered 401; when no key is bound the presented key becomes the bound
    key and the handler runs; when a key is bound, a presented key that
    differs from it is answered 401 and an equal one reaches the handler.
    On every other authenticated endpoint an absent presented key is
    answered 401, an absent bound key 409, a presented key that differs from
    the bound key 401, and only an equal key reaches the handler.  The
    routes say which gate an endpoint has. *)
Theorem key_gates (next : HandlerFunc) (env : Env) (request : Request)
    (server : serverInstance) :
  let providedKey := Get (Header request) "X-Shell-Key" in
  let required :=
    Some (Error "The X-Shell-Key header is required." StatusUnauthorized) in
  let mismatch :=
    Some (Error "The provided key does not match the locked key."
            StatusUnauthorized) in
  let not_locked :=
    Some (Error "The shell has not been locked." StatusConflict) in
  (* bind-or-match *)
  (providedKey = "" ->
     setKeyMiddleware next env request server = (server, required, []))
  /\ (providedKey <> "" -> key server = "" ->
        setKeyMiddleware next env request server
        = next env request
            (updateActivity (clock env) (set_key providedKey server)))
  /\ (providedKey <> "" -> key server <> "" -> providedKey <> key server ->
        setKeyMiddleware next env request server = (server, mismatch, []))
  /\ (providedKey <> "" -> providedKey = key server ->
        setKeyMiddleware next env request server
        = next env request (updateActivity (clock env) server))
  (* match *)
  /\ (providedKey = "" ->
        verifyKeyMiddleware next env request server = (server, required, []))
  /\ (providedKey <> "" -> key server = "" ->
        verifyKeyMiddleware next env request server = (server, not_locked, []))
  /\ (providedKey <> "" -> key server <> "" -> providedKey <> key server ->
        verifyKeyMiddleware next env request server = (server, mismatch, []))
  /\ (providedKey <> "" -> providedKey = key server ->
        verifyKeyMiddleware next env request server
        = next env request (updateActivity (clock env) server))
  (* the gate of each endpoint *)
  /\ (forall P,
        (routed request "POST" "/lock" = true ->
         ServeHTTP P env request server
         = setKeyMiddleware handleLock env request server)
        /\ (routed request "POST" "/execute" = true ->
            ServeHTTP P env request server
            = verifyKeyMiddleware (handleExecute P) env request server)
        /\ (routed request "POST" "/kill" = true ->
            ServeHTTP P env request server
            = verifyKeyMiddleware handleKill env request server)
        /\ (routed request "POST" "/unlock" = true ->
            ServeHTTP P env request server
            = verifyKeyMiddleware handleUnlock env request server)
        /\ (routed request "GET" "/output" = true ->
            ServeHTTP P env request server
            = verifyKeyMiddleware handleOutput env request server)
        /\ (routed request "GET" "/state" = true ->
            ServeHTTP P env request server
            = verifyKeyMiddleware handleState env request server)).
Proof.
  intros providedKey required mismatch not_locked.
  unfold setKeyMiddleware, verifyKeyMiddleware. fold providedKey.
  repeat split.
  - intros ->. reflexivity.
  - intros N E. apply eqb_false_iff in N. rewrite N, E. simpl.
    open_server server. simpl in E. subst. simpl.
    now rewrite String.eqb_refl.
  - intros N K D. apply eqb_false_iff in N, K, D. rewrite N, K. cbv zeta.
    now rewrite D.
  - intros N E. assert (K : key server <> "") by congruence.
    apply eqb_false_iff in N, K. rewrite N, K. cbv zeta.
    now rewrite E, String.eqb_refl.
  - intros ->. reflexivity.
  - intros N E. apply eqb_false_iff in N. now rewrite N, E.
  - intros N K D. apply eqb_false_iff in N, K, D. rewrite N. cbv zeta.
    now rewrite K, D.
  - intros N E. assert (K : key server <> "") by congruence.
    apply eqb_false_iff in N, K. rewrite N. cbv zeta.
    now rewrite K, E, String.eqb_refl.
  - unfold ServeHTTP. now intros ->.
  - unfold ServeHTTP, routed. intros [M Q]%andb_true_iff.
    apply String.eqb_eq in M, Q. now rewrite M, Q.
  - unfold ServeHTTP, routed. intros [M Q]%andb_true_iff.
    apply String.eqb_eq in M, Q. now rewrite M, Q.
  - unfold ServeHTTP, routed. intros [M Q]%andb_true_iff.
    apply String.eqb_eq in M, Q. now rewrite M, Q.
  - unfold ServeHTTP, routed. intros [M Q]%andb_true_iff.
    apply String.eqb_eq in M, Q. now rewrite M, Q.
  - unfold ServeHTTP, routed. intros [M Q]%andb_true_iff.
    apply String.eqb_eq in M, Q. now rewrite M, Q.
Qed.



(** ** The bound key *)

(** A response without its body: the server and the calls are the same. *)
Lemma withoutBody_server (result : Result) :
  fst (fst (withoutBody result)) = fst (fst result).
Proof. now destruct result as [[server [response|]] ev]. Qed.

Lemma withoutBody_events (result : Result) :
  snd (withoutBody result) = snd result.
Proof. now destruct result as [[server [response|]] ev]. Qed.

(** What a handler may do to the server: replace its engine, or its time of
    last activity. *)
Definition same_key (h : HandlerFunc) : Prop :=
  forall env request server,
    key (fst (fst (h env request server))) = key server
    /\ cfg (fst (fst (h env request server))) = cfg server
    /\ stopped (fst (fst (h env request server))) = stopped server.

Lemma handleLock_same_key : same_key handleLock.
Proof.
  intros env request server. unfold handleLock. open_server server.
  destruct (Start _ _ _) as [[sh err] ev]. destruct err; sfields; auto.
Qed.

Lemma resume_same_key (op : Engine.Op) (server : serverInstance) :
  key (fst (fst (resume op server))) = key server
  /\ cfg (fst (fst (resume op server))) = cfg server
  /\ stopped (fst (fst (resume op server))) = stopped server.
Proof.
  unfold resume. open_server server.
  destruct (Engine.step op _) as [[[[] r] ev]|]; [destruct r|]; sfields; auto.
Qed.

Lemma handleExecute_same_key (P : string -> option Z) : same_key (handleExecute P).
Proof.
  intros env request server. unfold handleExecute.
  destruct (handleExecute_call P request server) as [response|[command timeout]];
    [sfields; auto|].
  apply (resume_same_key (Engine.OpExecute command timeout (unixNano env)
                            (writeError env)) server).
Qed.

Lemma handleKill_same_key : same_key handleKill.
Proof.
  intros env request server. unfold handleKill. open_server server.
  destruct (Kill _ _) as [[sh err] ev]. destruct err; sfields; auto.
Qed.

Lemma handleOutput_same_key : same_key handleOutput.
Proof. intros env request server. cbn. auto. Qed.

Lemma handleState_same_key : same_key handleState.
Proof. intros env request server. cbn. auto. Qed.

Lemma handleHealth_same_key : same_key handleHealth.
Proof. intros env request server. cbn. auto. Qed.

(** A gate in front of a handler that keeps the key keeps a bound key. *)
Lemma setKeyMiddleware_bound (next : HandlerFunc) :
  same_key next ->
  forall env request server,
    key server <> "" ->
    key (fst (fst (setKeyMiddleware next env request server))) = key server
    /\ cfg (fst (fst (setKeyMiddleware next env request server))) = cfg server
    /\ stopped (fst (fst (setKeyMiddleware next env request server)))
       = stopped server.
Proof.
  intros S env request server K. unfold setKeyMiddleware.
  destruct (Get (Header request) "X-Shell-Key" =? ""); [auto|].
  apply eqb_false_iff in K. rewrite K. cbv zeta.
  destruct (negb _); [auto|].
  destruct (S env request (updateActivity (clock env) server)) as [-> [-> ->]].
  now open_server server.
Qed.

Lemma verifyKeyMiddleware_same_key (next : HandlerFunc) :
  same_key next -> same_key (verifyKeyMiddleware next).
Proof.
  intros S env request server. unfold verifyKeyMiddleware.
  destruct (Get (Header request) "X-Shell-Key" =? ""); [auto|]. cbv zeta.
  destruct (key server =? ""); [auto|]. destruct (negb _); [auto|].
  destruct (S env request (updateActivity (clock env) server)) as [-> [-> ->]].
  now open_server server.
Qed.

(** The goroutine that waits for a signal writes neither the key nor the
    configuration. *)
Lemma shutdown_same_key (server : serverInstance) :
  (forall expired,
     key (fst (fst (shutdown_hook expired server))) = key server
     /\ cfg (fst (fst (shutdown_hook expired server))) = cfg server)
  /\ (forall exited,
        key (fst (fst (shutdown_unlock exited server))) = key server
        /\ cfg (fst (fst (shutdown_unlock exited server))) = cfg server)
  /\ key (fst (fst (shutdown_exit server))) = key server
  /\ cfg (fst (fst (shutdown_exit server))) = cfg server.
Proof.
  unfold shutdown_hook, shutdown_unlock, shutdown_exit. open_server server.
  repeat split; destruct ph; try reflexivity;
    now destruct (Unlock _ _) as [[sh err] ev].
Qed.

(** The unlock endpoint: the key is kept in shutdown mode and by a request
    the gate refuses; it is cleared in recycle mode by a request that
    presents the bound key. *)
Lemma unlock_key (env : Env) (request : Request) (server : serverInstance) :
  key server <> "" ->
  (key (fst (fst (verifyKeyMiddleware handleUnlock env request server)))
   = key server
   \/ (key (fst (fst (verifyKeyMiddleware handleUnlock env request server))) = ""
       /\ DieOnUnlock (cfg server) = false
       /\ Get (Header request) "X-Shell-Key" = key server))
  /\ cfg (fst (fst (verifyKeyMiddleware handleUnlock env request server)))
     = cfg server
  /\ stopped (fst (fst (verifyKeyMiddleware handleUnlock env request server)))
     = stopped server.
Proof.
  intros K. unfold verifyKeyMiddleware.
  destruct (Get (Header request) "X-Shell-Key" =? ""); [auto|]. cbv zeta.
  apply eqb_false_iff in K. rewrite K.
  destruct (Get (Header request) "X-Shell-Key" =? key server) eqn:E;
    [|cbn [negb fst]; auto].
  apply String.eqb_eq in E. cbn [negb]. unfold handleUnlock.
  open_server server. destruct (DieOnUnlock cf) eqn:D; [sfields; auto|].
  destruct (Unlock _ _) as [[sh err] ev]. sfields. auto.
Qed.

Lemma step_cfg (P : string -> option Z) (op : Op) (server : serverInstance) :
  cfg (fst (fst (step P op server))) = cfg server.
Proof.
  unfold step. destruct (stopped server); [reflexivity|].
  destruct op as [request env|done|done|reader|reader res|now|expired|exited|].
  - unfold ServeHTTP.
    destruct (routed request "POST" "/lock").
    { unfold setKeyMiddleware.
      destruct (Get (Header request) "X-Shell-Key" =? ""); [reflexivity|].
      cbv zeta. destruct (negb _); [now destruct (key server =? ""), server|].
      match goal with
      | |- cfg (fst (fst (handleLock ?e ?r ?s))) = _ =>
          destruct (handleLock_same_key e r s) as [_ [-> _]]
      end.
      now destruct (key server =? ""), server. }
    destruct (routed request "POST" "/execute");
      [apply (verifyKeyMiddleware_same_key _ (handleExecute_same_key P))|].
    destruct (routed request "POST" "/kill");
      [apply (verifyKeyMiddleware_same_key _ handleKill_same_key)|].
    destruct (routed request "POST" "/unlock").
    { unfold verifyKeyMiddleware.
      destruct (Get (Header request) "X-Shell-Key" =? ""); [reflexivity|].
      cbv zeta. destruct (key server =? ""); [reflexivity|].
      destruct (negb _); [reflexivity|]. unfold handleUnlock.
      open_server server. destruct (DieOnUnlock cf); [reflexivity|].
      now destruct (Unlock _ _) as [[sh err] ev]. }
    destruct (routed request "GET" "/output");
      [apply (verifyKeyMiddleware_same_key _ handleOutput_same_key)|].
    destruct (routed request "GET" "/state");
      [apply (verifyKeyMiddleware_same_key _ handleState_same_key)|].
    destruct (routed request "GET" "/health"); [reflexivity|].
    destruct (routed request "HEAD" "/output");
      [rewrite withoutBody_server;
       apply (verifyKeyMiddleware_same_key _ handleOutput_same_key)|].
    destruct (routed request "HEAD" "/state");
      [rewrite withoutBody_server;
       apply (verifyKeyMiddleware_same_key _ handleState_same_key)|].
    destruct (routed request "HEAD" "/health"); [reflexivity|].
    now destruct (Method request =? "HEAD").
  - apply resume_same_key.
  - apply resume_same_key.
  - apply resume_same_key.
  - apply resume_same_key.
  - unfold monitorIdleTimeout_tick. now destruct (_ >? _)%Z.
  - apply shutdown_same_key.
  - apply shutdown_same_key.
  - apply shutdown_same_key.
Qed.

Lemma run_cfg (P : string -> option Z) (ops : list Op) :
  forall server, cfg (run P ops server) = cfg server.
Proof.
  induction ops as [|op ops IH]; intros server; simpl; [reflexivity|].
  now rewrite IH, step_cfg.
Qed.

(** One step keeps a bound key, or is the unlock request that clears it. *)
Lemma step_key (P : string -> option Z) (op : Op) (server : serverInstance) :
  key server <> "" ->
  key (fst (fst (step P op server))) = key server
  \/ (key (fst (fst (step P op server))) = ""
      /\ DieOnUnlock (cfg server) = false
      /\ stopped server = false
      /\ exists request env,
           op = Serve request env
           /\ routed request "POST" "/unlock" = true
           /\ Get (Header request) "X-Shell-Key" = key server).
Proof.
  intros K. unfold step. destruct (stopped server) eqn:St; [now left|].
  destruct op as [request env|done|done|reader|reader res|now|expired|exited|].
  - unfold ServeHTTP.
    destruct (routed request "POST" "/lock");
      [left; now apply (setKeyMiddleware_bound _ handleLock_same_key)|].
    destruct (routed request "POST" "/execute");
      [left; apply (verifyKeyMiddleware_same_key _ (handleExecute_same_key P))|].
    destruct (routed request "POST" "/kill");
      [left; apply (verifyKeyMiddleware_same_key _ handleKill_same_key)|].
    destruct (routed request "POST" "/unlock") eqn:R.
    { destruct (unlock_key env request server K) as [[E|[E [D G]]] _];
        [now left | right]. repeat split; auto. now exists request, env. }
    destruct (routed request "GET" "/output");
      [left; apply (verifyKeyMiddleware_same_key _ handleOutput_same_key)|].
    destruct (routed request "GET" "/state");
      [left; apply (verifyKeyMiddleware_same_key _ handleState_same_key)|].
    left. destruct (routed request "GET" "/health"); [reflexivity|].
    destruct (routed request "HEAD" "/output");
      [rewrite withoutBody_server;
       apply (verifyKeyMiddleware_same_key _ handleOutput_same_key)|].
    destruct (routed request "HEAD" "/state");
      [rewrite withoutBody_server;
       apply (verifyKeyMiddleware_same_key _ handleState_same_key)|].
    destruct (routed request "HEAD" "/health"); [reflexivity|].
    now destruct (Method request =? "HEAD").
  - left. apply resume_same_key.
  - left. apply resume_same_key.
  - left. apply resume_same_key.
  - left. apply resume_same_key.
  - left. unfold monitorIdleTimeout_tick. now destruct (_ >? _)%Z.
  - left. apply shutdown_same_key.
  - left. apply shutdown_same_key.
  - left. apply shutdown_same_key.
Qed.

(** C8.  Key stickiness.  In every state the controller reaches, a step
    taken while a key is bound leaves the bound key as it is, or leaves no
    key bound; and no key is left bound only by an unlock request in
    recycle mode ([die_on_unlock] is false) that presents the bound key.
    In shutdown mode a bound key therefore stays for the life of the process. *)
Theorem key_sticky (P : string -> option Z) (ops : list Op) (op : Op)
    (server : serverInstance) :
  let before := run P ops server in
  let after := fst (fst (step P op before)) in
  key before <> "" ->
  (key after = key before
   \/ (key after = ""
       /\ DieOnUnlock (cfg server) = false
       /\ stopped before = false
       /\ exists request env,
            op = Serve request env
            /\ routed request "POST" "/unlock" = true
            /\ Get (Header request) "X-Shell-Key" = key before))
  /\ (DieOnUnlock (cfg server) = true -> key after = key before).
Proof.
  intros before after K. unfold after.
  destruct (step_key P op before K) as [H|(E & D & St & R)].
  - split; [now left | auto].
  - assert (D' : DieOnUnlock (cfg server) = false)
      by (rewrite <- (run_cfg P ops server); exact D).
    split; [right; auto | congruence].
Qed.

(** [run] on a sequence that ends with [op]. *)
Lemma run_snoc (P : string -> option Z) (ops : list Op) (op : Op) :
  forall server,
    run P (ops ++ [op]) server = fst (fst (step P op (run P ops server))).
Proof. induction ops as [|o ops IH]; intros server; simpl; auto. Qed.

(** One client locks with the key [A]; then a lock with the key [B] and an
    unlock with the key [B] are refused and leave [A] bound; the unlock with
    [A], in recycle mode, leaves no key bound. *)
Lemma key_sticky_witness :
  let cfg := mkConfig 8080 false 300000000000 1800000000000 1800000000000
               30000000000 5000000000 in
  let server := NewServer cfg "/bin/bash" "" "/bin/sh" "" "" 0 in
  let env := mkEnv 10 1 (Spawned 7 3 [ReadBytes "<<<SHELLD_READY_1>>>"]) None
               true in
  let lock := fun k =>
    Serve (mkRequest "POST" "/lock" [("X-Shell-Key", k)] (Some "")) env in
  let unlock := fun k =>
    Serve (mkRequest "POST" "/unlock" [("X-Shell-Key", k)] (Some "")) env in
  key (run parseWholeDuration [lock "A"] server) = "A"
  /\ key (run parseWholeDuration [lock "A"; lock "B"] server) = "A"
  /\ key (run parseWholeDuration [lock "A"; unlock "B"] server) = "A"
  /\ key (run parseWholeDuration [lock "A"; unlock "A"] server) = "".
Proof.
  intros cfg server env lock unlock.
  split; [reflexivity | split; [|split; [|reflexivity]]].
  - destruct (key_sticky parseWholeDuration [lock "A"] (lock "B") server)
      as [[H|(_ & _ & _ & request & e & H & R & _)] _].
    + discriminate.
    + exact H.
    + injection H as <- _. discriminate R.
  - destruct (key_sticky parseWholeDuration [lock "A"] (unlock "B") server)
      as [[H|(_ & _ & _ & request & e & H & _ & G)] _].
    + discriminate.
    + exact H.
    + injection H as <- _. discriminate G.
Defined.

(** ** What the last-output slot keeps *)

Lemma waitForOutput_lastOutput (marker : string) (reads : list ReadResult) :
  forall sh, lastOutput (fst (waitForOutput marker reads sh)) = lastOutput sh.
Proof.
  induction reads as [|[data| |cause] rest IH]; intros sh; simpl;
    try reflexivity.
  destruct (Contains _ _); [|rewrite IH]; now destruct sh.
Qed.

(** [Start] does not write the last-output slot. *)
Lemma Start_lastOutput (now : Z) (spawn : SpawnResult) (sh : Shell.Shell) :
  lastOutput (fst (fst (Start now spawn sh))) = lastOutput sh.
Proof.
  unfold Start. destruct (negb _); [reflexivity|].
  destruct spawn as [cause|pid fd reads]; cbv zeta; [now destruct sh|].
  match goal with
  | |- context [waitForOutput ?m ?r ?x] =>
      pose proof (waitForOutput_lastOutput m r x) as W;
      destruct (waitForOutput m r x) as [sh' [err|]]
  end; cbn [fst] in W.
  - unfold cleanup. destruct sh' as [? ? [fd'|] ? ? ? ? ? ? ? ? ?];
      cbn in *; rewrite W; now destruct sh.
  - destruct sh'; cbn in *. rewrite W. now destruct sh.
Qed.

(** [Unlock] leaves the state [available] and the last-output slot as it
    was; when a child is recorded it empties the output buffer, and when
    none is it leaves the buffer as it was. *)
Lemma Unlock_frame (exited : bool) (sh : Shell.Shell) :
  Output (fst (fst (Unlock exited sh))) = Output sh
  /\ state (fst (fst (Unlock exited sh))) = StateAvailable
  /\ (cmd sh <> None -> outputBuffer (fst (fst (Unlock exited sh))) = "")
  /\ (cmd sh = None ->
      outputBuffer (fst (fst (Unlock exited sh))) = outputBuffer sh).
Proof.
  unfold Unlock, Output. destruct sh as [st c p b g sc wd lo cd cc sm em].
  shell_fields. destruct c as [pid|]; [|repeat split; congruence].
  destruct p as [fd|]; cbv zeta; shell_fields; repeat split; discriminate.
Qed.

(** A request the match gate lets through. *)
Lemma verifyKeyMiddleware_pass (next : HandlerFunc) (env : Env)
    (request : Request) (server : serverInstance) :
  key server <> "" ->
  Get (Header request) "X-Shell-Key" = key server ->
  verifyKeyMiddleware next env request server
  = next env request (updateActivity (clock env) server).
Proof.
  intros K E. unfold verifyKeyMiddleware. rewrite E.
  apply eqb_false_iff in K. rewrite K. cbv zeta.
  now rewrite ?K, String.eqb_refl.
Qed.

(** A request the bind-or-match gate lets through. *)
Lemma setKeyMiddleware_pass (next : HandlerFunc) (env : Env)
    (request : Request) (server : serverInstance) :
  Get (Header request) "X-Shell-Key" <> "" ->
  key server = "" \/ key server = Get (Header request) "X-Shell-Key" ->
  setKeyMiddleware next env request server
  = next env request
      (updateActivity (clock env)
         (set_key (Get (Header request) "X-Shell-Key") server)).
Proof.
  intros N K. unfold setKeyMiddleware. apply eqb_false_iff in N. rewrite N.
  open_server server. destruct K as [-> | ->].
  - simpl. now rewrite String.eqb_refl.
  - rewrite N. sfields. now rewrite String.eqb_refl.
Qed.

Lemma routed_other (request : Request) (method path method' path' : string) :
  routed request method path = true ->
  (method =? method') && (path =? path') = false ->
  routed request method' path' = false.
Proof.
  intros [M Q]%routed_iff H. unfold routed. now rewrite M, Q.
Qed.

(** C9, amended.  [Unlock] resets the state, and the output buffer when a
    child is recorded; on its early return, with no child recorded, it
    leaves the buffer as it is.  It leaves the last-output slot as it is:
    [Output] after [Unlock] returns what it returned before.  [Start] does
    not write the slot either.  So, in recycle mode, after the unlock of one
    client and the lock of the next, [GET /output] with the new key answers
    200 with the last output of the previous session; the slot is emptied
    when the next [Execute] is accepted. *)
Theorem unlock_keeps_last_output (P : string -> option Z)
    (server : serverInstance) (unlock lock output : Request)
    (eu el eo : Env) :
  stopped server = false ->
  DieOnUnlock (cfg server) = false ->
  key server <> "" ->
  routed unlock "POST" "/unlock" = true ->
  Get (Header unlock) "X-Shell-Key" = key server ->
  routed lock "POST" "/lock" = true ->
  Get (Header lock) "X-Shell-Key" <> "" ->
  routed output "GET" "/output" = true ->
  Get (Header output) "X-Shell-Key" = Get (Header lock) "X-Shell-Key" ->
  let o := Output (shell server) in
  let unlocked := run P [Serve unlock eu] server in
  let relocked := run P [Serve unlock eu; Serve lock el] server in
  (forall exited sh,
     Output (fst (fst (Unlock exited sh))) = Output sh
     /\ state (fst (fst (Unlock exited sh))) = StateAvailable
     /\ (cmd sh <> None -> outputBuffer (fst (fst (Unlock exited sh))) = "")
     /\ (cmd sh = None ->
         outputBuffer (fst (fst (Unlock exited sh))) = outputBuffer sh))
  /\ Output (shell unlocked) = o
  /\ State_ (shell unlocked) = StateAvailable
  /\ key unlocked = ""
  /\ key relocked = Get (Header lock) "X-Shell-Key"
  /\ Output (shell relocked) = o
  /\ responses P [Serve output eo] relocked = [Some (mkResponse StatusOK o)]
  /\ (forall command timeout now done werr sh,
        state sh = StateLocked ->
        Output (fst (fst (Execute_begin command timeout now done werr sh))) = "").
Proof.
  intros St D K Ru Gu Rl Gl Ro Go o unlocked relocked.
  open_server server. subst stp.
  destruct (Unlock_frame (exited eu) esh) as [F1 [F2 [F3 F4]]].
  (* the unlock *)
  assert (U : unlocked
              = mkServer cf
                  (Engine.mkWorld (fst (fst (Unlock (exited eu) esh))) ecs ews ers)
                  h (clock eu) "" ph false).
  { unfold unlocked. cbn [run]. unfold step. sfields. unfold ServeHTTP.
    rewrite (routed_other _ _ _ "POST" "/lock" Ru eq_refl).
    rewrite (routed_other _ _ _ "POST" "/execute" Ru eq_refl).
    rewrite (routed_other _ _ _ "POST" "/kill" Ru eq_refl).
    rewrite Ru, verifyKeyMiddleware_pass; [|exact K|exact Gu].
    unfold handleUnlock. sfields. rewrite D.
    now destruct (Unlock _ _) as [[sh' err] ev]. }
  (* the lock of the next client *)
  assert (R : relocked
              = fst (fst (handleLock el lock
                            (mkServer cf
                               (Engine.mkWorld (fst (fst (Unlock (exited eu) esh)))
                                  ecs ews ers)
                               h (clock el) (Get (Header lock) "X-Shell-Key")
                               ph false)))).
  { unfold relocked. change (run P [Serve unlock eu; Serve lock el] ?s)
      with (fst (fst (step P (Serve lock el) (run P [Serve unlock eu] s)))).
    fold unlocked. rewrite U. unfold step. sfields. unfold ServeHTTP.
    rewrite Rl. now rewrite setKeyMiddleware_pass; [|exact Gl|left]. }
  assert (R1 : key relocked = Get (Header lock) "X-Shell-Key"
               /\ Output (shell relocked) = o /\ stopped relocked = false).
  { rewrite R. clear R. unfold handleLock. sfields.
    pose proof (Start_lastOutput (unixNano el) (spawn el)
                  (fst (fst (Unlock (exited eu) esh)))) as SL.
    destruct (Start _ _ _) as [[sh' err] ev]. cbn [fst] in SL.
    unfold o, Output in *.
    destruct err; sfields; (split; [reflexivity|]); (split; [|reflexivity]);
      congruence. }
  destruct R1 as (R1 & R2 & R3).
  split; [intros; apply Unlock_frame|].
  split; [now rewrite U|]. split; [now rewrite U|]. split; [now rewrite U|].
  split; [exact R1|]. split; [exact R2|]. split.
  - cbn [responses]. unfold step. rewrite R3. unfold ServeHTTP.
    rewrite (routed_other _ _ _ "POST" "/lock" Ro eq_refl).
    rewrite (routed_other _ _ _ "POST" "/execute" Ro eq_refl).
    rewrite (routed_other _ _ _ "POST" "/kill" Ro eq_refl).
    rewrite (routed_other _ _ _ "POST" "/unlock" Ro eq_refl).
    rewrite Ro, verifyKeyMiddleware_pass; [|congruence|congruence].
    unfold handleOutput. cbn [fst snd]. now rewrite <- R2; destruct relocked as [? [? ? ? ?] ? ? ? ?].
  - intros command timeout now done werr sh0 L. unfold Execute_begin, Output.
    destruct sh0 as [st c p b g sc wd lo cd cc sm em]. shell_fields. subst st.
    cbn [State_eqb negb]. cbv zeta. shell_fields.
    destruct p; [destruct werr|]; reflexivity.
Qed.

(** One session: lock with the key [A], [echo hello], its output, unlock.
    The next client locks with the key [B] and reads [hello]. *)
Lemma unlock_keeps_last_output_witness :
  let cfg := mkConfig 8080 false 300000000000 1800000000000 1800000000000
               30000000000 5000000000 in
  let server := NewServer cfg "/bin/bash" "" "/bin/sh" "" "" 0 in
  let env := mkEnv 10 1 (Spawned 7 3 [ReadBytes "<<<SHELLD_READY_1>>>"]) None
               true in
  let request := fun method path k body =>
    Serve (mkRequest method path [("X-Shell-Key", k)] (Some body)) env in
  let session :=
    [ request "POST" "/lock" "A" "";
      request "POST" "/execute" "A" "echo hello";
      Read 0 (ReadBytes ("<<<SHELLD_START_1>>>" ++ CRLF ++ "hello" ++ CRLF
                         ++ CRLF ++ "<<<SHELLD_END_1>>>" ++ CRLF));
      Receive 0 ] in
  responses parseWholeDuration session server
  = [Some (mkResponse StatusOK ""); None; None;
     Some (mkResponse StatusOK "hello")]
  /\ responses parseWholeDuration [request "GET" "/output" "B" ""]
       (run parseWholeDuration
          [request "POST" "/unlock" "A" ""; request "POST" "/lock" "B" ""]
          (run parseWholeDuration session server))
     = [Some (mkResponse StatusOK "hello")].
Proof.
  intros cfg server env request session. split; [reflexivity|].
  apply (unlock_keeps_last_output parseWholeDuration
           (run parseWholeDuration session server)
           (mkRequest "POST" "/unlock" [("X-Shell-Key", "A")] (Some ""))
           (mkRequest "POST" "/lock" [("X-Shell-Key", "B")] (Some ""))
           (mkRequest "GET" "/output" [("X-Shell-Key", "B")] (Some ""))
           env env env); try reflexivity; discriminate.
Defined.

(** ** The lock hook *)

(** A call of [Start] that returns an error does not leave the state
    [available]. *)
Lemma Start_error_state (now : Z) (spawn : SpawnResult) (sh : Shell.Shell) :
  snd (fst (Start now spawn sh)) <> None ->
  state (fst (fst (Start now spawn sh))) <> StateAvailable
  /\ (state sh <> StateAvailable -> fst (fst (Start now spawn sh)) = sh)
  /\ (state sh = StateAvailable ->
      state (fst (fst (Start now spawn sh))) = StateUnrecoverable).
Proof.
  assert (T : forall a b : State, forall x y : Shell.Shell,
            b <> StateAvailable ->
            (a <> StateAvailable -> x = y) ->
            (a = StateAvailable -> b = StateUnrecoverable) ->
            b <> StateAvailable /\ (a <> StateAvailable -> x = y)
            /\ (a = StateAvailable -> b = StateUnrecoverable)) by auto.
  unfold Start. destruct sh as [st c p b g sc wd lo cd cc sm em]. shell_fields.
  destruct st; cbn [State_eqb negb fst snd]; intros E;
    try (apply T; [discriminate | reflexivity | discriminate]).
  revert E.
  destruct spawn as [cause|pid fd reads]; cbv zeta; shell_fields; intros E.
  - apply T; [discriminate | intros A; now destruct A | reflexivity].
  - revert E.
    match goal with
    | |- context [waitForOutput ?m ?r ?x] =>
        destruct (waitForOutput m r x) as [sh' [err|]]
    end.
    + unfold cleanup. destruct sh' as [? ? [fd'|] ? ? ? ? ? ? ? ? ?];
        cbn; intros _;
        (apply T; [discriminate | intros A; now destruct A | reflexivity]).
    + cbn. intros H. now destruct H.
Qed.

Lemma Start_ok_state (now : Z) (spawn : SpawnResult) (sh : Shell.Shell) :
  snd (fst (Start now spawn sh)) = None ->
  state sh = StateAvailable
  /\ state (fst (fst (Start now spawn sh))) = StateLocked.
Proof.
  unfold Start. destruct sh as [st c p b g sc wd lo cd cc sm em]. shell_fields.
  destruct st; cbn [State_eqb negb fst snd]; try discriminate.
  destruct spawn as [cause|pid fd reads]; cbv zeta; shell_fields;
    [discriminate|].
  match goal with
  | |- context [waitForOutput ?m ?r ?x] =>
      destruct (waitForOutput m r x) as [sh' [err|]]
  end.
  - unfold cleanup. destruct sh' as [? ? [fd'|] ? ? ? ? ? ? ? ? ?];
      cbn; discriminate.
  - destruct sh'. cbn. auto.
Qed.

(** The hook is the first call [handleLock] makes; the calls of [Start]
    follow; a failed [Start] is answered 409. *)
Lemma handleLock_events (env : Env) (request : Request)
    (server : serverInstance) :
  exists response,
    snd (fst (handleLock env request server)) = Some response
    /\ snd (handleLock env request server)
       = (RunLock (RequestContext request) (hooks server) (key server)
          ++ snd (Start (unixNano env) (spawn env) (shell server)))%list
    /\ shell (fst (fst (handleLock env request server)))
       = fst (fst (Start (unixNano env) (spawn env) (shell server)))
    /\ (snd (fst (Start (unixNano env) (spawn env) (shell server))) = None ->
        response = mkResponse StatusOK "")
    /\ (snd (fst (Start (unixNano env) (spawn env) (shell server))) <> None ->
        status response = StatusConflict).
Proof.
  unfold handleLock.
  pose proof (Start_error_state (unixNano env) (spawn env) (shell server)) as E.
  open_server server.
  destruct (Start _ _ _) as [[sh err] ev]. cbn [fst snd] in *.
  destruct err as [e|]; sfields.
  - eexists. split; [reflexivity|]. split; [reflexivity|].
    split; [reflexivity|]. split; [discriminate|]. intros _.
    destruct E as [E _]; [discriminate|]. unfold State_.
    destruct (state sh); try reflexivity. congruence.
  - eexists. split; [reflexivity|]. split; [reflexivity|].
    split; [reflexivity|]. split; [reflexivity | congruence].
Qed.

(** [POST /lock] with the key [test] on a fresh server whose lock hook is
    [touch /tmp/locked], when the shell cannot be spawned. *)
Definition lock_spawn_failure : Result :=
  ServeHTTP parseWholeDuration
    (mkEnv 10 1 (SpawnFailed "fork/exec /bin/bash: no such file or directory")
       None true)
    (mkRequest "POST" "/lock" [("X-Shell-Key", "test")] (Some ""))
    (NewServer (mkConfig 8080 true 300000000000 1800000000000 1800000000000
                  30000000000 5000000000)
       "/bin/bash" "" "/bin/sh" "touch /tmp/locked" "" 0).

(** C10, as stated, has a failed spawn answered 500.  Here the hook runs,
    the spawn fails, and the request is answered 409: [Start] leaves the
    state [unrecoverable], which [handleLock] reports as a conflict. *)
Lemma spawn_failure_answered_409 :
  snd lock_spawn_failure
  = [EvHook "/bin/sh" "lock" "touch /tmp/locked" "test"; EvSpawn "/bin/bash" ""]
  /\ snd (fst lock_spawn_failure)
     = Some (Error "The shell is in an unrecoverable state." StatusConflict)
  /\ option_map status (snd (fst lock_spawn_failure))
     <> Some StatusInternalServerError.
Proof. repeat split. discriminate. Qed.

(** C10, amended.  For every [/lock] request that passes the key gate, the
    handler runs the lock hook (with the bound key) before it calls [Start]:
    the calls of the request are those of the hook followed by those of
    [Start], and the hook is run when one is configured, whatever [Start]
    returns.  The request is answered 200 when [Start] succeeds and 409 when
    it does not, both when the state is not [available] (the shell is left
    as it was) and when the spawn fails (the state is then [unrecoverable]). *)
Theorem lock_hook_runs_first (P : string -> option Z) (env : Env)
    (request : Request) (server : serverInstance) :
  let providedKey := Get (Header request) "X-Shell-Key" in
  let start := Start (unixNano env) (spawn env) (shell server) in
  routed request "POST" "/lock" = true ->
  providedKey <> "" ->
  key server = "" \/ key server = providedKey ->
  exists server' response,
    ServeHTTP P env request server
    = (server', Some response,
       (RunLock (RequestContext request) (hooks server) providedKey
        ++ snd start)%list)
    /\ (lock (hooks server) <> "" ->
        RunLock (RequestContext request) (hooks server) providedKey
        = [EvHook (shellCommand (hooks server)) "lock" (lock (hooks server))
             providedKey])
    /\ shell server' = fst (fst start)
    /\ (snd (fst start) = None -> status response = StatusOK)
    /\ (snd (fst start) <> None -> status response = StatusConflict)
    /\ (state (shell server) <> StateAvailable ->
        status response = StatusConflict /\ shell server' = shell server)
    /\ (forall cause,
          state (shell server) = StateAvailable ->
          spawn env = SpawnFailed cause ->
          status response = StatusConflict
          /\ state (shell server') = StateUnrecoverable).
Proof.
  intros providedKey start R N K. unfold ServeHTTP. rewrite R.
  rewrite setKeyMiddleware_pass by assumption. fold providedKey.
  set (bound := updateActivity (clock env) (set_key providedKey server)).
  assert (B : shell bound = shell server /\ hooks bound = hooks server
              /\ key bound = providedKey)
    by (unfold bound; now open_server server).
  destruct B as (B1 & B2 & B3).
  destruct (handleLock_events env request bound)
    as (response & H1 & H2 & H3 & H4 & H5).
  rewrite B1, B2, B3 in *. fold start in H2, H3, H4, H5.
  exists (fst (fst (handleLock env request bound))), response.
  split; [|split; [|split; [exact H3 | split; [|split; [exact H5 | split]]]]].
  - rewrite <- H1, <- H2. now destruct (handleLock env request bound) as [[? ?] ?].
  - intros L. unfold RunLock, Lifecycle.run. apply eqb_false_iff in L.
    now rewrite L.
  - intros E. now rewrite (H4 E).
  - intros A. assert (E : snd (fst start) <> None).
    { intros E. now destruct (Start_ok_state _ _ _ E). }
    split; [exact (H5 E)|]. rewrite H3.
    now apply (Start_error_state _ _ _ E).
  - intros cause A S. assert (E : snd (fst start) <> None).
    { unfold start, Start. rewrite A, S. discriminate. }
    split; [exact (H5 E)|]. rewrite H3.
    now apply (Start_error_state _ _ _ E).
Qed.

(** A second [/lock] with the bound key while the shell is [locked]: the
    hook runs again and the request is answered 409. *)
Lemma lock_hook_runs_first_witness :
  let cfg := mkConfig 8080 true 300000000000 1800000000000 1800000000000
               30000000000 5000000000 in
  let server := NewServer cfg "/bin/bash" "" "/bin/sh" "touch /tmp/locked" "" 0 in
  let env := mkEnv 10 1 (Spawned 7 3 [ReadBytes "<<<SHELLD_READY_1>>>"]) None
               true in
  let lock := mkRequest "POST" "/lock" [("X-Shell-Key", "test")] (Some "") in
  exists server' response,
    ServeHTTP parseWholeDuration env lock
      (run parseWholeDuration [Serve lock env] server)
    = (server', Some response,
       [EvHook "/bin/sh" "lock" "touch /tmp/locked" "test"])
    /\ status response = StatusConflict
    /\ State_ (shell server') = StateLocked.
Proof.
  intros cfg server env lock.
  destruct (lock_hook_runs_first parseWholeDuration env lock
              (run parseWholeDuration [Serve lock env] server))
    as (server' & response & H1 & _ & H2 & _ & _ & H3 & _).
  - reflexivity.
  - discriminate.
  - right. reflexivity.
  - exists server', response. split; [exact H1|].
    destruct H3 as [H3 H4]; [discriminate|]. split; [exact H3|].
    unfold State_. now rewrite H4.
Defined.

(** ** The scripts of [test/integration]

    The requests of the integration tests, with the shell answering as
    [bash] does behind a pseudo-terminal. *)

(** [test_error_handling.sh]: no key, the first key, another key, [/state]
    without a key, an empty command. *)
Example error_handling_script :
  let cfg := mkConfig 8084 true 300000000000 1800000000000 1800000000000
               30000000000 5000000000 in
  let server := NewServer cfg "/bin/bash" "" "/bin/sh" "" "" 0 in
  let env := mkEnv 10 1 (Spawned 7 3 [ReadBytes "<<<SHELLD_READY_1>>>"]) None
               true in
  map (option_map status)
    (responses parseWholeDuration
       [ Serve (mkRequest "POST" "/lock" [] (Some "")) env;
         Serve (mkRequest "POST" "/lock" [("X-Shell-Key", "test")] (Some "")) env;
         Serve (mkRequest "POST" "/execute" [("X-Shell-Key", "wrong-key")]
                  (Some "echo test")) env;
         Serve (mkRequest "GET" "/state" [] (Some "")) env;
         Serve (mkRequest "POST" "/execute" [("X-Shell-Key", "test")] (Some ""))
           env ]
       server)
  = [Some 401; Some 200; Some 401; Some 401; Some 400]%Z.
Proof. reflexivity. Qed.

(** [test_state_conflicts.sh]: the second lock is answered 409 and says
    that the shell is already locked. *)
Example state_conflicts_script :
  let cfg := mkConfig 8084 true 300000000000 1800000000000 1800000000000
               30000000000 5000000000 in
  let server := NewServer cfg "/bin/bash" "" "/bin/sh" "" "" 0 in
  let env := mkEnv 10 1 (Spawned 7 3 [ReadBytes "<<<SHELLD_READY_1>>>"]) None
               true in
  let lock := Serve (mkRequest "POST" "/lock" [("X-Shell-Key", "test")] (Some ""))
                env in
  responses parseWholeDuration [lock; lock] server
  = [Some (mkResponse 200 "");
     Some (mkResponse 409 ("The shell is already locked." ++ LF))].
Proof. reflexivity. Qed.

(** [test_timeout.sh]: [sleep 3] with a timeout of 500 ms is answered 202,
    the state is [executing], and [locked] once the command has ended. *)
Example timeout_script :
  let cfg := mkConfig 8084 true 300000000000 1800000000000 1800000000000
               30000000000 5000000000 in
  let server := NewServer cfg "/bin/bash" "" "/bin/sh" "" "" 0 in
  let env := mkEnv 10 1 (Spawned 7 3 [ReadBytes "<<<SHELLD_READY_1>>>"]) None
               true in
  let state := Serve (mkRequest "GET" "/state" [("X-Shell-Key", "test")] (Some ""))
                 env in
  responses parseWholeDuration
    [ Serve (mkRequest "POST" "/lock" [("X-Shell-Key", "test")] (Some "")) env;
      Serve (mkRequest "POST" "/execute"
               [("X-Shell-Key", "test"); ("X-Command-Timeout", "500ms")]
               (Some "sleep 3")) env;
      Timeout 0;
      state;
      Read 0 (ReadBytes ("<<<SHELLD_START_1>>>" ++ CRLF ++ CRLF
                         ++ "<<<SHELLD_END_1>>>" ++ CRLF));
      state ]
    server
  = [ Some (mkResponse 200 "");
      None;
      Some (mkResponse 202
              ("The command timed out. The shell is busy and the command is still running."
               ++ LF));
      Some (mkResponse 200 "executing");
      None;
      Some (mkResponse 200 "locked") ].
Proof. reflexivity. Qed.

(** [test_basic.sh] and [test_shutdown.sh]: lock, state, [echo hello],
    health, unlock in shutdown mode; the process then stops and answers no
    more. *)
Example basic_and_shutdown_script :
  let cfg := mkConfig 8084 true 300000000000 1800000000000 1800000000000
               30000000000 5000000000 in
  let server := NewServer cfg "/bin/bash" "" "/bin/sh" "" "" 0 in
  let env := mkEnv 10 1 (Spawned 7 3 [ReadBytes "<<<SHELLD_READY_1>>>"]) None
               true in
  let request := fun method path body =>
    Serve (mkRequest method path [("X-Shell-Key", "test")] (Some body)) env in
  responses parseWholeDuration
    [ request "POST" "/lock" "";
      request "GET" "/state" "";
      request "POST" "/execute" "echo hello";
      Read 0 (ReadBytes ("<<<SHELLD_START_1>>>" ++ CRLF ++ "hello" ++ CRLF
                         ++ CRLF ++ "<<<SHELLD_END_1>>>" ++ CRLF));
      Receive 0;
      Serve (mkRequest "GET" "/health" [] (Some "")) env;
      request "POST" "/unlock" "";
      Signal false;
      SignalUnlock true;
      SignalShutdown;
      Serve (mkRequest "GET" "/health" [] (Some "")) env ]
    server
  = [ Some (mkResponse 200 ""); Some (mkResponse 200 "locked"); None; None;
      Some (mkResponse 200 "hello"); Some (mkResponse 200 "");
      Some (mkResponse 200 ""); None; None; None; None ].
Proof. reflexivity. Qed.

(** ** Requests without the key *)

Lemma keyed_cases (request : Request) :
  keyed request = true ->
  routed request "POST" "/lock" = true
  \/ routed request "POST" "/execute" = true
  \/ routed request "POST" "/kill" = true
  \/ routed request "POST" "/unlock" = true
  \/ routed request "GET" "/output" = true
  \/ routed request "GET" "/state" = true.
Proof. unfold keyed. rewrite !orb_true_iff. tauto. Qed.

(** The match gate refuses a request that does not present the bound key. *)
Lemma verifyKeyMiddleware_refuses (next : HandlerFunc) (env : Env)
    (request : Request) (server : serverInstance) :
  Get (Header request) "X-Shell-Key" = ""
  \/ Get (Header request) "X-Shell-Key" <> key server \/ key server = "" ->
  verifyKeyMiddleware next env request server
  = (server, Some (refusal request server), []).
Proof.
  unfold verifyKeyMiddleware, refusal.
  destruct (Get (Header request) "X-Shell-Key" =? "") eqn:E1; [reflexivity|].
  cbv zeta. destruct (key server =? "") eqn:E2; [reflexivity|].
  intros [H|[H|H]].
  - apply String.eqb_eq in H. congruence.
  - apply eqb_false_iff in H. now rewrite H.
  - apply String.eqb_eq in H. congruence.
Qed.

(** The bind-or-match gate refuses a request without a key, and one whose
    key differs from the bound key. *)
Lemma setKeyMiddleware_refuses (next : HandlerFunc) (env : Env)
    (request : Request) (server : serverInstance) :
  Get (Header request) "X-Shell-Key" = ""
  \/ (key server <> "" /\ Get (Header request) "X-Shell-Key" <> key server) ->
  setKeyMiddleware next env request server
  = (server, Some (refusal request server), []).
Proof.
  unfold setKeyMiddleware, refusal.
  destruct (Get (Header request) "X-Shell-Key" =? "") eqn:E1; [reflexivity|].
  intros [H|[K H]].
  - apply String.eqb_eq in H. congruence.
  - apply eqb_false_iff in K, H. rewrite K. cbv zeta. now rewrite H.
Qed.

(** X19.  Without the key, a request changes nothing.  A request that
    presents no key, or a key other than the bound one, or any key on an
    endpoint other than [/lock] while no key is bound, is answered by its
    gate: the controller is as it was (the time of the last activity
    included), no hook runs and the engine is not called.  A request for
    [/health] is answered 200 without a key and changes nothing either. *)
Theorem request_without_key_changes_nothing (P : string -> option Z)
    (env : Env) (request : Request) (server : serverInstance) :
  let providedKey := Get (Header request) "X-Shell-Key" in
  stopped server = false ->
  (routed request "GET" "/health" = true ->
   step P (Serve request env) server = (server, Some (mkResponse StatusOK ""), []))
  /\ (keyed request = true ->
      providedKey = ""
      \/ (key server <> "" /\ providedKey <> key server)
      \/ (key server = "" /\ routed request "POST" "/lock" = false) ->
      step P (Serve request env) server
      = (server, Some (refusal request server), [])).
Proof.
  intros providedKey St. unfold step. rewrite St. unfold ServeHTTP. split.
  - intros R.
    rewrite (routed_other _ _ _ "POST" "/lock" R eq_refl).
    rewrite (routed_other _ _ _ "POST" "/execute" R eq_refl).
    rewrite (routed_other _ _ _ "POST" "/kill" R eq_refl).
    rewrite (routed_other _ _ _ "POST" "/unlock" R eq_refl).
    rewrite (routed_other _ _ _ "GET" "/output" R eq_refl).
    rewrite (routed_other _ _ _ "GET" "/state" R eq_refl).
    now rewrite R.
  - intros K H.
    assert (V : forall next,
              routed request "POST" "/lock" = false ->
              verifyKeyMiddleware next env request server
              = (server, Some (refusal request server), [])).
    { intros next L. apply verifyKeyMiddleware_refuses. fold providedKey.
      destruct H as [H|[[_ H]|[H _]]]; auto. }
    destruct (routed request "POST" "/lock") eqn:L.
    { apply setKeyMiddleware_refuses. fold providedKey.
      destruct H as [H|[H|[_ H]]]; [auto | auto | discriminate]. }
    apply keyed_cases in K. rewrite L in K.
    destruct (routed request "POST" "/execute"); [now apply V|].
    destruct (routed request "POST" "/kill"); [now apply V|].
    destruct (routed request "POST" "/unlock"); [now apply V|].
    destruct (routed request "GET" "/output"); [now apply V|].
    destruct (routed request "GET" "/state"); [now apply V|].
    destruct K as [K|[K|[K|[K|[K|K]]]]]; discriminate.
Qed.

(** After a lock with the key [A]: [/state] with the key [B], and
    [/health] without a key. *)
Lemma request_without_key_changes_nothing_witness :
  let cfg := mkConfig 8080 true 300000000000 1800000000000 1800000000000
               30000000000 5000000000 in
  let env := mkEnv 10 1 (Spawned 7 3 [ReadBytes "<<<SHELLD_READY_1>>>"]) None
               true in
  let later := mkEnv 20 2 (Spawned 8 4 []) None true in
  let server :=
    run parseWholeDuration
      [Serve (mkRequest "POST" "/lock" [("X-Shell-Key", "A")] (Some "")) env]
      (NewServer cfg "/bin/bash" "" "/bin/sh" "" "" 0) in
  step parseWholeDuration
    (Serve (mkRequest "GET" "/health" [] (Some "")) later) server
  = (server, Some (mkResponse StatusOK ""), [])
  /\ step parseWholeDuration
       (Serve (mkRequest "GET" "/state" [("X-Shell-Key", "B")] (Some "")) later)
       server
     = (server,
        Some (Error "The provided key does not match the locked key."
                StatusUnauthorized), []).
Proof.
  intros cfg env later server. split.
  - apply (request_without_key_changes_nothing parseWholeDuration later
             (mkRequest "GET" "/health" [] (Some "")) server);
      reflexivity.
  - apply (request_without_key_changes_nothing parseWholeDuration later
             (mkRequest "GET" "/state" [("X-Shell-Key", "B")] (Some "")) server).
    + reflexivity.
    + reflexivity.
    + right. left. split; discriminate.
Defined.

(** ** The idle watchdog *)

Lemma resume_activity (P : string -> option Z) (op : Engine.Op)
    (server : serverInstance) :
  lastActivity (fst (fst (resume op server))) = lastActivity server.
Proof.
  unfold resume. open_server server.
  destruct (Engine.step op _) as [[[[] r] ev]|]; [destruct r|]; reflexivity.
Qed.

Lemma background_step (P : string -> option Z) (op : Op)
    (server : serverInstance) :
  background op = true ->
  lastActivity (fst (fst (step P op server))) = lastActivity server
  /\ cfg (fst (fst (step P op server))) = cfg server
  /\ stopped (fst (fst (step P op server))) = stopped server
  /\ key (fst (fst (step P op server))) = key server.
Proof.
  intros B. unfold step. destruct (stopped server) eqn:St; [auto|].
  destruct op as [request env|done|done|reader|reader res|now|expired|exited|];
    try discriminate;
    try (split; [apply (resume_activity P)|];
         match goal with
         | |- context [resume ?op ?s] =>
             destruct (resume_same_key op s) as (K & C & S)
         end; rewrite K, C, S; auto).
  unfold monitorIdleTimeout_tick. destruct (_ >? _)%Z; auto.
Qed.

Lemma background_run (P : string -> option Z) (ops : list Op) :
  forall server,
    forallb background ops = true ->
    lastActivity (run P ops server) = lastActivity server
    /\ cfg (run P ops server) = cfg server
    /\ stopped (run P ops server) = stopped server
    /\ key (run P ops server) = key server.
Proof.
  induction ops as [|op ops IH]; intros server B; cbn [run]; [auto|].
  cbn [forallb] in B. apply andb_true_iff in B as [B1 B2].
  destruct (IH (fst (fst (step P op server))) B2) as (-> & -> & -> & ->).
  now apply background_step.
Qed.

(** The handlers behind the gates leave the time of the last activity as
    the gate has set it. *)
Lemma keyed_handler_activity (P : string -> option Z) (env : Env)
    (request : Request) (server : serverInstance) :
  lastActivity (fst (fst (handleLock env request server))) = lastActivity server
  /\ lastActivity (fst (fst (handleExecute P env request server)))
     = lastActivity server
  /\ lastActivity (fst (fst (handleKill env request server))) = lastActivity server
  /\ lastActivity (fst (fst (handleUnlock env request server)))
     = lastActivity server
  /\ lastActivity (fst (fst (handleOutput env request server)))
     = lastActivity server
  /\ lastActivity (fst (fst (handleState env request server)))
     = lastActivity server.
Proof.
  split; [|split; [|split; [|split; [|split]]]].
  - unfold handleLock. open_server server.
    destruct (Start _ _ _) as [[sh err] ev]. now destruct err.
  - unfold handleExecute.
    destruct (handleExecute_call P request server) as [response|[command timeout]];
      [reflexivity|].
    apply (resume_activity P (Engine.OpExecute command timeout (unixNano env)
                                (writeError env)) server).
  - unfold handleKill. open_server server.
    destruct (Kill _ _) as [[sh err] ev]. now destruct err.
  - unfold handleUnlock. open_server server. destruct (DieOnUnlock cf); [reflexivity|].
    now destruct (Unlock _ _) as [[sh err] ev].
  - reflexivity.
  - reflexivity.
Qed.

(** X20.  The idle watchdog counts requests with the key, and nothing else.
    At a tick it signals the process to terminate exactly when more than the
    configured idle time has passed since the last request that passed its
    key gate; it does not look at the state of the shell.  The steps of the
    goroutines in the background (a command that completes or times out, a
    read of the terminal, an earlier tick) do not count as activity; a
    request that passes its gate sets the time of the last activity to the
    time it is served. *)
Theorem idle_watchdog (P : string -> option Z) (ops : list Op) (now : Z)
    (server : serverInstance) :
  stopped server = false ->
  forallb background ops = true ->
  step P (Tick now) (run P ops server)
  = (run P ops server, None,
     if (now - lastActivity server >? IdleDuration (cfg server))%Z
     then [EvSigterm] else [])
  /\ (forall request env,
        keyed request = true ->
        Get (Header request) "X-Shell-Key" <> "" ->
        Get (Header request) "X-Shell-Key" = key server
        \/ (key server = "" /\ routed request "POST" "/lock" = true) ->
        lastActivity (fst (fst (step P (Serve request env) server)))
        = clock env).
Proof.
  intros St B. split.
  - destruct (background_run P ops server B) as (A & C & S & _).
    unfold step. rewrite S, St. unfold monitorIdleTimeout_tick.
    rewrite A, C. now destruct (_ >? _)%Z.
  - intros request env K N H. unfold step. rewrite St. unfold ServeHTTP.
    assert (U : forall s, lastActivity (updateActivity (clock env) s) = clock env)
      by now intros [].
    destruct (routed request "POST" "/lock") eqn:L.
    { rewrite setKeyMiddleware_pass; [|exact N|destruct H as [H|[H _]]; auto].
      destruct (keyed_handler_activity P env request
                  (updateActivity (clock env)
                     (set_key (Get (Header request) "X-Shell-Key") server)))
        as (-> & _). apply U. }
    destruct H as [H|[_ H]]; [|discriminate].
    assert (Kn : key server <> "") by congruence.
    apply keyed_cases in K. rewrite L in K.
    destruct (keyed_handler_activity P env request
                (updateActivity (clock env) server))
      as (_ & A2 & A3 & A4 & A5 & A6).
    destruct (routed request "POST" "/execute");
      [rewrite verifyKeyMiddleware_pass by assumption; now rewrite A2|].
    destruct (routed request "POST" "/kill");
      [rewrite verifyKeyMiddleware_pass by assumption; now rewrite A3|].
    destruct (routed request "POST" "/unlock");
      [rewrite verifyKeyMiddleware_pass by assumption; now rewrite A4|].
    destruct (routed request "GET" "/output");
      [rewrite verifyKeyMiddleware_pass by assumption; now rewrite A5|].
    destruct (routed request "GET" "/state");
      [rewrite verifyKeyMiddleware_pass by assumption; now rewrite A6|].
    destruct K as [K|[K|[K|[K|[K|K]]]]]; discriminate.
Qed.

(** [sleep 3600] with an idle time of 30 minutes: the request is served at
    time 10; the call times out, the terminal is read and the watchdog
    ticks; at the first tick after 30 minutes the process is signalled,
    with the command still executing. *)
Lemma idle_watchdog_witness :
  let cfg := mkConfig 8080 true 300000000000 1800000000000 1800000000000
               30000000000 5000000000 in
  let env := mkEnv 10 1 (Spawned 7 3 [ReadBytes "<<<SHELLD_READY_1>>>"]) None
               true in
  let server :=
    run parseWholeDuration
      [Serve (mkRequest "POST" "/lock" [("X-Shell-Key", "A")] (Some "")) env;
       Serve (mkRequest "POST" "/execute" [("X-Shell-Key", "A")]
                (Some "sleep 3600")) env]
      (NewServer cfg "/bin/bash" "" "/bin/sh" "" "" 0) in
  let ops := [Timeout 0; Tick 30000000010; Read 0 (ReadBytes "sleep 3600")] in
  State_ (shell (run parseWholeDuration ops server)) = StateExecuting
  /\ step parseWholeDuration (Tick 1800000000011)
       (run parseWholeDuration ops server)
     = (run parseWholeDuration ops server, None, [EvSigterm])
  /\ step parseWholeDuration (Tick 1800000000010)
       (run parseWholeDuration ops server)
     = (run parseWholeDuration ops server, None, []).
Proof.
  intros cfg env server ops. split; [reflexivity|]. split.
  - exact (proj1 (idle_watchdog parseWholeDuration ops 1800000000011 server
                    eq_refl eq_refl)).
  - exact (proj1 (idle_watchdog parseWholeDuration ops 1800000000010 server
                    eq_refl eq_refl)).
Defined.

(** ** The two modes of [/unlock] *)

(** X21.  What [/unlock] does with the bound key.  In recycle mode the
    handler runs the unlock hook with the bound key, ends the shell, and
    only then clears the key.  In shutdown mode the handler touches neither
    the shell nor the key: it answers 200 and signals the process.  The
    goroutine that takes the signal runs the unlock hook with the key bound
    at that time, under the shutdown deadline: no process is started when
    [timeout.shutdown] is not positive, or when the deadline has passed
    before the hook is started.  In a second step it ends the shell, and in
    a third the process stops; until then the process serves requests.
    Where the hook runs, it is one process of the hook shell when a hook is
    configured, and no call when none is. *)
Theorem unlock_runs_hook_with_key (P : string -> option Z) (env : Env)
    (request : Request) (server : serverInstance) :
  let hook := RunUnlock Active (hooks server) (key server) in
  let active := updateActivity (clock env) server in
  stopped server = false ->
  routed request "POST" "/unlock" = true ->
  key server <> "" ->
  Get (Header request) "X-Shell-Key" = key server ->
  (hook = if unlock (hooks server) =? "" then []
          else [EvHook (shellCommand (hooks server)) "unlock"
                  (unlock (hooks server)) (key server)])
  /\ (DieOnUnlock (cfg server) = false ->
      step P (Serve request env) server
      = (set_key "" (set_shell (fst (fst (Unlock (exited env) (shell server))))
                       active),
         Some (mkResponse StatusOK ""),
         (hook ++ snd (Unlock (exited env) (shell server)))%list))
  /\ (DieOnUnlock (cfg server) = true ->
      step P (Serve request env) server
      = (active, Some (mkResponse StatusOK ""), [EvSigterm]))
  /\ (phase server = Serving ->
      forall expired,
        step P (Signal expired) server
        = (set_phase Signalled server, None,
           if (ShutdownDuration (cfg server) <=? 0)%Z || expired then []
           else hook))
  /\ (phase server = Signalled ->
      forall exited,
        step P (SignalUnlock exited) server
        = (set_phase Unlocked
             (set_shell (fst (fst (Unlock exited (shell server)))) server),
           None, snd (Unlock exited (shell server))))
  /\ (phase server = Unlocked ->
      step P SignalShutdown server = (set_stopped true server, None, [])
      /\ forall op,
           step P op (set_stopped true server)
           = (set_stopped true server, None, [])).
Proof.
  intros hook active St R K G. split; [reflexivity|].
  assert (S : step P (Serve request env) server
              = handleUnlock env request active).
  { unfold step. rewrite St. unfold ServeHTTP.
    rewrite (routed_other _ _ _ "POST" "/lock" R eq_refl).
    rewrite (routed_other _ _ _ "POST" "/execute" R eq_refl).
    rewrite (routed_other _ _ _ "POST" "/kill" R eq_refl).
    rewrite R. now apply verifyKeyMiddleware_pass. }
  rewrite S.
  unfold handleUnlock, active, hook, step, shutdown_hook, shutdown_unlock,
    shutdown_exit.
  open_server server. subst stp.
  split; [|split; [|split; [|split]]]; intros ->.
  - now destruct (Unlock (exited env) esh) as [[sh err] ev].
  - reflexivity.
  - intros expired. unfold RunUnlock, Lifecycle.run.
    destruct (_ || _); [|reflexivity]. now destruct (_ =? _).
  - intros exited. now destruct (Unlock exited esh) as [[sh err] ev].
  - split; reflexivity.
Qed.

(** Shutdown mode with the unlock hook [rm /tmp/locked]: the request, then
    the signal, before the deadline and after it, and the end of the shell. *)
Lemma unlock_runs_hook_with_key_witness :
  let cfg := mkConfig 8080 true 300000000000 1800000000000 1800000000000
               30000000000 5000000000 in
  let env := mkEnv 10 1 (Spawned 7 3 [ReadBytes "<<<SHELLD_READY_1>>>"]) None
               true in
  let server :=
    run parseWholeDuration
      [Serve (mkRequest "POST" "/lock" [("X-Shell-Key", "A")] (Some "")) env]
      (NewServer cfg "/bin/bash" "" "/bin/sh" "" "rm /tmp/locked" 0) in
  let unlock := mkRequest "POST" "/unlock" [("X-Shell-Key", "A")] (Some "") in
  step parseWholeDuration (Serve unlock env) server
  = (server, Some (mkResponse StatusOK ""), [EvSigterm])
  /\ snd (step parseWholeDuration (Signal false) server)
     = [EvHook "/bin/sh" "unlock" "rm /tmp/locked" "A"]
  /\ snd (step parseWholeDuration (Signal true) server) = []
  /\ snd (step parseWholeDuration (SignalUnlock true)
            (set_phase Signalled server))
     = [EvPtyWrite (Some 3) ("exit" ++ LF); EvPtyClose 3; EvWait 7].
Proof.
  intros cfg env server unlock.
  destruct (unlock_runs_hook_with_key parseWholeDuration env unlock server)
    as (_ & _ & H1 & H2 & _); try reflexivity; [discriminate|].
  destruct (unlock_runs_hook_with_key parseWholeDuration env unlock
              (set_phase Signalled server))
    as (_ & _ & _ & _ & H3 & _); try reflexivity; [discriminate|].
  split; [exact (H1 eq_refl)|].
  split; [exact (f_equal snd (H2 eq_refl false))|].
  split; [exact (f_equal snd (H2 eq_refl true))|].
  exact (f_equal snd (H3 eq_refl true)).
Defined.

(** ** [/kill] *)

(** X22.  [/kill] with the bound key.  The handler writes the one byte 0x03
    to the master side when it is open, and nothing when it is not; it
    leaves the engine as it is, the state included: a command that is
    interrupted is over only when its reader sees the end marker.  The
    answer is 500 when the write fails and 200 otherwise, also when no shell
    runs. *)
Theorem kill_writes_interrupt (P : string -> option Z) (env : Env)
    (request : Request) (server : serverInstance) :
  stopped server = false ->
  routed request "POST" "/kill" = true ->
  key server <> "" ->
  Get (Header request) "X-Shell-Key" = key server ->
  step P (Serve request env) server
  = (updateActivity (clock env) server,
     Some (match ptyFile (shell server), writeError env with
           | Some _, Some _ =>
               Error "The shell could not be killed." StatusInternalServerError
           | _, _ => mkResponse StatusOK ""
           end),
     match ptyFile (shell server) with
     | Some fd => [EvPtyWrite (Some fd) ETX]
     | None => []
     end).
Proof.
  intros St R K G. unfold step. rewrite St. unfold ServeHTTP.
  rewrite (routed_other _ _ _ "POST" "/lock" R eq_refl).
  rewrite (routed_other _ _ _ "POST" "/execute" R eq_refl).
  rewrite R, verifyKeyMiddleware_pass by assumption.
  unfold handleKill, Kill. open_server server.
  destruct esh as [st c p b g sc wd lo cd cc sm em]. shell_fields.
  destruct p as [fd|]; [destruct (writeError env)|]; reflexivity.
Qed.

(** [/kill] while no command runs. *)
Lemma kill_writes_interrupt_witness :
  let cfg := mkConfig 8080 true 300000000000 1800000000000 1800000000000
               30000000000 5000000000 in
  let env := mkEnv 10 1 (Spawned 7 3 [ReadBytes "<<<SHELLD_READY_1>>>"]) None
               true in
  let server :=
    run parseWholeDuration
      [Serve (mkRequest "POST" "/lock" [("X-Shell-Key", "A")] (Some "")) env]
      (NewServer cfg "/bin/bash" "" "/bin/sh" "" "" 0) in
  step parseWholeDuration
    (Serve (mkRequest "POST" "/kill" [("X-Shell-Key", "A")] (Some "")) env)
    server
  = (server, Some (mkResponse StatusOK ""), [EvPtyWrite (Some 3) ETX]).
Proof.
  intros cfg env server.
  apply (kill_writes_interrupt parseWholeDuration env
           (mkRequest "POST" "/kill" [("X-Shell-Key", "A")] (Some "")) server);
    try reflexivity.
  discriminate.
Defined.

(** ** The answers of [/execute] *)

Lemma serve_execute (P : string -> option Z) (env : Env) (request : Request)
    (server : serverInstance) :
  stopped server = false ->
  routed request "POST" "/execute" = true ->
  key server <> "" ->
  Get (Header request) "X-Shell-Key" = key server ->
  step P (Serve request env) server
  = handleExecute P env request (updateActivity (clock env) server).
Proof.
  intros St R K G. unfold step. rewrite St. unfold ServeHTTP.
  rewrite (routed_other _ _ _ "POST" "/lock" R eq_refl).
  rewrite R. now apply verifyKeyMiddleware_pass.
Qed.

Lemma handleExecute_call_activity (P : string -> option Z) (request : Request)
    (now : Z) (server : serverInstance) :
  handleExecute_call P request (updateActivity now server)
  = handleExecute_call P request server.
Proof. now destruct server. Qed.

(** X23.  A command that is not run.  [/execute] with the bound key and a
    command, in a state other than [locked], is answered 409 with a message
    that names the state; the engine is as it was (the output buffer and the
    last-output slot included) and nothing is written to the shell.  In
    state [locked], when the write to the shell fails or no master side is
    open, the answer is 409 as well, the state is [unrecoverable], the
    last-output slot has been emptied, and no reader is started. *)
Theorem execute_refused (P : string -> option Z) (env : Env)
    (request : Request) (server : serverInstance) (command : string)
    (timeout : Z) :
  stopped server = false ->
  routed request "POST" "/execute" = true ->
  key server <> "" ->
  Get (Header request) "X-Shell-Key" = key server ->
  handleExecute_call P request server = inr (command, timeout) ->
  (state (shell server) <> StateLocked ->
   step P (Serve request env) server
   = (updateActivity (clock env) server,
      Some (Error
              match state (shell server) with
              | StateAvailable => "The shell has not been locked."
              | StateExecuting => "The shell is busy executing another command."
              | _ => "The shell is in an unrecoverable state."
              end StatusConflict),
      []))
  /\ (state (shell server) = StateLocked ->
      ptyFile (shell server) = None \/ writeError env <> None ->
      exists server' data,
        step P (Serve request env) server
        = (server',
           Some (Error "The shell is in an unrecoverable state." StatusConflict),
           [EvPtyWrite (ptyFile (shell server)) data])
        /\ state (shell server') = StateUnrecoverable
        /\ Output (shell server') = ""
        /\ Engine.waiters (engine server') = Engine.waiters (engine server)
        /\ Engine.readers (engine server') = Engine.readers (engine server)).
Proof.
  intros St R K G C. rewrite (serve_execute P env request server St R K G).
  unfold handleExecute. rewrite handleExecute_call_activity, C.
  open_server server. destruct esh as [st c p b g sc wd lo cd cc sm em].
  cbn [Engine.step Engine.shell]. unfold Execute_begin. shell_fields. split.
  - intros N. destruct st; try congruence; reflexivity.
  - intros -> W. cbn [State_eqb negb]. cbv zeta. shell_fields.
    destruct p as [fd|]; [destruct (writeError env) as [cause|]|].
    + eexists. eexists. split; [reflexivity|]. repeat split.
    + destruct W; congruence.
    + eexists. eexists. split; [reflexivity|]. repeat split.
Qed.

(** A second command while the first one executes. *)
Lemma execute_refused_witness :
  let cfg := mkConfig 8080 true 300000000000 1800000000000 1800000000000
               30000000000 5000000000 in
  let env := mkEnv 10 1 (Spawned 7 3 [ReadBytes "<<<SHELLD_READY_1>>>"]) None
               true in
  let server :=
    run parseWholeDuration
      [Serve (mkRequest "POST" "/lock" [("X-Shell-Key", "A")] (Some "")) env;
       Serve (mkRequest "POST" "/execute" [("X-Shell-Key", "A")]
                (Some "sleep 3")) env]
      (NewServer cfg "/bin/bash" "" "/bin/sh" "" "" 0) in
  step parseWholeDuration
    (Serve (mkRequest "POST" "/execute" [("X-Shell-Key", "A")] (Some "ls")) env)
    server
  = (server,
     Some (Error "The shell is busy executing another command." StatusConflict),
     []).
Proof.
  intros cfg env server.
  apply (execute_refused parseWholeDuration env
           (mkRequest "POST" "/execute" [("X-Shell-Key", "A")] (Some "ls"))
           server "ls" 300000000000); try reflexivity; discriminate.
Defined.

(** X24.  A command that was accepted.  While the call of [Execute] waits,
    its request is answered in one of three ways: 202 when the deadline
    passes (the engine is left as it is); 200 with the last output when the
    reader has signalled completion (the state is then [locked]); 409 when
    the reader has signalled an error (the state is then [unrecoverable]). *)
Theorem execute_answers (P : string -> option Z) (done : chan)
    (server : serverInstance) :
  stopped server = false ->
  Engine.is_waiter done (Engine.waiters (engine server)) = true ->
  (exists server',
     step P (Timeout done) server
     = (server',
        Some (Error "The command timed out. The shell is busy and the command is still running."
                StatusAccepted), [])
     /\ shell server' = shell server)
  /\ (nth_error (Engine.chans (engine server)) done = Some (Some None) ->
      exists server',
        step P (Receive done) server
        = (server', Some (mkResponse StatusOK (Output (shell server))), [])
        /\ state (shell server') = StateLocked)
  /\ (forall e,
        nth_error (Engine.chans (engine server)) done = Some (Some (Some e)) ->
        e <> ErrTimeout ->
        exists server',
          step P (Receive done) server
          = (server',
             Some (Error "The shell is in an unrecoverable state." StatusConflict),
             [])
          /\ state (shell server') = StateUnrecoverable).
Proof.
  intros St W. unfold step. rewrite St. unfold resume.
  open_server server. subst stp.
  cbn [Engine.step Engine.waiters Engine.chans Engine.shell].
  rewrite W. split; [|split].
  - eexists. split; reflexivity.
  - intros ->. cbn [Execute_receive]. eexists. split; [reflexivity|].
    now destruct esh.
  - intros e -> N. cbn [Execute_receive].
    exists (mkServer cf
              (Engine.mkWorld (set_state StateUnrecoverable esh)
                 (Engine.update done None ecs) (Engine.remove_waiter done ews)
                 ers) h a k ph false).
    split; [|now destruct esh].
    sfields. unfold handleExecute_reply, State_. sfields.
    destruct esh. cbn. destruct e; try reflexivity. congruence.
Qed.

(** [sleep 3] with a deadline that passes. *)
Lemma execute_answers_witness :
  let cfg := mkConfig 8080 true 300000000000 1800000000000 1800000000000
               30000000000 5000000000 in
  let env := mkEnv 10 1 (Spawned 7 3 [ReadBytes "<<<SHELLD_READY_1>>>"]) None
               true in
  let server :=
    run parseWholeDuration
      [Serve (mkRequest "POST" "/lock" [("X-Shell-Key", "A")] (Some "")) env;
       Serve (mkRequest "POST" "/execute" [("X-Shell-Key", "A")]
                (Some "sleep 3")) env]
      (NewServer cfg "/bin/bash" "" "/bin/sh" "" "" 0) in
  exists server',
    step parseWholeDuration (Timeout 0) server
    = (server',
       Some (Error "The command timed out. The shell is busy and the command is still running."
               StatusAccepted), [])
    /\ shell server' = shell server.
Proof.
  intros cfg env server.
  exact (proj1 (execute_answers parseWholeDuration 0 server eq_refl eq_refl)).
Defined.

End ServerFacts.
